(** * Curator: rate-limited pagination, chunked quote downloads and the
      pipeline orchestrator

    A shallow embedding of

    - [src/option_bot/polygon.py]: [PolygonPaginator] ([__init__],
      [_api_sleep_time], [query_all]);
    - [src/curator/data_pipeline/download.py]: [api_pool_downloader],
      [api_quote_downloader], [download_options_quotes], and the downloads
      of the stock metadata, the stock prices, the option contracts, the
      option prices and the snapshots;
    - [src/curator/db_tools/utils.py]: the [OptionTicker] named tuple,
      [pull_tickers_from_db], [generate_o_ticker_lookup];
    - [src/option_bot/data_pipeline/orchestrator.py]: [import_all],
      [import_partial], [remove_tickers_from_universe];
    - [src/option_bot/orchestrator.py]: [pool_kwarg_config],
      [api_pool_downloader], [fetch_stock_metadata],
      [import_all_ticker_metadata], [fetch_options_contracts], [main],
      [fetch_stock_prices], [fetch_options_prices],
      [import_tickers_and_contracts_process], and its copy of
      [remove_tickers_from_universe].

    Python objects are records, [self] is passed and returned explicitly,
    and every call that leaves the module (the HTTP transport,
    [asyncio.sleep], the logger, the process pools, the database helpers)
    is recorded as an event of a trace, in program order. *)

From Stdlib Require Import ZArith QArith Qround Lia.
From stdpp Require Import base list gmap strings.

Open Scope Z_scope.

(** ** Python values shared by the modules *)

(** Scalars stored in request payloads and pool keyword arguments. *)
Inductive pyval : Type :=
| PyStr (s : string)
| PyInt (z : Z)
| PyBool (b : bool).

(** A decoded JSON document, as [response.json()] returns it. *)
#[local] Unset Elimination Schemes.
Inductive json : Type :=
| JNull
| JBool (b : bool)
| JNum (z : Z)
| JStr (s : string)
| JArr (items : list json)
| JObj (members : list (string * json)).
#[local] Set Elimination Schemes.

(** A [datetime], counted in microseconds (its resolution) since the epoch;
    the difference of two of them is a [timedelta], in microseconds too. *)
Definition datetime : Type := Z.

(** [timedelta.total_seconds()]: the microseconds divided by [10**6]. *)
Definition total_seconds (d : Z) : Q := Qmake d 1000000.

(** [math.ceil]. *)
Definition math_ceil (x : Q) : Z := Qceiling x.

(** [bool(s)] for a value that is [None] or a [str]: only a non-empty string
    is true. *)
Definition truthy (s : option string) : bool :=
  match s with
  | Some (String _ _) => true
  | _ => false
  end.

(** [OptionTicker = namedtuple("OptionTicker", ["o_ticker", "id",
    "expiration_date", "underlying_ticker"])]. *)
Record OptionTicker : Type := mkOptionTicker {
  o_ticker : string;
  id : Z;
  expiration_date : datetime;
  underlying_ticker : string
}.

(** ** [src/option_bot/polygon.py] *)

Module Polygon.

(** What the module imports and [src/] does not hold: the API key of
    [proj_constants] and [utils.timestamp_to_datetime], which turns a
    [time.time()] reading (a float, hence a rational) into a [datetime]. *)
Class Imports : Type := {
  POLYGON_API_KEY : pyval;
  timestamp_to_datetime : Q → datetime
}.

(** One element of [query_time_log]:
    [{"request_id": ..., "query_timestamp": ...}]. *)
Record log_entry : Type := mkEntry {
  request_id : option string;
  query_timestamp : Q
}.

(** The attributes [__init__] gives a paginator. *)
Record PolygonPaginator : Type := mkPaginator {
  query_count : Z;
  query_time_log : list log_entry;
  results : list json
}.

(** The response object, through the members [query_all] uses:
    [status_code], [json()], and [get(key)] read as the lookup of a top-level
    string field ([None] when the field is absent). *)
Record response : Type := mkResponse {
  status_code : Z;
  fields : gmap string string;
  body : json
}.

Definition get (r : response) (key : string) : option string :=
  fields r !! key.

(** Exceptions that leave [query_all]. *)
Inductive exn : Type :=
| HTTPError (status : Z)
| RequestException.

(** [response.raise_for_status()]: [HTTPError] for a 4xx or 5xx status,
    nothing otherwise. *)
Definition raise_for_status (r : response) : option exn :=
  if (400 <=? status_code r) && (status_code r <? 600)
  then Some (HTTPError (status_code r))
  else None.

(** What a run of [query_all] does to the outside, in order. *)
Inductive event : Type :=
| EvSleep (seconds : Z)
| EvLogQuery (url : string) (payload : gmap string pyval) (overload : bool)
| EvGet (url : string) (params : gmap string pyval)
| EvLogStatus (status : Z).

(** The transport and the clock as the paginator meets them: the k-th
    [requests.get] of a run is answered by the k-th element, a response and
    the [time.time()] read right after it. When the list is exhausted the
    transport raises instead of answering. *)
Definition world : Type := list (response * Q).

Inductive completion : Type :=
| Returned
| Raised (e : exn).

(** The result of running [query_all]: the paginator afterwards, the events,
    how the call ended, and the exchanges left unconsumed. *)
Record run : Type := mkRun {
  final : PolygonPaginator;
  trace : list event;
  outcome : completion;
  unused : world
}.

Definition after (pre : list event) (r : run) : run :=
  mkRun (final r) (pre ++ trace r) (outcome r) (unused r).

Definition MAX_QUERY_PER_MINUTE : Z := 4.

(** [PolygonPaginator.__init__]. *)
Definition __init__ : PolygonPaginator := mkPaginator 0 [] [].

Section paginator.
Context `{Imports}.

(** [PolygonPaginator._api_sleep_time]. [query_time_log[0]] and
    [query_time_log[-1]] exist in the branch that reads them. *)
Definition _api_sleep_time (self : PolygonPaginator) : Z :=
  let sleep_time := 60 in
  if (2 <? Z.of_nat (length (query_time_log self))) then
    match head (query_time_log self), last (query_time_log self) with
    | Some first, Some final_ =>
        let a := timestamp_to_datetime (query_timestamp first) in
        let b := timestamp_to_datetime (query_timestamp final_) in
        let diff := math_ceil (total_seconds (b - a)) in
        if diff <? sleep_time then diff else sleep_time
    | _, _ => sleep_time
    end
  else sleep_time.

(** Lines 40-43 of [query_all]: sleep and reset when the quota is used up or
    the caller reports an overload. *)
Definition throttle (overload : bool) (self : PolygonPaginator)
  : PolygonPaginator * list event :=
  if (MAX_QUERY_PER_MINUTE <=? query_count self) || overload
  then (mkPaginator 0 [] (results self), [EvSleep (_api_sleep_time self)])
  else (self, []).

(** Lines 47-48: log the request, then count it. *)
Definition record_request (r : response) (now : Q) (self : PolygonPaginator)
  : PolygonPaginator :=
  let self :=
    mkPaginator (query_count self)
      (query_time_log self ++ [mkEntry (get r "request_id") now])
      (results self) in
  mkPaginator (query_count self + 1) (query_time_log self) (results self).

(** [self.results.append(response.json())]. *)
Definition append_result (r : response) (self : PolygonPaginator)
  : PolygonPaginator :=
  mkPaginator (query_count self) (query_time_log self)
    (results self ++ [body r]).

(** [PolygonPaginator.query_all]. Each call consumes one exchange of the
    world, so the recursion of the source (on [next_url], and on a 429) is
    structural on it. [if next_url:] holds of a non-empty string only.

    The call on [next_url] omits [payload] and so receives the default
    dictionary of the [def]; the only writes that dictionary ever sees are
    [payload["apiKey"] = POLYGON_API_KEY], so after line 39 it holds exactly
    that key, as [∅] does here. *)
Fixpoint query_all (w : world) (url : string) (payload : gmap string pyval)
    (overload : bool) (self : PolygonPaginator) : run :=
  let payload := <["apiKey" := POLYGON_API_KEY]> payload in
  let '(self, slept) := throttle overload self in
  let pre := slept ++ [EvLogQuery url payload overload; EvGet url payload] in
  match w with
  | [] => mkRun self pre (Raised RequestException) []
  | (response, now) :: w =>
      let self := record_request response now self in
      let pre := pre ++ [EvLogStatus (status_code response)] in
      if status_code response =? 200 then
        let self := append_result response self in
        match get response "next_url" with
        | Some (String _ _ as next_url) =>
            after pre (query_all w next_url ∅ false self)
        | _ => mkRun self pre Returned w
        end
      else if status_code response =? 429 then
        after pre (query_all w url payload true self)
      else
        match raise_for_status response with
        | Some e => mkRun self pre (Raised e) w
        | None => mkRun self pre Returned w
        end
  end.

End paginator.

(** The URLs fetched by a run, in order. *)
Definition fetches (t : list event) : list string :=
  omap (λ e, match e with EvGet url _ => Some url | _ => None end) t.

(** The sleeps of a run, in order. *)
Definition sleeps (t : list event) : list Z :=
  omap (λ e, match e with EvSleep s => Some s | _ => None end) t.

(** The status codes a run received, in order: one per answered request. *)
Definition statuses (t : list event) : list Z :=
  omap (λ e, match e with EvLogStatus s => Some s | _ => None end) t.

(** Requests and answers of a run, in order. *)
Inductive io : Type :=
| Sent (url : string)
| Received (status : Z).

Definition exchanges (t : list event) : list io :=
  omap (λ e, match e with
             | EvGet url _ => Some (Sent url)
             | EvLogStatus s => Some (Received s)
             | _ => None
             end) t.

(** A page that carries the cursor [cursor], and a page that carries none. *)
Definition carries_cursor (x : response * Q) (cursor : string) : Prop :=
  status_code x.1 = 200 ∧ get x.1 "next_url" = Some cursor ∧
  cursor ≠ EmptyString.

Definition exhausted (x : response * Q) : Prop :=
  status_code x.1 = 200 ∧ truthy (get x.1 "next_url") = false.

(** The counter and the log emptied, as lines 42-43 leave them. *)
Definition reset (self : PolygonPaginator) : PolygonPaginator :=
  mkPaginator 0 [] (results self).

(** The counter counts the entries of the log. *)
Definition consistent (self : PolygonPaginator) : Prop :=
  query_count self = Z.of_nat (length (query_time_log self)).

Section between_calls.
Context `{Imports}.

(** The parameters sent: the payload after line 39. *)
Definition sent (payload : gmap string pyval) : gmap string pyval :=
  <["apiKey" := POLYGON_API_KEY]> payload.

(** The paginators met between two calls of [query_all]: a new one, and one
    left by a call, however that call ended. *)
Inductive reachable : PolygonPaginator → Prop :=
| reachable_init : reachable __init__
| reachable_query_all self w url payload overload :
    reachable self →
    reachable (final (query_all w url payload overload self)).

End between_calls.

(** A configuration to run the model on: a key, and
    [datetime.fromtimestamp] cut to whole microseconds. *)
Definition demo_imports : Imports :=
  {| POLYGON_API_KEY := PyStr "k";
     timestamp_to_datetime := λ t, Qfloor (Qmult t (Qmake 1000000 1)) |}.

(** Three requests, sent 0, 2 and 5 seconds after [t = 100]. *)
Definition demo_log : list log_entry :=
  [ mkEntry None (Qmake 100 1); mkEntry None (Qmake 102 1);
    mkEntry None (Qmake 105 1) ].

(** An endpoint with three pages, the first two carrying a cursor, and an
    endpoint that is busy once. *)
Definition demo_page (status : Z) (next_url : option string) (b : json)
  : response :=
  mkResponse status
    (match next_url with Some u => {[ "next_url" := u ]} | None => ∅ end) b.

Definition demo_pages : world :=
  [ (demo_page 200 (Some "u2") (JNum 1), Qmake 101 1);
    (demo_page 200 (Some "u3") (JNum 2), Qmake 102 1) ].

Definition demo_final_page : response * Q :=
  (demo_page 200 None (JNum 3), Qmake 103 1).

Definition demo_busy : response * Q :=
  (demo_page 429 None JNull, Qmake 100 1).

End Polygon.

(** ** Effects of the pipeline modules

    A computation reads the events that happened before it started, emits
    its own events, and ends in a value or in an exception. What a
    collaborator answers may depend on everything that happened so far. *)

Module Eff.

Section monad.
Context {E X : Type}.

Definition M (A : Type) : Type := list E → list E * (X + A).

Definition ret {A} (a : A) : M A := λ _, ([], inr a).

Definition raise {A} (x : X) : M A := λ _, ([], inl x).

Definition bind {A B} (m : M A) (k : A → M B) : M B :=
  λ h,
    match m h with
    | (t1, inl x) => (t1, inl x)
    | (t1, inr a) => let '(t2, r) := k a (h ++ t1) in (t1 ++ t2, r)
    end.

(** A call that leaves the module and whose value is used: it is answered
    by [answer] from the events so far, and the event [call_ a] records the
    call together with its answer [a]. *)
Definition perform {A} (call_ : X + A → E) (answer : list E → X + A)
  : M A :=
  λ h, ([call_ (answer h)], answer h).

(** A call whose value is not used: the event [e], after which the call
    returns or raises. *)
Definition effect (e : E) (raises : list E → option X) : M unit :=
  λ h, ([e], match raises h with Some x => inl x | None => inr tt end).

(** A call that cannot fail. *)
Definition emit (e : E) : M unit := λ _, ([e], inr tt).

(** [for x in l: body(x)]. *)
Fixpoint for_each {A} (l : list A) (body : A → M unit) : M unit :=
  match l with
  | [] => ret tt
  | x :: l => bind (body x) (λ _, for_each l body)
  end.

End monad.

Arguments M : clear implicits.

End Eff.

Notation "'let!' x ':=' m 'in' k" := (Eff.bind m (λ x, k))
  (at level 10, x name, m at level 100, k at level 200).
Notation "m ';;;' k" := (Eff.bind m (λ _, k))
  (at level 100, k at level 200, right associativity).

(** [range(start, stop, step)] for a positive [step]. *)
Definition py_range (start stop step : nat) : list nat :=
  map (λ k, start + k * step)%nat
    (seq 0 ((stop - start + step - 1) / step)%nat).

(** [l[i:j]] for indices [0 <= i] and [0 <= j]. *)
Definition py_slice {A} (l : list A) (i j : nat) : list A :=
  take (j - i) (drop i l).

(** The slices that [for i in range(0, len(l), B)] takes as [l[i:i + B]]. *)
Definition slices {A} (B : nat) (l : list A) : list (list A) :=
  map (λ i, py_slice l i (i + B)) (py_range 0 (length l) B).

(** ** [src/curator/data_pipeline/download.py] *)

Module Download.

(** Keyword arguments of a pool: a [dict] with string keys. *)
Abbreviation kwargs := (gmap string pyval).

Inductive exn : Type :=
| TypeError
| Exception (name : string).

(** The messages handed to [log], whatever their level. *)
Inductive log_msg : Type :=
| generating_urls
| fetching_data
| tasks (n : nat)
| creating_quote_pool
| deploying_quote_workers
| finished_downloading (paginator_type : string)
| no_data_to_download (paginator_type : string) (batch_num : Z)
| downloading_quotes (upto total : nat)
| completely_done (ticker : string).

(** What the module imports and [src/] does not hold: the base URL of
    [proj_constants], [utils.pool_kwarg_config], the paginator classes of
    [data_pipeline.polygon_utils] (their objects, [paginator_type],
    [generate_request_args]; the argument tuples of [download_data]) and
    the constructor of [HistoricalQuotes]. *)
Class Imports : Type := {
  POLYGON_BASE_URL : string;
  pool_kwarg_config : kwargs → kwargs;
  arg : Type;
  request_args : Type;
  Paginator : Type;
  paginator_type : Paginator → string;
  generate_request_args : Paginator → option (list arg) → list request_args;
  QuotePaginator : Type;
  HistoricalQuotes : Z → gmap string Z → QuotePaginator;
  quote_paginator_type : QuotePaginator → string;
  quote_generate_request_args :
    QuotePaginator → list OptionTicker → list request_args * gmap string Z
}.

Section download.
Context `{Imports}.

Inductive event : Type :=
| EvLog (msg : log_msg)
| EvGenerateRequestArgs (paginator : Paginator) (args_data : option (list arg))
| EvQuoteGenerateRequestArgs (paginator : QuotePaginator)
    (args_data : list OptionTicker)
| EvPool (pool_kwargs : kwargs) (paginator : Paginator)
    (url_args : list request_args)
| EvQuotePool (pool_kwargs : kwargs) (o_ticker_count_mapping : gmap string Z)
    (paginator : QuotePaginator) (url_args : list request_args).

Abbreviation M := (Eff.M event exn).

(** The pools of [aiomultiprocess] and of [data_pipeline.QuotePool], as
    they answer a run: [None] when [starmap] and the exit of the
    [async with] block return, the exception otherwise. *)
Class Pools : Type := {
  pool_raises : list event → event → option exn
}.
Context `{Pools}.

Definition log (msg : log_msg) : M unit := Eff.emit (EvLog msg).

(** [dict] called with the keywords of both [a] and [b]: a keyword given
    twice is a [TypeError]. *)
Definition dict_merge (a b : kwargs) : M kwargs :=
  if bool_decide (a ##ₘ b) then Eff.ret (a ∪ b) else Eff.raise TypeError.

(** The keywords every pool gets (line 61 and line 177). *)
Definition session_kwargs : kwargs :=
  {[ "init_client_session" := PyBool true;
     "session_base_url" := PyStr POLYGON_BASE_URL ]}.

(** [if batch_num:] for an [int] or [None]. *)
Definition batch_num_given (batch_num : option Z) : option Z :=
  match batch_num with
  | Some 0 => None
  | b => b
  end.

(** [api_pool_downloader]. *)
Definition api_pool_downloader (paginator : Paginator)
    (args_data : option (list arg)) (pool_kwargs : kwargs)
    (batch_num : option Z) : M unit :=
  log generating_urls ;;;
  Eff.emit (EvGenerateRequestArgs paginator args_data) ;;;
  let url_args := generate_request_args paginator args_data in
  match url_args with
  | _ :: _ =>
      log fetching_data ;;;
      log (tasks (length url_args)) ;;;
      let! pool_kwargs := dict_merge pool_kwargs session_kwargs in
      let pool_kwargs := pool_kwarg_config pool_kwargs in
      (let pool := EvPool pool_kwargs paginator url_args in
       Eff.effect pool (λ h, pool_raises h pool)) ;;;
      log (finished_downloading (paginator_type paginator))
  | [] =>
      match batch_num_given batch_num with
      | Some n => log (no_data_to_download (paginator_type paginator) n)
      | None => Eff.ret tt
      end
  end.

(** [api_quote_downloader]. [QuotePool] is called with the keywords of
    [pool_kwargs] and with [o_ticker_count_mapping]: a [TypeError] when
    [pool_kwargs] already holds that keyword. *)
Definition api_quote_downloader (paginator : QuotePaginator)
    (args_data : list OptionTicker) (pool_kwargs : kwargs) : M unit :=
  log generating_urls ;;;
  Eff.emit (EvQuoteGenerateRequestArgs paginator args_data) ;;;
  let '(url_args, o_ticker_count_mapping) :=
    quote_generate_request_args paginator args_data in
  match url_args with
  | _ :: _ =>
      log fetching_data ;;;
      log (tasks (length url_args)) ;;;
      let! pool_kwargs := dict_merge pool_kwargs session_kwargs in
      let pool_kwargs := pool_kwarg_config pool_kwargs in
      log creating_quote_pool ;;;
      (if bool_decide (is_Some (pool_kwargs !! "o_ticker_count_mapping"))
       then Eff.raise TypeError else Eff.ret tt) ;;;
      log deploying_quote_workers ;;;
      (let pool :=
         EvQuotePool pool_kwargs o_ticker_count_mapping paginator url_args in
       Eff.effect pool (λ h, pool_raises h pool)) ;;;
      log (finished_downloading (quote_paginator_type paginator))
  | [] => Eff.ret tt
  end.

(** [{x.o_ticker: x.id for x in o_tickers}]: a later entry replaces an
    earlier one with the same key. *)
Definition id_by_o_ticker (o_tickers : list OptionTicker) : gmap string Z :=
  foldl (λ m x, <[o_ticker x := id x]> m) ∅ o_tickers.

Definition BATCH_SIZE_OTICKERS : nat := 1000.

(** [[x for x in o_tickers if x.underlying_ticker == ticker]]. *)
Definition batch_o_tickers (ticker : string) (o_tickers : list OptionTicker)
  : list OptionTicker :=
  filter (λ x, underlying_ticker x = ticker) o_tickers.

(** [download_options_quotes]. *)
Definition download_options_quotes (ticker : string)
    (o_tickers : list OptionTicker) (months_hist : Z) : M unit :=
  let pool_kwargs : kwargs :=
    {[ "childconcurrency" := PyInt 14;
       "maxtasksperchild" := PyInt 1000;
       "processes" := PyInt 30 ]} in
  let o_ticker_lookup := id_by_o_ticker o_tickers in
  let op_quotes := HistoricalQuotes months_hist o_ticker_lookup in
  let batch_o_tickers := batch_o_tickers ticker o_tickers in
  Eff.for_each (py_range 0 (length batch_o_tickers) BATCH_SIZE_OTICKERS)
    (λ i,
      let small_batch :=
        py_slice batch_o_tickers i (i + BATCH_SIZE_OTICKERS) in
      log (downloading_quotes (i + BATCH_SIZE_OTICKERS)
             (length batch_o_tickers)) ;;;
      api_quote_downloader op_quotes small_batch pool_kwargs) ;;;
  log (completely_done ticker).

(** The batches handed to [generate_request_args] of the quote paginator,
    one per call of [api_quote_downloader], in order. *)
Definition dispatched (t : list event) : list (list OptionTicker) :=
  omap (λ e, match e with
             | EvQuoteGenerateRequestArgs _ args_data => Some args_data
             | _ => None
             end) t.

(** The pool runs of a trace, in order. *)
Definition is_pool_run (e : event) : bool :=
  match e with
  | EvPool _ _ _ | EvQuotePool _ _ _ _ => true
  | _ => false
  end.

Definition pool_runs (t : list event) : list event :=
  omap (λ e, if is_pool_run e then Some e else None) t.

(** The events a run of [api_quote_downloader] on [args_data] can consist
    of. *)
Definition quote_run_event (paginator : QuotePaginator)
    (args_data : list OptionTicker) (e : event) : Prop :=
  match e with
  | EvLog _ => True
  | EvQuoteGenerateRequestArgs p a => p = paginator ∧ a = args_data
  | EvQuotePool _ m p ua =>
      p = paginator ∧ quote_generate_request_args p args_data = (ua, m)
  | _ => False
  end.

(** The loop of [download_options_quotes] (lines 142-151) on its own. *)
Definition quote_loop (ticker : string) (o_tickers : list OptionTicker)
    (months_hist : Z) : Eff.M event exn unit :=
  let op_quotes := HistoricalQuotes months_hist (id_by_o_ticker o_tickers) in
  let pool_kwargs : kwargs :=
    {[ "childconcurrency" := PyInt 14;
       "maxtasksperchild" := PyInt 1000;
       "processes" := PyInt 30 ]} in
  let batch := batch_o_tickers ticker o_tickers in
  Eff.for_each (py_range 0 (length batch) BATCH_SIZE_OTICKERS)
    (λ i,
      log (downloading_quotes (i + BATCH_SIZE_OTICKERS) (length batch)) ;;;
      api_quote_downloader op_quotes
        (py_slice batch i (i + BATCH_SIZE_OTICKERS)) pool_kwargs).

End download.

(** A configuration to run the model on: one request per option ticker,
    pools that never raise, and 2500 option tickers of SPY followed by one of
    QQQ. *)
Definition demo_imports : Imports :=
  {| POLYGON_BASE_URL := "https://api.polygon.io";
     pool_kwarg_config := λ kw, kw;
     arg := string;
     request_args := string;
     Paginator := string;
     paginator_type := λ p, p;
     generate_request_args := λ _ a, default [] a;
     QuotePaginator := Z;
     HistoricalQuotes := λ months_hist _, months_hist;
     quote_paginator_type := λ _, "HistoricalQuotes";
     quote_generate_request_args := λ _ batch, (map o_ticker batch, ∅) |}.

Definition demo_pools : @Pools demo_imports :=
  {| pool_raises := λ _ _, None |}.

Definition demo_o_tickers : list OptionTicker :=
  replicate 2500 (mkOptionTicker "O:SPY" 1 0 "SPY") ++
  [mkOptionTicker "O:QQQ" 2 0 "QQQ"].

End Download.

(** ** [src/option_bot/data_pipeline/orchestrator.py] *)

Module Orchestrator.

(** [ticker_lookup]: the [dict] from ticker to id, as its items in insertion
    order. *)
Abbreviation ticker_lookup := (list (string * Z)).

(** The [dict] from option ticker to [OptionTicker], as its items in
    insertion order. *)
Abbreviation o_ticker_lookup := (list (string * OptionTicker)).

(** [list(d.values())]. *)
Definition values {K V} (d : list (K * V)) : list V := map snd d.

(** The collaborators whose value is not used by the orchestrator: the
    downloads and uploads of [data_pipeline], and [delete_stock_ticker] of
    [db_tools.queries]. *)
Inductive call : Type :=
| download_stock_metadata (tickers : list string) (all_ : bool)
| upload_stock_metadata (tickers : list string) (all_ : bool)
| download_stock_prices (ticker_lookup : ticker_lookup)
    (start_date end_date : datetime)
| upload_stock_prices (ticker_lookup : ticker_lookup)
| download_options_contracts (ticker_id_lookup : ticker_lookup)
    (months_hist : Z)
| upload_options_contracts (ticker_lookup : ticker_lookup) (months_hist : Z)
| download_options_prices (o_tickers : list OptionTicker) (months_hist : Z)
| upload_options_prices (o_tickers : o_ticker_lookup)
| download_options_snapshots (o_tickers : list OptionTicker)
| upload_options_snapshots (o_tickers : o_ticker_lookup)
| download_options_quotes (o_tickers : list OptionTicker) (months_hist : Z)
| upload_options_quotes (o_tickers : o_ticker_lookup)
| delete_stock_ticker (ticker : string).

Inductive log_msg : Type :=
| deleting_ticker (ticker : string)
| successfully_deleted (ticker : string).

(** An exception, by the name of its class. *)
Definition exn : Type := string.

(** The calls of a run, in order. The two lookups of [db_tools.utils] are
    recorded with what they answered: the lookup, or the exception. *)
Inductive event : Type :=
| EvCall (c : call)
| EvPullTickersFromDb (tickers : list string) (all_ : bool)
    (answer : exn + ticker_lookup)
| EvGenerateOTickerLookup (tickers : list string) (all_ unexpired : bool)
    (answer : exn + o_ticker_lookup)
| EvLog (msg : log_msg).

Abbreviation M := (Eff.M event exn).

(** The collaborators, as they answer: each may raise, and each may answer
    differently as the run goes on (the uploads change the database the
    lookups read). *)
Class Collaborators : Type := {
  raises : list event → call → option exn;
  pull_tickers_from_db :
    list event → list string → bool → exn + ticker_lookup;
  generate_o_ticker_lookup :
    list event → list string → bool → bool → exn + o_ticker_lookup
}.

Section orchestrator.
Context `{Collaborators}.

Definition await (c : call) : M unit :=
  Eff.effect (EvCall c) (λ h, raises h c).

Definition await_pull_tickers_from_db (tickers : list string) (all_ : bool)
  : M ticker_lookup :=
  Eff.perform (EvPullTickersFromDb tickers all_)
    (λ h, pull_tickers_from_db h tickers all_).

Definition await_generate_o_ticker_lookup (tickers : list string)
    (all_ unexpired : bool) : M o_ticker_lookup :=
  Eff.perform (EvGenerateOTickerLookup tickers all_ unexpired)
    (λ h, generate_o_ticker_lookup h tickers all_ unexpired).

Definition log (msg : log_msg) : M unit := Eff.emit (EvLog msg).

(** [if not d: d = await fetch], for a variable that holds [None] or a
    [dict]: [not d] is true of [None] and of the empty [dict]. *)
Definition unless_truthy {A} (d : option (list A)) (fetch : M (list A))
  : M (list A) :=
  match d with
  | Some (x :: l) => Eff.ret (x :: l)
  | _ => fetch
  end.

(** [import_partial]. The two lookups are threaded from stage to stage as
    the local variables [ticker_lookup] and [o_tickers] of the source. *)
Definition import_partial (partial : list Z) (tickers : list string)
    (start_date end_date : datetime) (months_hist : Z) : M unit :=
  let all_ := bool_decide (length tickers = 0%nat) in
  let ticker_lookup : option ticker_lookup := None in
  let o_tickers : option o_ticker_lookup := None in
  (if bool_decide (1 ∈ partial) then
     await (download_stock_metadata tickers all_) ;;;
     await (upload_stock_metadata tickers all_)
   else Eff.ret tt) ;;;
  let! ticker_lookup :=
    if bool_decide (2 ∈ partial) then
      let! ticker_lookup := await_pull_tickers_from_db tickers all_ in
      await (download_stock_prices ticker_lookup start_date end_date) ;;;
      await (upload_stock_prices ticker_lookup) ;;;
      Eff.ret (Some ticker_lookup)
    else Eff.ret ticker_lookup in
  (if bool_decide (3 ∈ partial) then
     let! ticker_lookup :=
       unless_truthy ticker_lookup
         (await_pull_tickers_from_db tickers all_) in
     await (download_options_contracts ticker_lookup months_hist) ;;;
     await (upload_options_contracts ticker_lookup months_hist)
   else Eff.ret tt) ;;;
  let! o_tickers :=
    if bool_decide (4 ∈ partial) then
      let! o_tickers := await_generate_o_ticker_lookup tickers all_ false in
      await (download_options_prices (values o_tickers) months_hist) ;;;
      await (upload_options_prices o_tickers) ;;;
      Eff.ret (Some o_tickers)
    else Eff.ret o_tickers in
  let! o_tickers :=
    if bool_decide (5 ∈ partial) then
      let! o_tickers :=
        unless_truthy o_tickers
          (await_generate_o_ticker_lookup tickers all_ true) in
      await (download_options_snapshots (values o_tickers)) ;;;
      await (upload_options_snapshots o_tickers) ;;;
      Eff.ret (Some o_tickers)
    else Eff.ret o_tickers in
  if bool_decide (6 ∈ partial) then
    let! o_tickers :=
      unless_truthy o_tickers
        (await_generate_o_ticker_lookup tickers all_ false) in
    await (download_options_quotes (values o_tickers) months_hist) ;;;
    await (upload_options_quotes o_tickers)
  else Eff.ret tt.

(** [remove_tickers_from_universe], the same in
    [src/option_bot/data_pipeline/orchestrator.py] and in
    [src/option_bot/orchestrator.py]. *)
Definition remove_tickers_from_universe (tickers : list string) : M unit :=
  Eff.for_each tickers
    (λ ticker,
      log (deleting_ticker ticker) ;;;
      await (delete_stock_ticker ticker) ;;;
      log (successfully_deleted ticker)).

Section stages.
Context (partial : list Z) (tickers : list string)
  (start_date end_date : datetime) (months_hist : Z).

Let all_ : bool := bool_decide (length tickers = 0%nat).

(** The stages of [import_partial], one by one. *)
Definition stage_1 : M unit :=
  if bool_decide (1 ∈ partial) then
    await (download_stock_metadata tickers all_) ;;;
    await (upload_stock_metadata tickers all_)
  else Eff.ret tt.

Definition stage_2 : M (option ticker_lookup) :=
  if bool_decide (2 ∈ partial) then
    let! ticker_lookup := await_pull_tickers_from_db tickers all_ in
    await (download_stock_prices ticker_lookup start_date end_date) ;;;
    await (upload_stock_prices ticker_lookup) ;;;
    Eff.ret (Some ticker_lookup)
  else Eff.ret None.

Definition stage_3 (ticker_lookup : option ticker_lookup) : M unit :=
  if bool_decide (3 ∈ partial) then
    let! ticker_lookup :=
      unless_truthy ticker_lookup
        (await_pull_tickers_from_db tickers all_) in
    await (download_options_contracts ticker_lookup months_hist) ;;;
    await (upload_options_contracts ticker_lookup months_hist)
  else Eff.ret tt.

Definition stage_4 : M (option o_ticker_lookup) :=
  if bool_decide (4 ∈ partial) then
    let! o_tickers := await_generate_o_ticker_lookup tickers all_ false in
    await (download_options_prices (values o_tickers) months_hist) ;;;
    await (upload_options_prices o_tickers) ;;;
    Eff.ret (Some o_tickers)
  else Eff.ret None.

Definition stage_5 (o_tickers : option o_ticker_lookup)
  : M (option o_ticker_lookup) :=
  if bool_decide (5 ∈ partial) then
    let! o_tickers :=
      unless_truthy o_tickers
        (await_generate_o_ticker_lookup tickers all_ true) in
    await (download_options_snapshots (values o_tickers)) ;;;
    await (upload_options_snapshots o_tickers) ;;;
    Eff.ret (Some o_tickers)
  else Eff.ret o_tickers.

Definition stage_6 (o_tickers : option o_ticker_lookup) : M unit :=
  if bool_decide (6 ∈ partial) then
    let! o_tickers :=
      unless_truthy o_tickers
        (await_generate_o_ticker_lookup tickers all_ false) in
    await (download_options_quotes (values o_tickers) months_hist) ;;;
    await (upload_options_quotes o_tickers)
  else Eff.ret tt.

End stages.

End orchestrator.

(** The tickers whose deletion a trace calls, in order. *)
Definition deletions (t : list event) : list string :=
  omap (λ e, match e with
             | EvCall (delete_stock_ticker ticker) => Some ticker
             | _ => None
             end) t.

Definition is_o_ticker_lookup (e : event) : bool :=
  match e with
  | EvGenerateOTickerLookup _ _ _ _ => true
  | _ => false
  end.

Definition is_quote_download (e : event) : bool :=
  match e with
  | EvCall (download_options_quotes _ _) => true
  | _ => false
  end.

(** The three events of a deletion that returns. *)
Definition deleted (ticker : string) : list event :=
  [ EvLog (deleting_ticker ticker); EvCall (delete_stock_ticker ticker);
    EvLog (successfully_deleted ticker) ].

Section resolution.
Context (tickers : list string) (all_ : bool).

(** A trace in which every quote download is given the values of a lookup
    answered before it, and every lookup is made for [tickers] and comes
    after empty answers only. [seen] holds the answers so far. *)
Fixpoint well_resolved (seen : list o_ticker_lookup) (t : list event)
  : Prop :=
  match t with
  | [] => True
  | EvGenerateOTickerLookup tk a _ answer :: t =>
      tk = tickers ∧ a = all_ ∧ Forall (λ lk, lk = []) seen ∧
      well_resolved
        (match answer with inr lk => lk :: seen | inl _ => seen end) t
  | EvCall (download_options_quotes ots _) :: t =>
      (∃ lk, lk ∈ seen ∧ ots = values lk) ∧ well_resolved seen t
  | _ :: t => well_resolved seen t
  end.

Definition neutral (e : event) : Prop :=
  is_o_ticker_lookup e = false ∧ is_quote_download e = false.

End resolution.

(** A database in which the deletion of AAA fails. *)
Definition failing_deletion : Collaborators :=
  {| raises := λ _ c,
       match c with
       | delete_stock_ticker "AAA" => Some "OperationalError"
       | _ => None
       end;
     pull_tickers_from_db := λ _ _ _, inr [];
     generate_o_ticker_lookup := λ _ _ _ _, inr [] |}.

(** A database without option tickers, and one with a single one. *)
Definition empty_database : Collaborators :=
  {| raises := λ _ _, None;
     pull_tickers_from_db := λ _ _ _, inr [];
     generate_o_ticker_lookup := λ _ _ _ _, inr [] |}.

Definition demo_option : OptionTicker := mkOptionTicker "O:SPY" 1 0 "SPY".

Definition demo_database : Collaborators :=
  {| raises := λ _ _, None;
     pull_tickers_from_db := λ _ _ _, inr [("SPY", 7)];
     generate_o_ticker_lookup := λ _ _ _ _, inr [("O:SPY", demo_option)] |}.

End Orchestrator.

(** ** What a run of the paginator shows *)

Module PolygonObs.
Import Polygon.

(** A response after which [query_all] calls itself: a 200 that carries a
    cursor, or a 429. *)
Definition continues (x : response * Q) : bool :=
  ((status_code x.1 =? 200) && truthy (get x.1 "next_url")) ||
  (status_code x.1 =? 429).

(** How the call ends on a response after which it does not go on. *)
Definition ending (r : response) : completion :=
  if status_code r =? 200 then Returned
  else match raise_for_status r with
       | Some e => Raised e
       | None => Returned
       end.

(** The bodies of the responses with status 200, in order. *)
Definition bodies (w : world) : list json :=
  omap (λ x, if status_code x.1 =? 200 then Some (body x.1) else None) w.

(** No more than [limit] requests without a sleep in between, [n] requests
    having been sent since the last one. *)
Fixpoint burst_within (limit n : nat) (t : list event) : Prop :=
  match t with
  | [] => True
  | EvSleep _ :: t => burst_within limit 0 t
  | EvGet _ _ :: t => (n < limit)%nat ∧ burst_within limit (S n) t
  | _ :: t => burst_within limit n t
  end.

(** The parameters of the requests of a run, in order. *)
Definition params_sent (t : list event) : list (gmap string pyval) :=
  omap (λ e, match e with EvGet _ p => Some p | _ => None end) t.

End PolygonObs.

(** ** [src/curator/db_tools/utils.py] *)

Module DbUtils.

(** A [dict] with string keys, as its items in insertion order. *)
Abbreviation dict V := (list (string * V)).

(** [d[k] = v]: a key that is there keeps its place and gets the value. *)
Fixpoint dict_set {V} (d : dict V) (k : string) (v : V) : dict V :=
  match d with
  | [] => [(k, v)]
  | (k', v') :: d =>
      if decide (k' = k) then (k', v) :: d else (k', v') :: dict_set d k v
  end.

(** [d.get(k)]. *)
Fixpoint dict_get {V} (d : dict V) (k : string) : option V :=
  match d with
  | [] => None
  | (k', v) :: d => if decide (k' = k) then Some v else dict_get d k
  end.

(** [{key(x): value(x) for x in rows}]. *)
Definition dict_comprehension {A V} (key : A → string) (value : A → V)
    (rows : list A) : dict V :=
  foldl (λ d x, dict_set d (key x) (value x)) [] rows.

(** A row of [query_stock_tickers], by the two columns that are read:
    [x[0]], the id, and [x[1]], the ticker. *)
Abbreviation stock_row := (Z * string)%type.

(** A row of [query_options_tickers]: the four columns that
    [OptionTicker] is built from. *)
Abbreviation option_row := (string * Z * datetime * string)%type.

(** [OptionTicker] called on the columns of a row, of which there are
    four. *)
Definition OptionTicker_of (x : option_row) : OptionTicker :=
  let '(o_ticker, id, expiration_date, underlying_ticker) := x in
  mkOptionTicker o_ticker id expiration_date underlying_ticker.

Definition exn : Type := string.

Inductive event : Type :=
| EvQueryStockTickers (tickers : list string) (all_ : bool)
    (answer : exn + list stock_row)
| EvQueryOptionsTickers (stock_tickers : list string) (all_ unexpired : bool)
    (answer : exn + list option_row).

Abbreviation M := (Eff.M event exn).

(** The two queries of [db_tools.queries], as they answer. *)
Class Queries : Type := {
  query_stock_tickers :
    list event → list string → bool → exn + list stock_row;
  query_options_tickers :
    list event → list string → bool → bool → exn + list option_row
}.

Section utils.
Context `{Queries}.

(** [pull_tickers_from_db]. *)
Definition pull_tickers_from_db (tickers : list string) (all_ : bool)
  : M (dict Z) :=
  let! ticker_results :=
    Eff.perform (EvQueryStockTickers tickers all_)
      (λ h, query_stock_tickers h tickers all_) in
  let ticker_lookup := dict_comprehension snd fst ticker_results in
  Eff.ret ticker_lookup.

(** [generate_o_ticker_lookup]. *)
Definition generate_o_ticker_lookup (tickers : list string)
    (all_ unexpired : bool) : M (dict OptionTicker) :=
  let! o_tickers :=
    Eff.perform (EvQueryOptionsTickers tickers all_ unexpired)
      (λ h, query_options_tickers h tickers all_ unexpired) in
  Eff.ret (dict_comprehension (λ x, x.1.1.1) OptionTicker_of o_tickers).

End utils.

(** The keys of a list in the order in which they are first met. *)
Definition first_seen (keys : list string) : list string :=
  reverse (remove_dups (reverse keys)).

(** A database with a ticker listed twice and an option ticker listed
    twice. *)
Definition demo_queries : Queries :=
  {| query_stock_tickers := λ _ _ _,
       inr [(94, "AA"); (125, "AAWW"); (95, "AA")];
     query_options_tickers := λ _ _ _ _,
       inr [ ("O:A", 1, 10, "A"); ("O:B", 2, 20, "B");
             ("O:A", 3, 30, "A") ] |}.

End DbUtils.

(** ** The other downloads of [src/curator/data_pipeline/download.py] *)

Module Downloads.
Import Download.

Inductive log_msg : Type :=
| pulling_all_metadata
| pulling_metadata (tickers : list string).

Section downloads.
Context `{Imports}.

(** The paginator classes of [data_pipeline.polygon_utils] that the
    other downloads build, by their constructors, the type of the dates they
    are given, and the tickers and option tickers as the arguments of
    [generate_request_args]. *)
Class Paginators : Type := {
  Date : Type;
  StockMetaData : list string → bool → Paginator;
  HistoricalStockPrices : Date → Date → Paginator;
  OptionsContracts : list string → DbUtils.dict Z → Z → Paginator;
  HistoricalOptionsPrices : Z → Paginator;
  CurrentContractSnapshot : Paginator;
  ticker_arg : string → arg;
  option_ticker_arg : OptionTicker → arg
}.

(** The events of [api_pool_downloader], the log lines of
    [download_stock_metadata], and the query of [db_tools.queries]. *)
Inductive event : Type :=
| EvDownload (e : Download.event)
| EvLog (msg : log_msg)
| EvLookupMultiTickerIds (tickers : list string) (stock : bool)
    (answer : exn + list (string * Z)).

Abbreviation M := (Eff.M event exn).

Class Queries : Type := {
  lookup_multi_ticker_ids :
    list event → list string → bool → exn + list (string * Z)
}.

Context `{!Pools} `{!Paginators} `{!Queries}.

Definition downloads (t : list event) : list Download.event :=
  omap (λ e, match e with EvDownload e => Some e | _ => None end) t.

(** A call of [api_pool_downloader] from this module: its pool is
    answered from the events of [api_pool_downloader] so far. *)
Definition within {A} (m : Eff.M Download.event exn A) : M A :=
  λ h, let '(t, r) := m (downloads h) in (EvDownload <$> t, r).

Definition log (msg : log_msg) : M unit := Eff.emit (EvLog msg).

Definition InvalidArgs : exn := Exception "InvalidArgs".

(** [not x] for a list, a [dict] or [None]. *)
Definition falsy {A} (x : option (list A)) : bool :=
  match x with
  | Some (_ :: _) => false
  | _ => true
  end.

(** [download_stock_metadata]. *)
Definition download_stock_metadata (tickers : list string) (all_ : bool)
  : M unit :=
  (if all_ then log pulling_all_metadata
   else log (pulling_metadata tickers)) ;;;
  let meta := StockMetaData tickers all_ in
  let pool_kwargs : kwargs :=
    {[ "processes" := PyInt 1;
       "childconcurrency" := PyInt 1;
       "queuecount" := PyInt 1 ]} in
  within (api_pool_downloader meta None pool_kwargs None).

(** [download_stock_prices]. *)
Definition download_stock_prices (ticker_id_lookup : DbUtils.dict Z)
    (start_date end_date : Date) : M unit :=
  let tickers := ticker_id_lookup.*1 in
  let prices := HistoricalStockPrices start_date end_date in
  let pool_kwargs : kwargs :=
    {[ "childconcurrency" := PyInt 5;
       "processes" := PyInt 1;
       "queuecount" := PyInt 1 ]} in
  within
    (api_pool_downloader prices (Some (ticker_arg <$> tickers)) pool_kwargs
       None).

(** [download_options_contracts]. *)
Definition download_options_contracts (tickers : option (list string))
    (ticker_id_lookup : option (DbUtils.dict Z)) (months_hist : Z) : M unit :=
  let! given :=
    if falsy tickers && falsy ticker_id_lookup then Eff.raise InvalidArgs
    else if falsy tickers then
      let ticker_id_lookup := default [] ticker_id_lookup in
      Eff.ret (ticker_id_lookup.*1, ticker_id_lookup)
    else if falsy ticker_id_lookup then
      let tickers := default [] tickers in
      let! tickers_w_ids :=
        Eff.perform (EvLookupMultiTickerIds tickers true)
          (λ h, lookup_multi_ticker_ids h tickers true) in
      Eff.ret (tickers, DbUtils.dict_comprehension fst snd tickers_w_ids)
    else Eff.ret (default [] tickers, default [] ticker_id_lookup) in
  let tickers := given.1 in
  let ticker_id_lookup := given.2 in
  let options := OptionsContracts tickers ticker_id_lookup months_hist in
  within
    (api_pool_downloader options (Some (ticker_arg <$> tickers)) ∅ None).

(** [download_options_prices]. *)
Definition download_options_prices (o_tickers : list OptionTicker)
    (months_hist : Z) : M unit :=
  let pool_kwargs : kwargs :=
    {[ "childconcurrency" := PyInt 250;
       "maxtasksperchild" := PyInt 50000 ]} in
  let op_prices := HistoricalOptionsPrices months_hist in
  within
    (api_pool_downloader op_prices (Some (option_ticker_arg <$> o_tickers))
       pool_kwargs None).

(** [download_options_snapshots]. *)
Definition download_options_snapshots (o_tickers : list OptionTicker)
  : M unit :=
  let pool_kwargs : kwargs :=
    {[ "childconcurrency" := PyInt 250;
       "maxtasksperchild" := PyInt 50000 ]} in
  let op_snapshots := CurrentContractSnapshot in
  within
    (api_pool_downloader op_snapshots
       (Some (option_ticker_arg <$> o_tickers)) pool_kwargs None).

(** The four downloads that take no decision of their own. *)
Inductive download : Type :=
| stock_metadata (tickers : list string) (all_ : bool)
| stock_prices (ticker_id_lookup : DbUtils.dict Z) (start_date end_date : Date)
| options_prices (o_tickers : list OptionTicker) (months_hist : Z)
| options_snapshots (o_tickers : list OptionTicker).

Definition run (d : download) : M unit :=
  match d with
  | stock_metadata tickers all_ => download_stock_metadata tickers all_
  | stock_prices ticker_id_lookup start_date end_date =>
      download_stock_prices ticker_id_lookup start_date end_date
  | options_prices o_tickers months_hist =>
      download_options_prices o_tickers months_hist
  | options_snapshots o_tickers => download_options_snapshots o_tickers
  end.

Definition is_download (e : event) : Prop :=
  match e with
  | EvDownload _ => True
  | _ => False
  end.

(** A pool that is run on at least one request, with a client session on
    the base URL of Polygon among the keywords handed to
    [pool_kwarg_config]. *)
Definition session_pool (e : Download.event) : Prop :=
  ∃ kw paginator url_args,
    e = EvPool (pool_kwarg_config kw) paginator url_args ∧
    kw !! "init_client_session" = Some (PyBool true) ∧
    kw !! "session_base_url" = Some (PyStr POLYGON_BASE_URL) ∧
    url_args ≠ [].

End downloads.
End Downloads.

(** ** [import_all], and what a run of the orchestrator shows *)

Module OrchestratorObs.
Import Orchestrator.

Section import_all.
Context `{Collaborators}.

(** [import_all]. *)
Definition import_all (tickers : list string)
    (start_date end_date : datetime) (months_hist : Z) : M unit :=
  await (download_stock_metadata [] true) ;;;
  await (upload_stock_metadata [] true) ;;;
  let! ticker_lookup := await_pull_tickers_from_db tickers true in
  await (download_stock_prices ticker_lookup start_date end_date) ;;;
  await (upload_stock_prices ticker_lookup) ;;;
  await (download_options_contracts ticker_lookup months_hist) ;;;
  await (upload_options_contracts ticker_lookup months_hist) ;;;
  let! o_tickers := await_generate_o_ticker_lookup tickers true true in
  await (download_options_snapshots (values o_tickers)) ;;;
  await (upload_options_snapshots o_tickers) ;;;
  let! o_tickers := await_generate_o_ticker_lookup tickers true false in
  await (download_options_prices (values o_tickers) months_hist) ;;;
  await (upload_options_prices o_tickers) ;;;
  await (download_options_quotes (values o_tickers) months_hist).

(** The event [ev], met after the events [before], is where the exception
    [e] comes from. *)
Definition raised_by (before : list event) (ev : event) (e : exn) : Prop :=
  match ev with
  | EvCall c => raises before c = Some e
  | EvPullTickersFromDb _ _ answer => answer = inl e
  | EvGenerateOTickerLookup _ _ _ answer => answer = inl e
  | EvLog _ => False
  end.

(** Every event of [t], met after [h], returned. *)
Definition all_returned (h t : list event) : Prop :=
  ∀ pre ev post e, t = pre ++ ev :: post → ¬ raised_by (h ++ pre) ev e.

(** A run in which nothing is caught: it returns when every call
    returned, and it ends with the exception of its last call, the only one
    that raised, otherwise. *)
Definition uncaught {A} (h : list event) (r : list event * (exn + A))
  : Prop :=
  match r.2 with
  | inr _ => all_returned h r.1
  | inl e =>
      ∃ pre ev,
        r.1 = pre ++ [ev] ∧ raised_by (h ++ pre) ev e ∧ all_returned h pre
  end.

Definition propagates {A} (m : M A) : Prop := ∀ h, uncaught h (m h).

End import_all.

(** The answer of the last ticker lookup of a trace that returned, and of
    the last option-ticker lookup. *)
Definition latest_tickers (t : list event) : option ticker_lookup :=
  last (omap (λ e, match e with
                   | EvPullTickersFromDb _ _ (inr d) => Some d
                   | _ => None
                   end) t).

Definition latest_lookup (t : list event) : option o_ticker_lookup :=
  last (omap (λ e, match e with
                   | EvGenerateOTickerLookup _ _ _ (inr d) => Some d
                   | _ => None
                   end) t).

(** The call [c] is given the lookups [tl] and [ol], where it takes one:
    the ticker lookup, the option-ticker lookup, or the values of the
    latter. *)
Definition given (c : call) (tl : option ticker_lookup)
    (ol : option o_ticker_lookup) : Prop :=
  match c with
  | download_stock_prices d _ _ | upload_stock_prices d
  | download_options_contracts d _ | upload_options_contracts d _ =>
      tl = Some d
  | download_options_prices ots _ | download_options_snapshots ots
  | download_options_quotes ots _ => ∃ d, ol = Some d ∧ ots = values d
  | upload_options_prices d | upload_options_snapshots d
  | upload_options_quotes d => ol = Some d
  | _ => True
  end.

(** What [import_all] asks for, whatever [tickers] is: the metadata of
    all tickers, and lookups over the whole database. *)
Definition for_all_tickers (e : event) : Prop :=
  match e with
  | EvCall (download_stock_metadata tk a)
  | EvCall (upload_stock_metadata tk a) => tk = [] ∧ a = true
  | EvPullTickersFromDb _ a _ => a = true
  | EvGenerateOTickerLookup _ a _ _ => a = true
  | _ => True
  end.

Definition is_quote_upload (e : event) : bool :=
  match e with
  | EvCall (upload_options_quotes _) => true
  | _ => false
  end.

(** Whether the option-ticker lookup answered last in a trace was
    restricted to unexpired contracts. *)
Definition latest_unexpired (t : list event) : option bool :=
  last (omap (λ e, match e with
                   | EvGenerateOTickerLookup _ _ u (inr _) => Some u
                   | _ => None
                   end) t).

(** The stage of a call on option tickers: [true] for the snapshots,
    [false] for the prices and the quotes. *)
Definition snapshot_stage (c : call) : option bool :=
  match c with
  | download_options_snapshots _ | upload_options_snapshots _ => Some true
  | download_options_prices _ _ | upload_options_prices _
  | download_options_quotes _ _ | upload_options_quotes _ => Some false
  | _ => None
  end.

Abbreviation lookups := (option ticker_lookup * option o_ticker_lookup)%type.

(** The lookups answered last, after one more event. *)
Definition advance (s : lookups) (e : event) : lookups :=
  match e with
  | EvPullTickersFromDb _ _ (inr d) => (Some d, s.2)
  | EvGenerateOTickerLookup _ _ _ (inr d) => (s.1, Some d)
  | _ => s
  end.

(** A trace in which every call is given the lookups answered last, from
    the lookups [s] on. *)
Fixpoint fed (s : lookups) (t : list event) : Prop :=
  match t with
  | [] => True
  | e :: t =>
      match e with EvCall c => given c s.1 s.2 | _ => True end ∧
      fed (advance s e) t
  end.

(** The variable [v] of the source, when it holds a non-empty lookup,
    holds the one answered last. *)
Definition agrees {A} (v latest : option (list A)) : Prop :=
  match v with
  | Some (x :: l) => latest = Some (x :: l)
  | _ => True
  end.

(** A run from the lookups [s]: its calls are fed, and when it returns [a]
    with the lookups [s'], then [post a s']. *)
Definition fed_run {A} (s : lookups) (r : list event * (exn + A))
    (post : A → lookups → Prop) : Prop :=
  fed s r.1 ∧
  match r.2 with
  | inr a => post a (foldl advance s r.1)
  | inl _ => True
  end.

(** The unexpired flag of the lookup answered last, from [u] on, against
    the stage of each call. *)
Fixpoint staged (u : option bool) (t : list event) : Prop :=
  match t with
  | [] => True
  | EvGenerateOTickerLookup _ _ u' (inr _) :: t => staged (Some u') t
  | EvCall c :: t =>
      match snapshot_stage c with Some b => u = Some b | None => True end ∧
      staged u t
  | _ :: t => staged u t
  end.

Section unexpired.
Context (tickers : list string) (all_ : bool).

(** A trace in which every lookup of the unexpired option tickers comes
    after a lookup of all option tickers that was answered with the empty
    mapping. [seen] holds the events so far, the latest first. *)
Fixpoint after_empty (seen t : list event) : Prop :=
  match t with
  | [] => True
  | e :: t =>
      match e with
      | EvGenerateOTickerLookup _ _ true _ =>
          EvGenerateOTickerLookup tickers all_ false (inr []) ∈ seen
      | _ => True
      end ∧
      after_empty (e :: seen) t
  end.

End unexpired.

End OrchestratorObs.

(** ** [src/option_bot/orchestrator.py] *)

Module Legacy.

(** The values of the keywords of a pool. *)
Inductive value : Type :=
| VInt (n : Z)
| VBool (b : bool)
| VStr (s : string)
| VFunction (name : string).

Abbreviation kwargs := (gmap string value).

(** The exceptions, as far as the module tells them apart: the two it
    names, the one it raises, an instance of another class of
    [planned_exceptions], another [Exception], and what is not an
    [Exception] at all (a [KeyboardInterrupt], a cancellation). *)
Inductive exn : Type :=
| TypeError
| IndexError
| InvalidArgs
| Planned (class : string)
| OtherException (class : string)
| NotAnException (class : string).

(** [isinstance(e, planned_exceptions)] and [isinstance(e, Exception)]. *)
Definition planned (e : exn) : bool :=
  match e with
  | InvalidArgs | Planned _ => true
  | _ => false
  end.

Definition is_Exception (e : exn) : bool :=
  match e with
  | NotAnException _ => false
  | _ => true
  end.

(** What the module imports and [src/] does not hold: [cpu_count], the
    constants of [proj_constants], the paginator classes of
    [polygon_utils] (their objects, [paginator_type],
    [generate_request_args], the two constructors whose objects go to a
    pool), the dates and the batches of cleaned data. *)
Class Imports : Type := {
  cpu_count : Z;
  MAX_CONCURRENT_REQUESTS : Z;
  POLYGON_BASE_URL : string;
  Paginator : Type;
  request_args : Type;
  paginator_type : Paginator → string;
  generate_request_args : Paginator → list request_args;
  StockMetaData : list string → bool → Paginator;
  OptionsContracts : list string → DbUtils.dict Z → Z → Paginator;
  Date : Type;
  batch : Type
}.

Inductive log_msg : Type :=
| generating_urls
| fetching_data
| finished_downloading (paginator_type : string)
| fetching_all_metadata
| pulling_all_metadata
| pulling_metadata (tickers : list string)
| pulling_prices (ticker : string)
| successfully_imported (ticker : string)
| error (e : exn).

Section legacy.
Context `{Imports}.

(** The collaborators whose value is not used: a pool of
    [aiomultiprocess] made with the keywords and run on [download_data] and
    the requests, [fetch] on a paginator of prices built from the arguments
    given, and the updates of [db_tools.queries]. *)
Inductive call : Type :=
| pool_starmap (pool_kwargs : kwargs) (paginator : Paginator)
    (url_args : list request_args)
| stock_prices_fetch (ticker : string) (ticker_id : option Z)
    (start_date end_date : Date)
| update_stock_prices (b : batch)
| ticker_imported (ticker_id : option Z)
| options_prices_fetch (o_ticker : string) (o_ticker_id : Z)
    (expiration_date : Date) (month_hist : Z)
| update_options_prices (b : batch).

(** The queries are recorded with their answers. *)
Inductive event : Type :=
| EvLog (msg : log_msg)
| EvGenerateRequestArgs (paginator : Paginator)
| EvCall (c : call)
| EvLookupTickerId (ticker : string) (stock : bool) (answer : exn + option Z)
| EvLookupMultiTickerIds (tickers : list string) (stock : bool)
    (answer : exn + list (string * Z))
| EvQueryAllStockTickers (answer : exn + list DbUtils.stock_row).

Abbreviation M := (Eff.M event exn).

(** The collaborators, as they answer. [clean_data_generator] is the
    generator of a paginator of prices after its [fetch]: the batches it
    yields, and the exception it ends with if it does not run out. *)
Class Collaborators : Type := {
  raises : list event → call → option exn;
  lookup_ticker_id : list event → string → bool → exn + option Z;
  lookup_multi_ticker_ids :
    list event → list string → bool → exn + list (string * Z);
  query_all_stock_tickers : list event → exn + list DbUtils.stock_row;
  clean_data_generator : list event → list batch * option exn
}.
Context `{!Collaborators}.

Definition log (msg : log_msg) : M unit := Eff.emit (EvLog msg).

Definition await (c : call) : M unit :=
  Eff.effect (EvCall c) (λ h, raises h c).

(** [try: body] under the two handlers and the empty [finally] of
    [fetch_options_prices]. *)
Definition try_ {A} (body : M A) (handler : exn → M A) : M A :=
  λ h,
    match body h with
    | (t, inl e) => let '(t', r) := handler e (h ++ t) in (t ++ t', r)
    | (t, inr a) => (t, inr a)
    end.

(** [for batch in generator: body(batch)]: the body on every batch that is
    yielded, then the exception of the generator, if any. *)
Definition for_generated (generator : list batch * option exn)
    (body : batch → M unit) : M unit :=
  Eff.for_each generator.1 body ;;;
  match generator.2 with
  | Some e => Eff.raise e
  | None => Eff.ret tt
  end.

(** [CPUS], line 45. *)
Definition CPUS : Z := cpu_count - 2.

(** [int(a / b)] for two [int]: the quotient, cut towards zero. *)
Definition int_of_quotient (a b : Z) : Z := Z.quot a b.

(** [pool_default_kwargs]. It is built when the module is imported, which
    fails on the division when [CPUS] is 0. *)
Definition pool_default_kwargs : kwargs :=
  {[ "processes" := VInt CPUS;
     "exception_handler" := VFunction "capture_exception";
     "loop_initializer" := VFunction "uvloop.new_event_loop";
     "childconcurrency" :=
       VInt (int_of_quotient MAX_CONCURRENT_REQUESTS CPUS);
     "queuecount" := VInt (int_of_quotient CPUS 3);
     "init_client_session" := VBool true;
     "session_base_url" := VStr POLYGON_BASE_URL ]}.

(** [pool_kwarg_config]: a copy of the defaults, updated with [kwargs]. *)
Definition pool_kwarg_config (kwargs : gmap string value)
  : gmap string value :=
  kwargs ∪ pool_default_kwargs.

(** [api_pool_downloader]. *)
Definition api_pool_downloader (paginator : Paginator) (pool_kwargs : kwargs)
  : M unit :=
  log generating_urls ;;;
  Eff.emit (EvGenerateRequestArgs paginator) ;;;
  let url_args := generate_request_args paginator in
  log fetching_data ;;;
  let pool_kwargs := pool_kwarg_config pool_kwargs in
  await (pool_starmap pool_kwargs paginator url_args) ;;;
  log (finished_downloading (paginator_type paginator)).

(** [fetch_stock_metadata]. *)
Definition fetch_stock_metadata (tickers : list string) (all_ : bool)
  : M unit :=
  (if all_ then log pulling_all_metadata
   else log (pulling_metadata tickers)) ;;;
  let meta := StockMetaData tickers all_ in
  let pool_kwargs : kwargs :=
    {[ "processes" := VInt 1;
       "childconcurrency" := VInt 1;
       "queuecount" := VInt 1 ]} in
  api_pool_downloader meta pool_kwargs.

(** [import_all_ticker_metadata]: the lookup is a list with one [dict]
    of one entry for every row. *)
Definition import_all_ticker_metadata : M (list (DbUtils.dict Z)) :=
  log fetching_all_metadata ;;;
  fetch_stock_metadata ["all_"] true ;;;
  let! ticker_results :=
    Eff.perform EvQueryAllStockTickers query_all_stock_tickers in
  let ticker_lookup := map (λ x, [(x.2, x.1)]) ticker_results in
  Eff.ret ticker_lookup.

(** [not x] for a list, a [dict] or [None]. *)
Definition falsy {A} (x : option (list A)) : bool :=
  match x with
  | Some (_ :: _) => false
  | _ => true
  end.

(** [fetch_options_contracts]. *)
Definition fetch_options_contracts (tickers : option (list string))
    (ticker_id_lookup : option (DbUtils.dict Z)) (months_hist : Z) : M unit :=
  let! given :=
    if falsy tickers && falsy ticker_id_lookup then Eff.raise InvalidArgs
    else if falsy tickers then
      let ticker_id_lookup := default [] ticker_id_lookup in
      Eff.ret (ticker_id_lookup.*1, ticker_id_lookup)
    else if falsy ticker_id_lookup then
      let tickers := default [] tickers in
      let! tickers_w_ids :=
        Eff.perform (EvLookupMultiTickerIds tickers true)
          (λ h, lookup_multi_ticker_ids h tickers true) in
      Eff.ret (tickers, DbUtils.dict_comprehension fst snd tickers_w_ids)
    else Eff.ret (default [] tickers, default [] ticker_id_lookup) in
  let tickers := given.1 in
  let ticker_id_lookup := given.2 in
  let options := OptionsContracts tickers ticker_id_lookup months_hist in
  api_pool_downloader options ∅.

(** The first item of every [dict] of a list, as the comprehension of
    [main] reads them with [list(x.keys())[0]] and [list(x.values())[0]]:
    an [IndexError] at the first [dict] that is empty. *)
Fixpoint first_items (l : list (DbUtils.dict Z)) : exn + list (string * Z) :=
  match l with
  | [] => inr []
  | [] :: _ => inl IndexError
  | (kv :: _) :: l =>
      match first_items l with
      | inl e => inl e
      | inr items => inr (kv :: items)
      end
  end.

(** [main]. *)
Definition main : M unit :=
  let! ticker_lookup := import_all_ticker_metadata in
  let! ticker_lookup :=
    match first_items ticker_lookup with
    | inl e => Eff.raise e
    | inr items => Eff.ret (DbUtils.dict_comprehension fst snd items)
    end in
  fetch_options_contracts None (Some ticker_lookup) 24.

(** [if not ticker_id] for an [int] or [None]. *)
Definition no_id (ticker_id : option Z) : bool :=
  match ticker_id with
  | None | Some 0 => true
  | _ => false
  end.

(** [fetch_stock_prices]. *)
Definition fetch_stock_prices (ticker : string) (start_date end_date : Date)
    (ticker_id : option Z) : M unit :=
  let! ticker_id :=
    if no_id ticker_id then
      Eff.perform (EvLookupTickerId ticker true)
        (λ h, lookup_ticker_id h ticker true)
    else Eff.ret ticker_id in
  log (pulling_prices ticker) ;;;
  await (stock_prices_fetch ticker ticker_id start_date end_date) ;;;
  (λ h, for_generated (clean_data_generator h)
          (λ batch, await (update_stock_prices batch)) h) ;;;
  await (ticker_imported ticker_id) ;;;
  log (successfully_imported ticker).

(** The [try] block of [fetch_options_prices]. *)
Definition fetch_and_update_options_prices (o_ticker : string)
    (o_ticker_id : Z) (expiration_date : Date) (month_hist : Z) : M unit :=
  await
    (options_prices_fetch o_ticker o_ticker_id expiration_date month_hist) ;;;
  (λ h, for_generated (clean_data_generator h)
          (λ batch, await (update_options_prices batch)) h).

(** [fetch_options_prices]. *)
Definition fetch_options_prices (o_ticker : string) (o_ticker_id : Z)
    (expiration_date : Date) (month_hist : Z) : M unit :=
  try_
    (fetch_and_update_options_prices o_ticker o_ticker_id expiration_date
       month_hist)
    (λ e,
      if planned e then Eff.ret tt
      else if is_Exception e then log (error e)
      else Eff.raise e).

(** A call by keywords binds when every keyword names a parameter and
    every parameter is given or has a default; it is a [TypeError]
    otherwise, raised by the call itself, also of an [async] function. *)
Definition binds (parameters with_default keywords : list string) : bool :=
  forallb (λ k, bool_decide (k ∈ parameters)) keywords &&
  forallb (λ p, bool_decide (p ∈ keywords ∨ p ∈ with_default)) parameters.

Definition called (parameters with_default keywords : list string) : M unit :=
  if binds parameters with_default keywords then Eff.ret tt
  else Eff.raise TypeError.

(** [import_tickers_and_contracts_process]: the two calls of line 230 and
    line 231, by the parameters of the functions called (line 282 and
    lines 300-304) and the keywords given, and then [gathered], the run of
    the two coroutines under [asyncio.gather]. *)
Definition import_tickers_and_contracts_process (gathered : M unit)
  : M unit :=
  called ["ticker"; "start_date"; "end_date"; "ticker_id"] ["ticker_id"]
    ["ticker"; "ticker_id"; "start_date"; "end_date"] ;;;
  called ["tickers"; "ticker_id_lookup"; "months_hist"]
    ["tickers"; "ticker_id_lookup"; "months_hist"]
    ["ticker"; "ticker_id"; "months_hist"] ;;;
  gathered.

End legacy.

(** The pools run in a trace, and the batches uploaded, in order. *)
Definition pool_runs `{Imports} (t : list event) : list call :=
  omap (λ e, match e with
             | EvCall (pool_starmap kw p ua) => Some (pool_starmap kw p ua)
             | _ => None
             end) t.

Definition updates `{Imports} (t : list event) : list batch :=
  omap (λ e, match e with
             | EvCall (update_stock_prices b)
             | EvCall (update_options_prices b) => Some b
             | _ => None
             end) t.

Definition is_imported `{Imports} (e : event) : Prop :=
  match e with
  | EvCall (ticker_imported _) => True
  | _ => False
  end.

Definition is_stock_query `{Imports} (e : event) : Prop :=
  match e with
  | EvQueryAllStockTickers _ => True
  | _ => False
  end.

(** A machine with four processors, a database with a ticker listed
    twice, and a generator of two batches. *)
Definition demo_imports : Imports :=
  {| cpu_count := 4;
     MAX_CONCURRENT_REQUESTS := 100;
     POLYGON_BASE_URL := "https://api.polygon.io";
     Paginator := string;
     request_args := string;
     paginator_type := λ p, p;
     generate_request_args := λ _, [];
     StockMetaData := λ _ _, "StockMetaData";
     OptionsContracts := λ _ _ _, "OptionsContracts";
     Date := Z;
     batch := Z |}.

Definition demo_collaborators : @Collaborators demo_imports :=
  {| raises := λ _ _, None;
     lookup_ticker_id := λ _ _ _, inr (Some 7);
     lookup_multi_ticker_ids := λ _ _ _, inr [];
     query_all_stock_tickers := λ _,
       inr [(94, "AA"); (125, "AAWW"); (95, "AA")];
     clean_data_generator := λ _, ([1; 2] : list (@batch demo_imports), None) |}.

(** The same, with updates that fail as planned. *)
Definition demo_failing : @Collaborators demo_imports :=
  {| raises := λ _ c,
       match c with
       | update_options_prices _ => Some (Planned "ProjTimeoutError")
       | _ => None
       end;
     lookup_ticker_id := λ _ _ _, inr (Some 7);
     lookup_multi_ticker_ids := λ _ _ _, inr [];
     query_all_stock_tickers := λ _, inr [];
     clean_data_generator := λ _, ([1; 2] : list (@batch demo_imports), None) |}.

End Legacy.

(** * Properties *)

(** ** The paginator of [src/option_bot/polygon.py] *)

Module PolygonFacts.
Import Polygon.

(** [math.ceil] of [total_seconds], in integer arithmetic. *)
Lemma math_ceil_total_seconds (d : Z) :
  math_ceil (total_seconds d) = - ((- d) / 1000000).
Proof. reflexivity. Qed.

(** It is the least whole number of seconds that covers [d] microseconds. *)
Lemma math_ceil_total_seconds_bounds (d : Z) :
  1000000 * (math_ceil (total_seconds d) - 1) < d ≤
    1000000 * math_ceil (total_seconds d).
Proof.
  rewrite math_ceil_total_seconds.
  pose proof (Z.div_mod (- d) 1000000 ltac:(lia)) as Hdm.
  pose proof (Z.mod_pos_bound (- d) 1000000 ltac:(lia)) as Hb.
  lia.
Qed.

Section sleep_time.
Context `{Imports}.

Lemma api_sleep_time_short self :
  (length (query_time_log self) < 3)%nat → _api_sleep_time self = 60.
Proof.
  intros Hlen. unfold _api_sleep_time.
  destruct (Z.ltb_spec 2 (Z.of_nat (length (query_time_log self))));
    [lia|done].
Qed.

Lemma api_sleep_time_long self first final_ :
  (3 ≤ length (query_time_log self))%nat →
  head (query_time_log self) = Some first →
  last (query_time_log self) = Some final_ →
  _api_sleep_time self =
    Z.min 60 (math_ceil (total_seconds
      (timestamp_to_datetime (query_timestamp final_) -
       timestamp_to_datetime (query_timestamp first)))).
Proof.
  intros Hlen Hh Hl. unfold _api_sleep_time. rewrite Hh, Hl.
  destruct (Z.ltb_spec 2 (Z.of_nat (length (query_time_log self)))); [|lia].
  cbv zeta. case Z.ltb_spec; lia.
Qed.

(** C1. [_api_sleep_time] returns 60 when the request time log holds fewer
    than 3 entries. With 3 entries or more it returns the lesser of 60 and
    the ceiling, in seconds, of the time from the first logged request to
    the last one (the least [c] with [elapsed <= c] seconds); when the last
    entry is 5 seconds after the first it returns 5. *)
Theorem api_sleep_time_spec (self : PolygonPaginator) :
  ((length (query_time_log self) < 3)%nat → _api_sleep_time self = 60) ∧
  (∀ first final_,
     (3 ≤ length (query_time_log self))%nat →
     head (query_time_log self) = Some first →
     last (query_time_log self) = Some final_ →
     let elapsed :=
       timestamp_to_datetime (query_timestamp final_) -
       timestamp_to_datetime (query_timestamp first) in
     (∃ c, 1000000 * (c - 1) < elapsed ≤ 1000000 * c ∧
           _api_sleep_time self = Z.min 60 c) ∧
     (elapsed = 5000000 → _api_sleep_time self = 5)).
Proof.
  split; [apply api_sleep_time_short|].
  intros first final_ Hlen Hh Hl elapsed.
  rewrite (api_sleep_time_long self first final_ Hlen Hh Hl).
  fold elapsed. split.
  - exists (math_ceil (total_seconds elapsed)).
    split; [apply math_ceil_total_seconds_bounds|done].
  - intros ->. reflexivity.
Qed.

End sleep_time.

(** *** One call of [query_all], unfolded *)

Ltac split_branches :=
  repeat match goal with
  | |- context [if ?b then _ else _] => destruct b
  | |- context [match ?o with Some _ => _ | None => _ end] => destruct o
  | |- context [match ?s with EmptyString => _ | String _ _ => _ end] =>
      destruct s
  end.

Section query_all_facts.
Context `{Imports}.

Lemma query_all_nil url payload overload self :
  query_all [] url payload overload self =
    mkRun (throttle overload self).1
      ((throttle overload self).2 ++
         [EvLogQuery url (sent payload) overload; EvGet url (sent payload)])
      (Raised RequestException) [].
Proof. simpl. destruct (throttle overload self). reflexivity. Qed.

Lemma query_all_cons r now w url payload overload self :
  query_all ((r, now) :: w) url payload overload self =
    let self1 := record_request r now (throttle overload self).1 in
    let pre :=
      ((throttle overload self).2 ++
         [EvLogQuery url (sent payload) overload; EvGet url (sent payload)]) ++
      [EvLogStatus (status_code r)] in
    if status_code r =? 200 then
      match get r "next_url" with
      | Some (String _ _ as next_url) =>
          after pre (query_all w next_url ∅ false (append_result r self1))
      | _ => mkRun (append_result r self1) pre Returned w
      end
    else if status_code r =? 429 then
      after pre (query_all w url (sent payload) true self1)
    else
      match raise_for_status r with
      | Some e => mkRun self1 pre (Raised e) w
      | None => mkRun self1 pre Returned w
      end.
Proof. simpl. destruct (throttle overload self). reflexivity. Qed.

Lemma sent_sent payload : sent (sent payload) = sent payload.
Proof. unfold sent. apply insert_insert_eq. Qed.

Lemma throttle_cases overload self :
  ((MAX_QUERY_PER_MINUTE ≤ query_count self ∨ overload = true) ∧
   throttle overload self = (reset self, [EvSleep (_api_sleep_time self)])) ∨
  ((query_count self < MAX_QUERY_PER_MINUTE ∧ overload = false) ∧
   throttle overload self = (self, [])).
Proof.
  unfold throttle.
  destruct (Z.leb_spec MAX_QUERY_PER_MINUTE (query_count self)), overload;
    simpl; auto.
Qed.

Lemma throttle_overload self :
  throttle true self = (reset self, [EvSleep (_api_sleep_time self)]).
Proof. unfold throttle. by rewrite orb_true_r. Qed.

Lemma throttle_results overload self :
  results (throttle overload self).1 = results self.
Proof. unfold throttle. by destruct (_ || _). Qed.

Lemma fetches_app t1 t2 : fetches (t1 ++ t2) = fetches t1 ++ fetches t2.
Proof. apply omap_app. Qed.

Lemma exchanges_app t1 t2 :
  exchanges (t1 ++ t2) = exchanges t1 ++ exchanges t2.
Proof. apply omap_app. Qed.

Lemma fetches_throttle overload self :
  fetches (throttle overload self).2 = [].
Proof. unfold throttle. by destruct (_ || _). Qed.

Lemma exchanges_throttle overload self :
  exchanges (throttle overload self).2 = [].
Proof. unfold throttle. by destruct (_ || _). Qed.

(** Whatever the world answers, a call starts with the throttle, the log
    line and the request. *)
Lemma query_all_trace_head w url payload overload self :
  ∃ rest,
    trace (query_all w url payload overload self) =
      (throttle overload self).2 ++
      EvLogQuery url (sent payload) overload :: EvGet url (sent payload) :: rest.
Proof.
  destruct w as [|[r now] w].
  - rewrite query_all_nil. by exists [].
  - rewrite query_all_cons. cbv zeta.
    split_branches; simpl; rewrite <- ?app_assoc; simpl; eauto.
Qed.

(** *** The throttle *)

Lemma query_all_throttled w url payload overload self :
  MAX_QUERY_PER_MINUTE ≤ query_count self ∨ overload = true →
  let r := query_all w url payload overload self in
  let fresh := query_all w url payload false (reset self) in
  final r = final fresh ∧ outcome r = outcome fresh ∧
  unused r = unused fresh ∧ drop 3 (trace r) = drop 2 (trace fresh).
Proof.
  intros Hc r fresh.
  assert (Ht : throttle overload self =
            (reset self, [EvSleep (_api_sleep_time self)])).
  { destruct (throttle_cases overload self) as [[_ ?]|[[? ?] _]]; [done|].
    destruct Hc; [lia|congruence]. }
  assert (Hf : throttle false (reset self) = (reset self, [])) by done.
  subst r fresh. destruct w as [|[x now] w].
  - rewrite !query_all_nil, Ht, Hf. done.
  - rewrite !query_all_cons, Ht, Hf. cbv zeta. simpl fst. simpl snd.
    split_branches; done.
Qed.

(** C2. [query_all] sleeps before it issues its request exactly when the
    counter has reached [MAX_QUERY_PER_MINUTE] or the caller passes
    [overload]. When it sleeps, the sleep comes first and lasts
    [_api_sleep_time]; at the moment the request is sent (the run cut there,
    by a transport that raises) the counter is 0 and the log is empty; and
    the rest of the call goes as a call without overload on a paginator with
    counter 0 and an empty log. When it does not sleep, the request is sent
    on the paginator as it was. *)
Theorem throttle_before_request w url payload overload self :
  let r := query_all w url payload overload self in
  let must_sleep :=
    MAX_QUERY_PER_MINUTE ≤ query_count self ∨ overload = true in
  ((∃ s rest, trace r = EvSleep s :: rest) ↔ must_sleep) ∧
  (must_sleep →
     (∃ rest,
        trace r =
          EvSleep (_api_sleep_time self) ::
          EvLogQuery url (sent payload) overload ::
          EvGet url (sent payload) :: rest) ∧
     (let cut := query_all [] url payload overload self in
      outcome cut = Raised RequestException ∧
      query_count (final cut) = 0 ∧ query_time_log (final cut) = []) ∧
     (let fresh := query_all w url payload false (reset self) in
      final r = final fresh ∧ outcome r = outcome fresh ∧
      unused r = unused fresh ∧ drop 3 (trace r) = drop 2 (trace fresh))) ∧
  (¬ must_sleep →
     (∃ rest,
        trace r =
          EvLogQuery url (sent payload) overload ::
          EvGet url (sent payload) :: rest) ∧
     final (query_all [] url payload overload self) = self).
Proof.
  intros r must_sleep.
  destruct (query_all_trace_head w url payload overload self) as [rest Hrest].
  fold r in Hrest.
  destruct (throttle_cases overload self) as [[Hc Ht]|[[Hlt Hov] Ht]].
  - rewrite Ht in Hrest. simpl in Hrest. split; [|split].
    + split; [done|]. intros _. rewrite Hrest. eauto.
    + intros _. split; [eauto|]. split.
      * cbv zeta. rewrite query_all_nil, Ht. done.
      * by apply query_all_throttled.
    + intros Hn. by destruct Hn.
  - rewrite Ht in Hrest. simpl in Hrest.
    assert (Hn : ¬ must_sleep).
    { subst must_sleep. intros [?|?]; [lia|congruence]. }
    split; [|split].
    + split; [|done]. intros (s & rest' & Hs). congruence.
    + done.
    + intros _. split; [eauto|]. rewrite query_all_nil, Ht. done.
Qed.

(** *** Pagination *)

(** Following the cursors of [pages]: the run consumes them one by one and
    goes on with what is left of the world. *)
Lemma query_all_pages pages : ∀ cursors w url payload overload self,
  Forall2 carries_cursor pages cursors →
  ∃ pre url' payload' overload' self',
    query_all (pages ++ w) url payload overload self =
      after pre (query_all w url' payload' overload' self') ∧
    results self' = results self ++ map (λ x, body x.1) pages ∧
    url :: cursors = fetches pre ++ [url'] ∧
    exchanges pre = flat_map (λ u, [Sent u; Received 200]) (fetches pre).
Proof.
  induction pages as [|[r now] pages IH];
    intros cursors w url payload overload self Hp.
  - apply Forall2_nil_inv_l in Hp as ->.
    exists [], url, payload, overload, self. simpl.
    split; [by destruct (query_all _ _ _ _ _)|].
    rewrite app_nil_r. done.
  - apply Forall2_cons_inv_l in Hp
      as (c & cursors' & (Hs & Hn & Hc) & Hp & ->).
    simpl in Hs, Hn. simpl app. rewrite query_all_cons. cbv zeta.
    rewrite Hs, Hn. simpl (200 =? 200).
    destruct c as [|a s]; [done|].
    set (self1 := append_result r _).
    destruct (IH cursors' w (String a s) ∅ false self1 Hp)
      as (pre & url' & payload' & overload' & self' &
          Hrun & Hres & Hurls & Hex).
    eexists _, url', payload', overload', self'.
    rewrite Hrun. split; [unfold after; simpl; rewrite app_assoc; reflexivity|].
    split; [|split].
    + rewrite Hres. subst self1. simpl. rewrite throttle_results.
      by rewrite <- app_assoc.
    + rewrite !fetches_app, fetches_throttle. simpl.
      change (omap _ pre) with (fetches pre). by rewrite <- Hurls.
    + rewrite !exchanges_app, !fetches_app, exchanges_throttle,
        fetches_throttle.
      simpl. f_equal. f_equal. exact Hex.
Qed.


(** *** HTTP 429 *)

Lemma never_surfaces_429 w : ∀ url payload overload self,
  outcome (query_all w url payload overload self) ≠ Raised (HTTPError 429).
Proof.
  induction w as [|[r now] w IH]; intros url payload overload self.
  - rewrite query_all_nil. done.
  - rewrite query_all_cons. cbv zeta.
    destruct (Z.eqb_spec (status_code r) 200) as [E200|N200].
    + destruct (get r "next_url") as [[|a s]|]; simpl; done.
    + destruct (Z.eqb_spec (status_code r) 429) as [E429|N429].
      * simpl. apply IH.
      * unfold raise_for_status. destruct (_ && _); simpl; [congruence|done].
Qed.


(** *** The counter and the log *)

Lemma consistent_throttle overload self :
  consistent self → consistent (throttle overload self).1.
Proof. unfold throttle. by destruct (_ || _). Qed.

Lemma consistent_record_request r now self :
  consistent self → consistent (record_request r now self).
Proof.
  unfold consistent. simpl. intros ->. rewrite length_app. simpl. lia.
Qed.

Lemma consistent_query_all w : ∀ url payload overload self,
  consistent self → consistent (final (query_all w url payload overload self)).
Proof.
  induction w as [|[r now] w IH]; intros url payload overload self Hc.
  - rewrite query_all_nil. by apply consistent_throttle.
  - rewrite query_all_cons. cbv zeta.
    pose proof (consistent_record_request r now _
                  (consistent_throttle overload self Hc)) as Hc1.
    split_branches; simpl; try done; by apply IH.
Qed.

(** In a call that never sleeps, the counter and the log both grow by the
    number of answered requests. *)
Lemma no_sleep_counts w : ∀ url payload overload self,
  let r := query_all w url payload overload self in
  sleeps (trace r) = [] →
  query_count (final r) =
    query_count self + Z.of_nat (length (statuses (trace r))) ∧
  length (query_time_log (final r)) =
    (length (query_time_log self) + length (statuses (trace r)))%nat.
Proof.
  induction w as [|[x now] w IH]; intros url payload overload self r Hs;
    subst r.
  - rewrite query_all_nil in *. simpl in *.
    destruct (throttle_cases overload self) as [[_ Ht]|[_ Ht]];
      rewrite Ht in *; [done|]. simpl. lia.
  - rewrite query_all_cons in *. cbv zeta in *.
    destruct (throttle_cases overload self) as [[_ Ht]|[_ Ht]];
      rewrite Ht in *; simpl fst in *; simpl snd in *.
    { exfalso. revert Hs. split_branches; done. }
    revert Hs.
    split_branches; simpl; intros Hs; rewrite ?length_app; simpl; try lia.
    all: match goal with
         | |- context [query_all _ ?u ?p ?o ?s] =>
             destruct (IH u p o s Hs) as [-> ->]
         end; simpl; rewrite ?length_app; simpl; lia.
Qed.


End query_all_facts.

Lemma api_sleep_time_spec_witness :
  @_api_sleep_time demo_imports (mkPaginator 2 (take 2 demo_log) []) = 60 ∧
  @_api_sleep_time demo_imports (mkPaginator 3 demo_log []) = 5.
Proof.
  split.
  - apply (@api_sleep_time_spec demo_imports). simpl. lia.
  - eapply (@api_sleep_time_spec demo_imports (mkPaginator 3 demo_log []));
      [simpl; lia|reflexivity|reflexivity|reflexivity].
Defined.

Lemma throttle_before_request_witness :
  (∃ rest,
     trace (@query_all demo_imports demo_pages "u1" ∅ true __init__) =
       EvSleep 60 :: EvLogQuery "u1" (@sent demo_imports ∅) true ::
       EvGet "u1" (@sent demo_imports ∅) :: rest) ∧
  (∃ rest,
     trace (@query_all demo_imports demo_pages "u1" ∅ false __init__) =
       EvLogQuery "u1" (@sent demo_imports ∅) false ::
       EvGet "u1" (@sent demo_imports ∅) :: rest).
Proof.
  split.
  - apply (@throttle_before_request demo_imports demo_pages "u1" ∅ true
             __init__).
    right. reflexivity.
  - apply (@throttle_before_request demo_imports demo_pages "u1" ∅ false
             __init__).
    vm_compute. intros [Hc|Hc]; [apply Hc; reflexivity|discriminate Hc].
Defined.




End PolygonFacts.

(** ** The effect monad *)

Module EffFacts.
Import Eff.
Section facts.
Context {E X : Type}.
Implicit Types (h t : list E).

Lemma bind_run {A B} (m : M E X A) (k : A → M E X B) h :
  bind m k h =
    match (m h).2 with
    | inl x => ((m h).1, inl x)
    | inr a => ((m h).1 ++ (k a (h ++ (m h).1)).1, (k a (h ++ (m h).1)).2)
    end.
Proof.
  unfold bind. destruct (m h) as [t1 [x|a]]; simpl; [done|].
  by destruct (k a (h ++ t1)).
Qed.

(** When every run of the body shows exactly [g x] under the observation
    [f], a loop shows the [g] of the elements it started on: a prefix of
    them all, and all of them when it returns. *)
Lemma for_each_observed {A B} (f : E → option B) (g : A → B)
    (body : A → M E X unit) :
  (∀ x h, omap f (body x h).1 = [g x]) →
  ∀ l h,
    omap f (for_each l body h).1 `prefix_of` map g l ∧
    ((for_each l body h).2 = inr tt →
     omap f (for_each l body h).1 = map g l).
Proof.
  intros Hbody. induction l as [|x l IH]; intros h.
  - simpl. split; [apply prefix_nil|done].
  - simpl. rewrite bind_run. specialize (Hbody x h).
    destruct ((body x h).2) as [e|[]] eqn:Hres; simpl.
    + rewrite Hbody. split; [|done]. by apply prefix_cons, prefix_nil.
    + rewrite omap_app, Hbody. simpl.
      destruct (IH (h ++ (body x h).1)) as [Hpre Hall].
      split; [by apply prefix_cons|]. intros Hok. by rewrite Hall.
Qed.

(** The same for an observation the body only shows when it returns. *)
Lemma for_each_observed_ok {A B} (f : E → option B) (g : A → B)
    (body : A → M E X unit) l :
  (∀ x h, x ∈ l → (body x h).2 = inr tt → omap f (body x h).1 = [g x]) →
  ∀ h,
    (for_each l body h).2 = inr tt →
    omap f (for_each l body h).1 = map g l.
Proof.
  induction l as [|x l IH]; intros Hbody h; [done|].
  simpl. rewrite bind_run.
  destruct ((body x h).2) as [e|[]] eqn:Hres; simpl; [done|].
  intros Hok. rewrite omap_app, (Hbody x h), IH; auto.
  - intros y h' Hy. apply Hbody. by right.
  - by left.
Qed.

(** Every event of a loop is an event of some run of its body. *)
Lemma for_each_event {A} (body : A → M E X unit) e : ∀ l h,
  e ∈ (for_each l body h).1 → ∃ x h', x ∈ l ∧ e ∈ (body x h').1.
Proof.
  induction l as [|x l IH]; intros h; simpl; [by intros ?%elem_of_nil|].
  rewrite bind_run.
  destruct ((body x h).2) as [?|[]]; simpl.
  - intros He. exists x, h. split; [by left|done].
  - intros [He|He]%elem_of_app.
    + exists x, h. split; [by left|done].
    + destruct (IH _ He) as (y & h' & Hy & He'). exists y, h'.
      split; [by right|done].
Qed.
End facts.
End EffFacts.

(** ** Slicing a list in steps *)

Module PyFacts.

Section chunks.
Context {A : Type}.
Implicit Types (l : list A) (B n k : nat).
Open Scope nat_scope.

Lemma length_py_slice l i B :
  length (py_slice l i (i + B)) = B `min` (length l - i).
Proof.
  unfold py_slice. rewrite length_take, length_drop. f_equal. lia.
Qed.

Lemma py_range_count B n :
  0 < B →
  let c := (n - 0 + B - 1) / B in
  n ≤ c * B ∧ ∀ k, k < c → k * B < n.
Proof.
  intros HB c. subst c. replace (n - 0 + B - 1) with (n + B - 1) by lia.
  pose proof (Nat.div_mod_eq (n + B - 1) B) as Hdm.
  pose proof (Nat.mod_upper_bound (n + B - 1) B ltac:(lia)) as Hm.
  split; [nia|]. intros k Hk. nia.
Qed.

Lemma concat_slices_upto B : 0 < B → ∀ n l,
  length l ≤ n * B →
  concat (map (λ k, py_slice l (0 + k * B) (0 + k * B + B)) (seq 0 n)) = l.
Proof.
  intros HB. induction n as [|n IH]; intros l Hl.
  - destruct l; [done|simpl in Hl; lia].
  - cbn [seq map concat]. rewrite <- seq_shift, map_map.
    transitivity (take B l ++ drop B l); [|apply take_drop]. f_equal.
    + unfold py_slice. rewrite Nat.mul_0_l, drop_0. f_equal. lia.
    + etransitivity; [|apply (IH (drop B l)); rewrite length_drop; lia].
      f_equal. apply map_ext. intros k. unfold py_slice.
      rewrite drop_drop. repeat (f_equal; try lia).
Qed.

Lemma concat_slices B l : 0 < B → concat (slices B l) = l.
Proof.
  intros HB. unfold slices, py_range. rewrite map_map.
  apply concat_slices_upto; [done|]. by apply py_range_count.
Qed.

Lemma slices_lookup B l k c :
  slices B l !! k = Some c →
  c = py_slice l (k * B) (k * B + B) ∧
  k < length (slices B l) ∧
  length (slices B l) = (length l - 0 + B - 1) / B.
Proof.
  unfold slices, py_range. rewrite map_map.
  intros Hk. rewrite !length_map, length_seq.
  apply list_lookup_fmap_Some in Hk as (j & -> & Hj).
  apply lookup_seq in Hj as [-> Hj]. simpl. done.
Qed.

Lemma slices_sizes B l : 0 < B →
  Forall (λ c, 0 < length c ≤ B) (slices B l) ∧
  (∀ k c, slices B l !! k = Some c → S k < length (slices B l) →
          length c = B).
Proof.
  intros HB.
  pose proof (py_range_count B (length l) HB) as [Hup Hlow]. cbv zeta in *.
  split.
  - apply Forall_lookup. intros k c Hk.
    apply slices_lookup in Hk as (-> & Hlt & Hn). rewrite Hn in Hlt.
    rewrite length_py_slice. specialize (Hlow k Hlt). lia.
  - intros k c Hk Hlast.
    apply slices_lookup in Hk as (-> & Hlt & Hn). rewrite Hn in *.
    rewrite length_py_slice. specialize (Hlow (S k) Hlast). lia.
Qed.

Lemma slices_2500 l :
  length l = 2500 → map length (slices 1000 l) = [1000; 1000; 500].
Proof.
  intros Hl. unfold slices. rewrite Hl.
  change (py_range 0 2500 1000) with [0; 1000; 2000].
  cbn [map]. rewrite !length_py_slice, Hl. reflexivity.
Qed.
End chunks.

End PyFacts.

(** ** The downloads of [src/curator/data_pipeline/download.py] *)

Module DownloadFacts.
Import Download EffFacts PyFacts.

Section download_facts.
Context `{Imports} `{!Pools}.
Implicit Types (h : list event).

(** Run [api_quote_downloader] along each of its paths: the two
    [TypeError]s and the answer of the pool. *)
Ltac run_quote_downloader :=
  unfold dict_merge, Eff.effect, Eff.perform, Eff.emit, Eff.bind, Eff.ret,
    Eff.raise; simpl;
  repeat match goal with
  | |- context [bool_decide ?P] => destruct (bool_decide P); simpl
  | |- context [pool_raises ?h ?e] => destruct (pool_raises h e); simpl
  end.

Lemma api_quote_downloader_dispatched paginator args_data pool_kwargs h :
  dispatched (api_quote_downloader paginator args_data pool_kwargs h).1 =
    [args_data].
Proof.
  unfold api_quote_downloader, log.
  destruct (quote_generate_request_args paginator args_data)
    as [[|u url_args] mapping].
  - reflexivity.
  - run_quote_downloader; done.
Qed.

Lemma api_quote_downloader_pool_run paginator args_data pool_kwargs h :
  (api_quote_downloader paginator args_data pool_kwargs h).2 = inr tt →
  (quote_generate_request_args paginator args_data).1 ≠ [] →
  pool_runs (api_quote_downloader paginator args_data pool_kwargs h).1 =
    [EvQuotePool (pool_kwarg_config (pool_kwargs ∪ session_kwargs))
       (quote_generate_request_args paginator args_data).2 paginator
       (quote_generate_request_args paginator args_data).1].
Proof.
  unfold api_quote_downloader, log.
  destruct (quote_generate_request_args paginator args_data)
    as [[|u url_args] mapping]; [done|].
  run_quote_downloader; done.
Qed.

Lemma api_quote_downloader_events paginator args_data pool_kwargs h :
  Forall (quote_run_event paginator args_data)
    (api_quote_downloader paginator args_data pool_kwargs h).1.
Proof.
  unfold api_quote_downloader, log.
  destruct (quote_generate_request_args paginator args_data)
    as [[|u url_args] mapping] eqn:Hgen.
  - unfold Eff.emit, Eff.bind, Eff.ret. simpl. by repeat constructor.
  - run_quote_downloader; by repeat constructor.
Qed.

Lemma download_options_quotes_run ticker o_tickers months_hist h :
  let r := download_options_quotes ticker o_tickers months_hist h in
  let loop := quote_loop ticker o_tickers months_hist h in
  (r.2 = inr tt ↔ loop.2 = inr tt) ∧
  dispatched r.1 = dispatched loop.1 ∧
  pool_runs r.1 = pool_runs loop.1 ∧
  (∀ e, e ∈ r.1 → e ∈ loop.1 ∨ e = EvLog (completely_done ticker)).
Proof.
  intros r loop. subst r. unfold download_options_quotes.
  rewrite bind_run. fold (quote_loop ticker o_tickers months_hist).
  fold loop. destruct (loop.2) as [x|[]]; simpl.
  - split; [done|]. split; [done|]. split; [done|]. auto.
  - split; [done|]. unfold dispatched, pool_runs. rewrite !omap_app. simpl.
    rewrite !app_nil_r. split; [done|]. split; [done|].
    intros e [?|?%list_elem_of_singleton]%elem_of_app; auto.
Qed.

Lemma quote_loop_dispatched ticker o_tickers months_hist h :
  let loop := quote_loop ticker o_tickers months_hist h in
  let all := slices BATCH_SIZE_OTICKERS (batch_o_tickers ticker o_tickers) in
  dispatched loop.1 `prefix_of` all ∧
  (loop.2 = inr tt → dispatched loop.1 = all).
Proof.
  apply (for_each_observed
           (λ e, match e with
                 | EvQuoteGenerateRequestArgs _ args_data => Some args_data
                 | _ => None
                 end)
           (λ i, py_slice (batch_o_tickers ticker o_tickers) i
                   (i + BATCH_SIZE_OTICKERS))).
  intros i h'. rewrite bind_run. simpl. apply api_quote_downloader_dispatched.
Qed.

Lemma quote_loop_pool_runs ticker o_tickers months_hist h :
  (∀ p c, c ≠ [] → (quote_generate_request_args p c).1 ≠ []) →
  let loop := quote_loop ticker o_tickers months_hist h in
  loop.2 = inr tt →
  length (pool_runs loop.1) = length (dispatched loop.1).
Proof.
  intros Hgen loop Hok. subst loop.
  rewrite (proj2 (quote_loop_dispatched ticker o_tickers months_hist h) Hok).
  unfold quote_loop in *. cbv zeta in *.
  set (p := HistoricalQuotes _ _) in *.
  set (kw := ({[ _ := _ ; _ := _ ; _ := _ ]} : kwargs)) in *.
  set (batch := batch_o_tickers ticker o_tickers) in *.
  unfold pool_runs.
  erewrite (for_each_observed_ok _
    (λ i, let c := py_slice batch i (i + BATCH_SIZE_OTICKERS) in
          EvQuotePool (pool_kwarg_config (kw ∪ session_kwargs))
            (quote_generate_request_args p c).2 p
            (quote_generate_request_args p c).1)); [| |exact Hok].
  - unfold slices. by rewrite !length_map.
  - intros i h' Hi. rewrite bind_run. simpl. intros Hbody.
    apply (api_quote_downloader_pool_run p _ kw _ Hbody).
    apply Hgen.
    assert (Hs : py_slice batch i (i + BATCH_SIZE_OTICKERS)
                   ∈ slices BATCH_SIZE_OTICKERS batch).
    { unfold slices. apply list_elem_of_fmap. eauto. }
    destruct (slices_sizes BATCH_SIZE_OTICKERS batch) as [Hsz _];
      [unfold BATCH_SIZE_OTICKERS; lia|].
    rewrite Forall_forall in Hsz. specialize (Hsz _ Hs).
    intros Hnil. rewrite Hnil in Hsz. simpl in Hsz. lia.
Qed.


(** C8. When [generate_request_args] yields no request for the batch,
    [api_pool_downloader] returns normally, whatever the pool keywords are,
    and its run holds no pool run: it is the call of [generate_request_args]
    between two log lines (the second one only when a [batch_num] was
    given). *)
Theorem empty_batch_is_noop paginator args_data pool_kwargs batch_num h :
  generate_request_args paginator args_data = [] →
  let r := api_pool_downloader paginator args_data pool_kwargs batch_num h in
  r.2 = inr tt ∧
  pool_runs r.1 = [] ∧
  r.1 =
    [EvLog generating_urls; EvGenerateRequestArgs paginator args_data] ++
    match batch_num_given batch_num with
    | Some n => [EvLog (no_data_to_download (paginator_type paginator) n)]
    | None => []
    end.
Proof.
  intros Hgen r. subst r. unfold api_pool_downloader. rewrite Hgen.
  unfold log, Eff.emit, Eff.bind, Eff.ret. simpl.
  by destruct (batch_num_given batch_num).
Qed.

Lemma quote_loop_events ticker o_tickers months_hist h e :
  e ∈ (quote_loop ticker o_tickers months_hist h).1 →
  ∃ batch,
    batch ∈ slices BATCH_SIZE_OTICKERS (batch_o_tickers ticker o_tickers) ∧
    quote_run_event
      (HistoricalQuotes months_hist (id_by_o_ticker o_tickers)) batch e.
Proof.
  unfold quote_loop. cbv zeta. intros He.
  apply for_each_event in He as (i & h' & Hi & He).
  rewrite bind_run in He. simpl in He.
  eexists. split; [unfold slices; apply list_elem_of_fmap; eauto|].
  apply elem_of_cons in He as [->|He]; [done|].
  eapply Forall_forall in He; [exact He|].
  apply api_quote_downloader_events.
Qed.

Lemma slices_of_ticker ticker o_tickers batch x :
  batch ∈ slices BATCH_SIZE_OTICKERS (batch_o_tickers ticker o_tickers) →
  x ∈ batch →
  underlying_ticker x = ticker ∧ x ∈ o_tickers.
Proof.
  intros Hb Hx.
  assert (Hsel : x ∈ batch_o_tickers ticker o_tickers).
  { rewrite <- (concat_slices BATCH_SIZE_OTICKERS)
      by (unfold BATCH_SIZE_OTICKERS; lia).
    apply list_elem_of_In, in_concat. exists batch.
    by rewrite <- !list_elem_of_In. }
  unfold batch_o_tickers in Hsel. by apply list_elem_of_filter in Hsel.
Qed.

(** C9. [download_options_quotes] only dispatches option tickers of
    [o_tickers] whose [underlying_ticker] is [ticker]: an option ticker of
    another underlying is in none of the dispatched batches, every quote pool
    run gets the requests generated from a batch made of option tickers of
    [ticker] alone, and no other pool is run. *)
Theorem quotes_only_for_ticker ticker o_tickers months_hist h :
  let r := download_options_quotes ticker o_tickers months_hist h in
  (∀ batch x, batch ∈ dispatched r.1 → x ∈ batch →
     underlying_ticker x = ticker ∧ x ∈ o_tickers) ∧
  (∀ x batch, x ∈ o_tickers → underlying_ticker x ≠ ticker →
     batch ∈ dispatched r.1 → x ∉ batch) ∧
  (∀ kw m p url_args, EvQuotePool kw m p url_args ∈ r.1 →
     ∃ batch,
       quote_generate_request_args p batch = (url_args, m) ∧
       Forall (λ x, underlying_ticker x = ticker ∧ x ∈ o_tickers) batch) ∧
  (∀ kw p url_args, EvPool kw p url_args ∉ r.1).
Proof.
  intros r.
  destruct (download_options_quotes_run ticker o_tickers months_hist h)
    as (_ & Hd & _ & Hev).
  destruct (quote_loop_dispatched ticker o_tickers months_hist h)
    as [Hpre _].
  fold r in Hd, Hev. rewrite <- Hd in Hpre.
  assert (Hin : ∀ batch x, batch ∈ dispatched r.1 → x ∈ batch →
            underlying_ticker x = ticker ∧ x ∈ o_tickers).
  { intros batch x Hb. apply slices_of_ticker.
    destruct Hpre as [more ->]. apply elem_of_app. by left. }
  split; [done|]. split; [|split].
  - intros x batch _ Hne Hb Hx. by destruct (Hin batch x Hb Hx).
  - intros kw m p url_args He.
    destruct (Hev _ He) as [Hl|?]; [|done].
    apply quote_loop_events in Hl as (batch & Hb & [-> Hgen]).
    exists batch. split; [done|]. apply Forall_forall. intros x.
    by apply slices_of_ticker.
  - intros kw p url_args He.
    destruct (Hev _ He) as [Hl|?]; [|done].
    by apply quote_loop_events in Hl as (batch & Hb & ?).
Qed.
End download_facts.

Lemma demo_generates (p : @QuotePaginator demo_imports)
    (c : list OptionTicker) :
  c ≠ [] → (@quote_generate_request_args demo_imports p c).1 ≠ [].
Proof. destruct c; [done|]. intros _. simpl. discriminate. Qed.

Lemma demo_other_ticker :
  mkOptionTicker "O:QQQ" 2 0 "QQQ" ∈ demo_o_tickers ∧
  underlying_ticker (mkOptionTicker "O:QQQ" 2 0 "QQQ") ≠ "SPY".
Proof.
  split; [|discriminate].
  unfold demo_o_tickers. apply elem_of_app. right.
  apply list_elem_of_singleton. reflexivity.
Qed.


Lemma empty_batch_is_noop_witness :
  let r :=
    @api_pool_downloader demo_imports demo_pools "StockMetaData" (Some [])
      ∅ (Some 3) [] in
  r.2 = inr tt ∧ pool_runs r.1 = [].
Proof.
  destruct (@empty_batch_is_noop demo_imports demo_pools "StockMetaData"
              (Some []) ∅ (Some 3) []) as (Hr & Hp & _).
  - reflexivity.
  - split; [exact Hr|exact Hp].
Defined.

Lemma quotes_only_for_ticker_witness :
  let r :=
    @download_options_quotes demo_imports demo_pools "SPY" demo_o_tickers 24
      [] in
  Forall (λ batch, mkOptionTicker "O:QQQ" 2 0 "QQQ" ∉ batch)
    (dispatched r.1).
Proof.
  intros r. apply Forall_forall. intros batch.
  apply (@quotes_only_for_ticker demo_imports demo_pools "SPY"
           demo_o_tickers 24 []).
  - exact (proj1 demo_other_ticker).
  - exact (proj2 demo_other_ticker).
Defined.

End DownloadFacts.

(** ** The orchestrator of [src/option_bot/data_pipeline/orchestrator.py] *)

Module OrchestratorFacts.
Import Orchestrator EffFacts.

(** *** [remove_tickers_from_universe] *)

Section removal.
Context `{Collaborators}.

Lemma remove_one ticker h :
  let body :=
    (log (deleting_ticker ticker) ;;;
     await (delete_stock_ticker ticker) ;;;
     log (successfully_deleted ticker)) in
  match raises (h ++ [EvLog (deleting_ticker ticker)])
          (delete_stock_ticker ticker) with
  | Some e =>
      body h =
        ([EvLog (deleting_ticker ticker); EvCall (delete_stock_ticker ticker)],
         inl e)
  | None => body h = (deleted ticker, inr tt)
  end.
Proof.
  unfold log, await, Eff.emit, Eff.effect, Eff.bind. simpl.
  by destruct (raises _ _).
Qed.

Lemma remove_returns tickers : ∀ h,
  (remove_tickers_from_universe tickers h).2 = inr tt →
  (remove_tickers_from_universe tickers h).1 = flat_map deleted tickers.
Proof.
  induction tickers as [|t tickers IH]; intros h; [done|].
  unfold remove_tickers_from_universe in *. simpl. rewrite bind_run.
  pose proof (remove_one t h) as Hone. cbv zeta in Hone.
  destruct (raises _ _); rewrite Hone; simpl; [done|].
  intros Hok. by rewrite IH.
Qed.

Lemma remove_raises tickers e : ∀ h,
  (remove_tickers_from_universe tickers h).2 = inl e →
  ∃ done_ t rest,
    tickers = done_ ++ t :: rest ∧
    (remove_tickers_from_universe tickers h).1 =
      flat_map deleted done_ ++
      [EvLog (deleting_ticker t); EvCall (delete_stock_ticker t)] ∧
    raises (h ++ flat_map deleted done_ ++ [EvLog (deleting_ticker t)])
      (delete_stock_ticker t) = Some e.
Proof.
  induction tickers as [|t tickers IH]; intros h; [done|].
  unfold remove_tickers_from_universe in *. simpl. rewrite bind_run.
  pose proof (remove_one t h) as Hone. cbv zeta in Hone.
  destruct (raises _ _) as [e'|] eqn:Hr; rewrite Hone; simpl.
  - intros [= ->]. exists [], t, tickers. simpl. done.
  - intros Hfail. destruct (IH _ Hfail) as (d & t' & rest & -> & Ht & Hr').
    exists (t :: d), t', rest. simpl. rewrite Ht.
    split; [done|]. split; [done|].
    rewrite <- Hr'. f_equal. by rewrite <- !app_assoc.
Qed.

(** C7, as amended. [remove_tickers_from_universe] calls
    [delete_stock_ticker] on the tickers in the order given, one call per
    ticker, for as long as the deletions return, and logs each ticker as
    successfully deleted once its call has returned. It catches nothing:
    when the deletion of a ticker raises, that exception ends the run, right
    after that call, and no deletion is called for the tickers that follow. *)
Theorem removal_in_order tickers h :
  let r := remove_tickers_from_universe tickers h in
  deletions r.1 `prefix_of` tickers ∧
  (r.2 = inr tt → r.1 = flat_map deleted tickers ∧ deletions r.1 = tickers) ∧
  (∀ e, r.2 = inl e →
     ∃ done_ t rest,
       tickers = done_ ++ t :: rest ∧
       r.1 =
         flat_map deleted done_ ++
         [EvLog (deleting_ticker t); EvCall (delete_stock_ticker t)] ∧
       raises (h ++ flat_map deleted done_ ++ [EvLog (deleting_ticker t)])
         (delete_stock_ticker t) = Some e ∧
       deletions r.1 = done_ ++ [t]).
Proof.
  intros r.
  assert (Hdel : ∀ l, deletions (flat_map deleted l) = l).
  { induction l as [|x l IH]; [done|]. simpl. by rewrite IH. }
  assert (Hok : r.2 = inr tt →
            r.1 = flat_map deleted tickers ∧ deletions r.1 = tickers).
  { intros Hr. pose proof (remove_returns tickers h Hr) as Ht.
    fold r in Ht. by rewrite Ht, Hdel. }
  assert (Hfail : ∀ e, r.2 = inl e →
     ∃ done_ t rest,
       tickers = done_ ++ t :: rest ∧
       r.1 =
         flat_map deleted done_ ++
         [EvLog (deleting_ticker t); EvCall (delete_stock_ticker t)] ∧
       raises (h ++ flat_map deleted done_ ++ [EvLog (deleting_ticker t)])
         (delete_stock_ticker t) = Some e ∧
       deletions r.1 = done_ ++ [t]).
  { intros e Hr.
    destruct (remove_raises tickers e h Hr) as (d & t & rest & Ht & Htr & Hra).
    exists d, t, rest. fold r in Htr. rewrite Htr.
    repeat split; try done.
    unfold deletions. rewrite omap_app. fold (deletions (flat_map deleted d)).
    by rewrite Hdel. }
  split; [|split; [exact Hok|exact Hfail]].
  destruct (r.2) as [e|[]] eqn:Hr.
  - destruct (Hfail e eq_refl) as (d & t & rest & -> & _ & _ & ->).
    exists rest. by rewrite <- app_assoc.
  - by destruct (Hok eq_refl) as [_ ->].
Qed.
End removal.

(** C7, as stated, fails: the deletion of AAA raises, and BBB is never
    deleted. *)
Lemma removal_aborts_at_failure :
  let r := @remove_tickers_from_universe failing_deletion ["AAA"; "BBB"] [] in
  r.2 = inl "OperationalError" ∧
  r.1 = [EvLog (deleting_ticker "AAA"); EvCall (delete_stock_ticker "AAA")] ∧
  deletions r.1 ≠ ["AAA"; "BBB"].
Proof. vm_compute. repeat split. discriminate. Qed.

Lemma removal_in_order_witness :
  let r := @remove_tickers_from_universe failing_deletion ["BBB"; "CCC"] [] in
  r.1 = flat_map deleted ["BBB"; "CCC"] ∧ deletions r.1 = ["BBB"; "CCC"].
Proof.
  apply (@removal_in_order failing_deletion ["BBB"; "CCC"] []).
  reflexivity.
Defined.

(** *** [import_partial] *)

(** Where the only element of a list that satisfies [P] stands. *)
Lemma split_at_only {A} (P : A → Prop) (a b pre post : list A) (e e' : A) :
  Forall (λ x, ¬ P x) a → Forall (λ x, ¬ P x) b → P e → P e' →
  a ++ e :: b = pre ++ e' :: post →
  pre = a ∧ e' = e ∧ post = b.
Proof.
  intros Ha Hb He He'. revert pre.
  induction Ha as [|x a Hx Ha IH]; intros [|y pre] Heq; simplify_eq/=.
  - done.
  - apply Forall_app in Hb as [_ Hb]. by apply Forall_cons in Hb as [? _].
  - done.
  - destruct (IH pre) as (-> & -> & ->); done.
Qed.

Section scan.
Context (tickers : list string) (all_ : bool).

Local Abbreviation well_resolved := (well_resolved tickers all_).

Lemma well_resolved_neutral seen e t :
  neutral e → well_resolved seen (e :: t) ↔ well_resolved seen t.
Proof.
  intros [Hl Hq].
  destruct e as [[]| | |]; simpl in *; try done.
Qed.

Lemma well_resolved_app_neutral seen t1 t2 :
  Forall neutral t1 → well_resolved seen t2 → well_resolved seen (t1 ++ t2).
Proof.
  induction 1 as [|e t1 He _ IH]; [done|]. intros Ht2. simpl app.
  apply well_resolved_neutral; auto.
Qed.

Lemma well_resolved_nil_neutral seen t :
  Forall neutral t → well_resolved seen t.
Proof.
  intros Ht. rewrite <- (app_nil_r t). by apply well_resolved_app_neutral.
Qed.

Lemma well_resolved_quote seen pre ots m post :
  well_resolved seen (pre ++ EvCall (download_options_quotes ots m) :: post) →
  ∃ lk, ots = values lk ∧
    (lk ∈ seen ∨
     ∃ unexpired,
       EvGenerateOTickerLookup tickers all_ unexpired (inr lk) ∈ pre).
Proof.
  revert seen. induction pre as [|e pre IH]; intros seen; simpl.
  - intros [(lk & Hlk & Heq) _]. eauto.
  - assert (Hstep : well_resolved seen
                      (pre ++ EvCall (download_options_quotes ots m) :: post) →
      ∃ lk, ots = values lk ∧
        (lk ∈ seen ∨
         ∃ unexpired,
           EvGenerateOTickerLookup tickers all_ unexpired (inr lk)
             ∈ e :: pre)).
    { intros Hw. destruct (IH _ Hw) as (lk & -> & [?|[u' ?]]);
        exists lk; (split; [done|]); [by left|right; exists u'; by right]. }
    destruct e as [[]|tk a ans|tk a u ans|msg]; simpl; try exact Hstep.
    + intros [_ Hw]. by apply Hstep.
    + intros (-> & -> & _ & Hw).
      destruct (IH _ Hw) as (lk & -> & [Hin|[u' ?]]);
        exists lk; (split; [done|]).
      * destruct ans as [e|lk']; [by left|].
        apply elem_of_cons in Hin as [->|?]; [|by left].
        right. exists u. by left.
      * right. exists u'. by right.
Qed.

Lemma well_resolved_no_requery seen t :
  well_resolved seen t → ¬ Forall (λ lk, lk = []) seen →
  Forall (λ e, is_o_ticker_lookup e = false) t.
Proof.
  revert seen. induction t as [|e t IH]; intros seen; [done|].
  destruct e as [[]|tk a ans|tk a u ans|msg]; simpl;
    try (intros Hw Hs; constructor; [done|by eapply IH]).
  - intros [_ Hw] Hs. constructor; [done|by eapply IH].
  - intros (_ & _ & Hempty & _) Hs. done.
Qed.

Lemma well_resolved_memo seen pre tk a u x l post :
  well_resolved seen
    (pre ++ EvGenerateOTickerLookup tk a u (inr (x :: l)) :: post) →
  Forall (λ e, is_o_ticker_lookup e = false) post.
Proof.
  revert seen. induction pre as [|e pre IH]; intros seen; simpl.
  - intros (_ & _ & _ & Hw). apply (well_resolved_no_requery _ _ Hw).
    intros Hall. by apply Forall_cons in Hall as [? _].
  - destruct e as [[]|tk' a' ans|tk' a' u' ans|msg]; simpl; try apply IH.
    + intros [_ Hw]. by eapply IH.
    + intros (_ & _ & _ & Hw). by eapply IH.
Qed.
End scan.

Section stages.
Context `{Collaborators}.
Context (partial : list Z) (tickers : list string)
  (start_date end_date : datetime) (months_hist : Z).

Let all_ : bool := bool_decide (length tickers = 0%nat).

Local Abbreviation stage_1 := (stage_1 partial tickers).
Local Abbreviation stage_2 := (stage_2 partial tickers start_date end_date).
Local Abbreviation stage_3 := (stage_3 partial tickers months_hist).
Local Abbreviation stage_4 := (stage_4 partial tickers months_hist).
Local Abbreviation stage_5 := (stage_5 partial tickers).
Local Abbreviation stage_6 := (stage_6 partial tickers months_hist).

Lemma import_partial_stages :
  import_partial partial tickers start_date end_date months_hist =
    (stage_1 ;;;
     let! ticker_lookup := stage_2 in
     stage_3 ticker_lookup ;;;
     let! o_tickers := stage_4 in
     let! o_tickers := stage_5 o_tickers in
     stage_6 o_tickers).
Proof. reflexivity. Qed.

Ltac run_stage :=
  unfold await, await_pull_tickers_from_db, await_generate_o_ticker_lookup,
    unless_truthy, Eff.effect, Eff.perform, Eff.emit, Eff.bind, Eff.ret,
    Eff.raise;
  simpl;
  repeat match goal with
  | |- context [bool_decide ?P] => destruct (bool_decide P); simpl
  | |- context [raises ?h ?c] => destruct (raises h c); simpl
  | |- context [pull_tickers_from_db ?h ?t ?a] =>
      destruct (pull_tickers_from_db h t a) as [?|[|? ?]]; simpl
  | |- context [generate_o_ticker_lookup ?h ?t ?a ?u] =>
      destruct (generate_o_ticker_lookup h t a u) as [?|[|? ?]]; simpl
  end.

Lemma stage_1_neutral h : Forall neutral (stage_1 h).1.
Proof. unfold stage_1. run_stage; by repeat constructor. Qed.

Lemma stage_2_neutral h : Forall neutral (stage_2 h).1.
Proof. unfold stage_2. run_stage; by repeat constructor. Qed.

Lemma stage_3_neutral o h : Forall neutral (stage_3 o h).1.
Proof.
  unfold stage_3. destruct o as [[|? ?]|]; run_stage; by repeat constructor.
Qed.

Lemma stages_456_resolved h :
  well_resolved tickers all_ []
    ((let! o_tickers := stage_4 in
      let! o_tickers := stage_5 o_tickers in
      stage_6 o_tickers) h).1.
Proof.
  unfold stage_4, stage_5, stage_6. fold all_. run_stage.
  all: repeat split; eauto using Forall_nil, Forall_cons.
  all: eexists; split; [apply list_elem_of_here|reflexivity].
Qed.

Lemma import_partial_resolved h :
  well_resolved tickers all_ []
    (import_partial partial tickers start_date end_date months_hist h).1.
Proof.
  rewrite import_partial_stages. rewrite bind_run.
  pose proof (stage_1_neutral h) as H1.
  destruct ((stage_1 h).2) as [e|[]]; simpl;
    [by apply well_resolved_nil_neutral|].
  apply well_resolved_app_neutral; [done|].
  rewrite bind_run.
  pose proof (stage_2_neutral (h ++ (stage_1 h).1)) as H2.
  destruct ((stage_2 _).2) as [e|tl]; simpl;
    [by apply well_resolved_nil_neutral|].
  apply well_resolved_app_neutral; [done|].
  rewrite bind_run.
  match goal with
  | |- context [stage_3 tl ?h3] => pose proof (stage_3_neutral tl h3) as H3
  end.
  destruct ((stage_3 tl _).2) as [e|[]]; simpl;
    [by apply well_resolved_nil_neutral|].
  apply well_resolved_app_neutral; [done|].
  apply stages_456_resolved.
Qed.

(** Without the stages 4 and 5 the run is neutral events and then the
    quotes stage, entered with no lookup. *)
Lemma import_partial_unresolved h :
  4 ∉ partial → 5 ∉ partial →
  ∃ t123 h',
    Forall neutral t123 ∧
    ((import_partial partial tickers start_date end_date months_hist h).1 =
       t123 ∨
     (import_partial partial tickers start_date end_date months_hist h).1 =
       t123 ++ (stage_6 None h').1).
Proof.
  intros H4 H5. rewrite import_partial_stages. rewrite bind_run.
  pose proof (stage_1_neutral h) as H1.
  set (t1 := (stage_1 h).1) in *.
  destruct ((stage_1 h).2) as [e|[]]; simpl.
  { exists t1, h. split; [done|]. by left. }
  rewrite bind_run.
  pose proof (stage_2_neutral (h ++ t1))
    as H2.
  set (t2 := (stage_2 (h ++ t1)).1) in *.
  destruct ((stage_2 _).2) as [e|tl]; simpl.
  { exists (t1 ++ t2), h. split; [by rewrite Forall_app|]. by left. }
  rewrite bind_run.
  pose proof (stage_3_neutral tl ((h ++ t1) ++ t2)) as H3.
  set (t3 := (stage_3 tl ((h ++ t1) ++ t2)).1)
    in *.
  assert (H123 : Forall neutral (t1 ++ t2 ++ t3))
    by (rewrite !Forall_app; done).
  destruct ((stage_3 tl _).2) as [e|[]]; simpl.
  { exists (t1 ++ t2 ++ t3), h. split; [done|]. by left. }
  unfold stage_4, stage_5.
  rewrite (bool_decide_eq_false_2 _ H4), (bool_decide_eq_false_2 _ H5).
  rewrite bind_run. simpl. rewrite bind_run. simpl.
  exists (t1 ++ t2 ++ t3), (((((h ++ t1) ++ t2) ++ t3) ++ []) ++ []).
  split; [done|]. right. by rewrite !app_assoc.
Qed.

Lemma neutral_not_quote t :
  Forall neutral t → Forall (λ e, ¬ is_quote_download e = true) t.
Proof.
  intros Ht. eapply Forall_impl; [exact Ht|]. intros e [_ He]. by rewrite He.
Qed.

Lemma stage_6_unresolved h :
  Forall (λ e, ¬ is_quote_download e = true)
    (stage_6 None h).1 ∨
  ∃ lookup rest,
    (stage_6 None h).1 =
      [ EvGenerateOTickerLookup tickers all_ false (inr lookup);
        EvCall (download_options_quotes (values lookup) months_hist) ] ++
      rest ∧
    Forall (λ e, ¬ is_quote_download e = true) rest.
Proof.
  unfold stage_6, await, await_generate_o_ticker_lookup, unless_truthy,
    Eff.effect, Eff.perform, Eff.bind, Eff.ret. fold all_. simpl.
  destruct (bool_decide (6 ∈ partial)); simpl; [|by left].
  destruct (generate_o_ticker_lookup h tickers all_ false) as [e|lookup];
    simpl; [left; by repeat constructor|].
  right. exists lookup.
  repeat match goal with
  | |- context [raises ?h ?c] => destruct (raises h c); simpl
  end; eexists; (split; [reflexivity|by repeat constructor]).
Qed.

Lemma quote_follows_its_lookup h :
  4 ∉ partial → 5 ∉ partial →
  ∀ pre ots m post,
    (import_partial partial tickers start_date end_date months_hist h).1 =
      pre ++ EvCall (download_options_quotes ots m) :: post →
    ∃ pre' lookup,
      pre = pre' ++ [EvGenerateOTickerLookup tickers all_ false (inr lookup)] ∧
      ots = values lookup ∧ m = months_hist.
Proof.
  intros H4 H5 pre ots m post Hr.
  assert (Hnone : ∀ t, Forall (λ e, ¬ is_quote_download e = true) t →
            t ≠ pre ++ EvCall (download_options_quotes ots m) :: post).
  { intros t Ht ->. apply Forall_app in Ht as [_ Ht].
    apply Forall_cons in Ht as [Hq _]. by apply Hq. }
  destruct (import_partial_unresolved h H4 H5) as (t123 & h' & Hn & [Ht|Ht]).
  { rewrite Ht in Hr. apply Hnone in Hr; [done|by apply neutral_not_quote]. }
  rewrite Ht in Hr. apply neutral_not_quote in Hn.
  destruct (stage_6_unresolved h') as [H6|(lookup & rest & H6 & Hrest)].
  { apply Hnone in Hr; [done|by apply Forall_app]. }
  rewrite H6 in Hr. clear Ht H6.
  replace (t123 ++
           [ EvGenerateOTickerLookup tickers all_ false (inr lookup);
             EvCall (download_options_quotes (values lookup) months_hist) ] ++
           rest)
    with ((t123 ++
           [EvGenerateOTickerLookup tickers all_ false (inr lookup)]) ++
          EvCall (download_options_quotes (values lookup) months_hist) ::
          rest) in Hr by (by rewrite <- app_assoc).
  apply (split_at_only (λ e, is_quote_download e = true)) in Hr
    as (-> & Heq & _); try done.
  - simplify_eq. eauto.
  - apply Forall_app. split; [done|]. by repeat constructor.
Qed.

(** The run that selects the quotes and nothing else. *)
Lemma import_partial_quotes_only h :
  6 ∈ partial → (∀ k, k ∈ partial → k = 6) →
  let r :=
    import_partial partial tickers start_date end_date months_hist h in
  let answer := generate_o_ticker_lookup h tickers all_ false in
  ∃ rest,
    r.1 = EvGenerateOTickerLookup tickers all_ false answer :: rest ∧
    match answer with
    | inr lookup =>
        ∃ rest',
          rest =
            EvCall (download_options_quotes (values lookup) months_hist) ::
            rest'
    | inl e => rest = [] ∧ r.2 = inl e
    end.
Proof.
  intros H6 Honly r answer. subst r answer.
  assert (Hno : ∀ k, k ≠ 6 → bool_decide (k ∈ partial) = false).
  { intros k Hk. apply bool_decide_eq_false. intros Hin.
    by apply Honly in Hin. }
  unfold import_partial. fold all_.
  rewrite !Hno by done. rewrite (bool_decide_eq_true_2 _ H6).
  unfold await, await_generate_o_ticker_lookup, unless_truthy, Eff.effect,
    Eff.perform, Eff.emit, Eff.bind, Eff.ret. simpl.
  rewrite !app_nil_r.
  destruct (generate_o_ticker_lookup h tickers all_ false) as [e|lookup];
    simpl; [by eexists|].
  repeat match goal with
  | |- context [raises ?h ?c] => destruct (raises h c); simpl
  end; (eexists; split; [reflexivity|]; by eexists).
Qed.
End stages.




End OrchestratorFacts.

(** ** More on computations *)

Module EffMoreFacts.
Import Eff.
Section facts.
Context {E X : Type}.
Implicit Types (h : list E).

Lemma bind_ret {A B} (a : A) (k : A → M E X B) h :
  bind (ret a) k h = k a (h ++ []).
Proof. unfold bind, ret. simpl. by destruct (k a (h ++ [])). Qed.

Lemma bind_perform {A B} (call_ : X + A → E) answer (k : A → M E X B) h :
  bind (perform call_ answer) k h =
    match answer h with
    | inl x => ([call_ (inl x)], inl x)
    | inr a =>
        (call_ (inr a) :: (k a (h ++ [call_ (inr a)])).1,
         (k a (h ++ [call_ (inr a)])).2)
    end.
Proof.
  unfold bind, perform. destruct (answer h) as [x|a]; [done|].
  by destruct (k a _).
Qed.

End facts.
End EffMoreFacts.

(** ** More on the paginator *)

Module PolygonMoreFacts.
Import Polygon PolygonFacts PolygonObs.

Section more.
Context `{Imports}.

Lemma statuses_app t1 t2 : statuses (t1 ++ t2) = statuses t1 ++ statuses t2.
Proof. apply omap_app. Qed.

Lemma statuses_throttle overload self : statuses (throttle overload self).2 = [].
Proof. unfold throttle. by destruct (_ || _). Qed.

Lemma bodies_app w1 w2 : bodies (w1 ++ w2) = bodies w1 ++ bodies w2.
Proof. apply omap_app. Qed.

(** One step on a response after which the call goes on. *)
Lemma query_all_continues x w url payload overload self :
  continues x = true →
  ∃ pre url' payload' overload',
    query_all (x :: w) url payload overload self =
      after pre
        (query_all w url' payload' overload'
           (mkPaginator
              (query_count (throttle overload self).1 + 1)
              (query_time_log (throttle overload self).1 ++
                 [mkEntry (get x.1 "request_id") x.2])
              (results self ++ bodies [x]))) ∧
    statuses pre = [status_code x.1] ∧
    length (fetches pre) = 1%nat.
Proof.
  destruct x as [r now]. unfold continues, bodies. cbn [fst snd omap list_omap].
  intros Hc.
  pose proof (query_all_cons r now w url payload overload self) as Hq.
  cbv zeta in Hq.
  destruct (Z.eqb_spec (status_code r) 200) as [E|N]; simpl in Hc.
  - destruct (get r "next_url") as [[|a s]|] eqn:Hn; simpl in Hc;
      try (rewrite E in Hc; discriminate Hc).
    eexists _, _, _, _. split; [|split].
    + rewrite Hq. unfold append_result, record_request. simpl.
      rewrite throttle_results. reflexivity.
    + rewrite !statuses_app, statuses_throttle. reflexivity.
    + rewrite !fetches_app, fetches_throttle. reflexivity.
  - destruct (Z.eqb_spec (status_code r) 429) as [E|N']; [|discriminate Hc].
    eexists _, _, _, _. split; [|split].
    + rewrite Hq. unfold record_request. simpl.
      rewrite throttle_results, app_nil_r. reflexivity.
    + rewrite !statuses_app, statuses_throttle. reflexivity.
    + rewrite !fetches_app, fetches_throttle. reflexivity.
Qed.

(** Following the responses after which the call goes on. *)
Lemma query_all_prefix pre : ∀ w url payload overload self,
  Forall (λ x, continues x = true) pre →
  ∃ tr url' payload' overload' self',
    query_all (pre ++ w) url payload overload self =
      after tr (query_all w url' payload' overload' self') ∧
    statuses tr = map (λ x, status_code x.1) pre ∧
    length (fetches tr) = length pre ∧
    results self' = results self ++ bodies pre.
Proof.
  induction pre as [|x pre IH]; intros w url payload overload self Hpre.
  - exists [], url, payload, overload, self. simpl.
    split; [by destruct (query_all _ _ _ _ _)|].
    by rewrite app_nil_r.
  - apply Forall_cons in Hpre as [Hx Hpre].
    destruct (query_all_continues x (pre ++ w) url payload overload self Hx)
      as (tr1 & url1 & payload1 & overload1 & Hq & Hs & Hf).
    match type of Hq with
    | _ = after _ (query_all _ _ _ _ ?s1) =>
        destruct (IH w url1 payload1 overload1 s1 Hpre)
          as (tr & url' & payload' & overload' & self' & Hq' & Hs' & Hf' & Hr)
    end.
    exists (tr1 ++ tr), url', payload', overload', self'.
    split; [|split; [|split]].
    + change ((x :: pre) ++ w) with (x :: pre ++ w). rewrite Hq, Hq'.
      unfold after. simpl. by rewrite app_assoc.
    + rewrite statuses_app, Hs, Hs'. reflexivity.
    + rewrite fetches_app, length_app, Hf, Hf'. reflexivity.
    + rewrite Hr. cbn [results]. change (x :: pre) with ([x] ++ pre).
      by rewrite bodies_app, app_assoc.
Qed.

(** The response on which the call ends. *)
Lemma query_all_ends x rest url payload overload self :
  continues x = false →
  let r := query_all (x :: rest) url payload overload self in
  outcome r = ending x.1 ∧ unused r = rest ∧
  statuses (trace r) = [status_code x.1] ∧
  length (fetches (trace r)) = 1%nat ∧
  results (final r) = results self ++ bodies [x].
Proof.
  destruct x as [r0 now]. unfold continues, ending, bodies.
  cbn [fst snd omap list_omap]. intros Hc. cbv zeta.
  rewrite query_all_cons. cbv zeta.
  destruct (Z.eqb_spec (status_code r0) 200) as [E|N]; simpl in Hc.
  - destruct (get r0 "next_url") as [[|a s]|] eqn:Hn; simpl in Hc;
      try discriminate Hc; simpl;
      rewrite !statuses_app, !fetches_app, statuses_throttle,
        fetches_throttle, throttle_results; done.
  - destruct (Z.eqb_spec (status_code r0) 429) as [E|N']; [discriminate Hc|].
    destruct (raise_for_status r0); simpl;
      rewrite !statuses_app, !fetches_app, statuses_throttle,
        fetches_throttle, throttle_results;
      repeat split; rewrite ?app_nil_r; done.
Qed.

Lemma query_all_at_first_end pre x rest url payload overload self :
  Forall (λ y, continues y = true) pre → continues x = false →
  let r := query_all (pre ++ x :: rest) url payload overload self in
  unused r = rest ∧
  statuses (trace r) = map (λ y, status_code y.1) (pre ++ [x]) ∧
  length (fetches (trace r)) = S (length pre) ∧
  results (final r) = results self ++ bodies (pre ++ [x]) ∧
  outcome r = ending x.1.
Proof.
  intros Hpre Hx r.
  destruct (query_all_prefix pre (x :: rest) url payload overload self Hpre)
    as (tr & url' & payload' & overload' & self' & Hq & Hs & Hf & Hr).
  destruct (query_all_ends x rest url' payload' overload' self' Hx)
    as (Ho & Hu & Hs' & Hf' & Hr').
  subst r. rewrite Hq. unfold after. cbn [trace final outcome unused].
  rewrite statuses_app, fetches_app, length_app, Hs, Hs', Hf, Hf', Hr', Hr.
  rewrite map_app, bodies_app, <- app_assoc.
  repeat split; try done. lia.
Qed.

Lemma query_all_without_end w url payload overload self :
  Forall (λ y, continues y = true) w →
  let r := query_all w url payload overload self in
  outcome r = Raised RequestException ∧ unused r = [] ∧
  statuses (trace r) = map (λ y, status_code y.1) w ∧
  length (fetches (trace r)) = S (length w) ∧
  results (final r) = results self ++ bodies w.
Proof.
  intros Hw r.
  destruct (query_all_prefix w [] url payload overload self Hw)
    as (tr & url' & payload' & overload' & self' & Hq & Hs & Hf & Hr).
  subst r. rewrite app_nil_r in Hq. rewrite Hq, query_all_nil.
  unfold after. cbn [trace final outcome unused].
  rewrite !statuses_app, !fetches_app, !length_app, statuses_throttle,
    fetches_throttle, throttle_results, Hs, Hf, Hr. simpl.
  rewrite !app_nil_r. repeat split; try done. lia.
Qed.

(** A world answers with continuing responses throughout, or holds a first
    response on which the call ends. *)
Lemma first_end (w : world) :
  Forall (λ y, continues y = true) w ∨
  ∃ pre x rest,
    w = pre ++ x :: rest ∧ Forall (λ y, continues y = true) pre ∧
    continues x = false.
Proof.
  induction w as [|x w IH]; [by left|].
  destruct (continues x) eqn:Hx.
  - destruct IH as [Hw|(pre & y & rest & -> & Hpre & Hy)].
    + left. by constructor.
    + right. exists (x :: pre), y, rest. repeat split; [|done].
      by constructor.
  - right. exists [], x, w. by repeat split.
Qed.

Lemma ending_cases (r : response) :
  (400 ≤ status_code r < 600 ∧ status_code r ≠ 200 ∧
   ending r = Raised (HTTPError (status_code r))) ∨
  ((status_code r = 200 ∨ ¬ 400 ≤ status_code r < 600) ∧
   ending r = Returned).
Proof.
  unfold ending, raise_for_status.
  destruct (Z.eqb_spec (status_code r) 200) as [E|N];
    [right; split; [by left|done]|].
  destruct (Z.leb_spec 400 (status_code r)),
    (Z.ltb_spec (status_code r) 600); simpl;
    [left; split; [lia|done] | right; split; [right; lia|done] ..].
Qed.


(** *** The quota *)

Lemma burst_within_query_all w : ∀ url payload overload self,
  0 ≤ query_count self →
  burst_within (Z.to_nat MAX_QUERY_PER_MINUTE) (Z.to_nat (query_count self))
    (trace (query_all w url payload overload self)).
Proof.
  induction w as [|[x now] w IH]; intros url payload overload self Hc.
  - rewrite query_all_nil.
    destruct (throttle_cases overload self) as [[_ ->]|[[Hlt _] ->]]; simpl.
    + unfold MAX_QUERY_PER_MINUTE. split; [lia|done].
    + unfold MAX_QUERY_PER_MINUTE in *. split; [lia|done].
  - rewrite query_all_cons. cbv zeta.
    assert (Hrec : ∀ url' payload' overload',
      (Z.to_nat (query_count (throttle overload self).1) <
         Z.to_nat MAX_QUERY_PER_MINUTE)%nat ∧
      burst_within (Z.to_nat MAX_QUERY_PER_MINUTE)
        (S (Z.to_nat (query_count (throttle overload self).1)))
        (trace (query_all w url' payload' overload'
                  (record_request x now (throttle overload self).1))) ∧
      burst_within (Z.to_nat MAX_QUERY_PER_MINUTE)
        (S (Z.to_nat (query_count (throttle overload self).1)))
        (trace (query_all w url' payload' overload'
                  (append_result x
                     (record_request x now (throttle overload self).1))))).
    { intros url' payload' overload'.
      assert (0 ≤ query_count (throttle overload self).1 <
              MAX_QUERY_PER_MINUTE) as Hb.
      { destruct (throttle_cases overload self) as [[_ ->]|[[Hlt _] ->]];
          simpl; unfold MAX_QUERY_PER_MINUTE in *; lia. }
      split; [lia|].
      replace (S (Z.to_nat (query_count (throttle overload self).1)))
        with (Z.to_nat (query_count (throttle overload self).1 + 1)) by lia.
      split.
      - apply (IH url' payload' overload'
                 (record_request x now (throttle overload self).1)).
        simpl. lia.
      - apply (IH url' payload' overload'
                 (append_result x
                    (record_request x now (throttle overload self).1))).
        simpl. lia. }
    destruct (throttle_cases overload self) as [[_ Ht]|[_ Ht]];
      rewrite Ht in *; cbn [fst snd] in *;
      split_branches; simpl;
      (split; [apply (Hrec url payload overload)|]);
      try done;
      first [ apply (proj1 (proj2 (Hrec _ _ _)))
            | apply (proj2 (proj2 (Hrec _ _ _))) ].
Qed.

Lemma burst_within_no_sleep limit n seg b :
  burst_within limit n (seg ++ b) → sleeps seg = [] →
  fetches seg = [] ∨ (n + length (fetches seg) ≤ limit)%nat.
Proof.
  revert n. induction seg as [|e seg IH]; intros n; [by left|].
  destruct e; simpl; try done.
  - intros Hb Hs. apply (IH n Hb Hs).
  - intros [Hn Hb] Hs. right.
    destruct (IH (S n) Hb Hs) as [->|?]; simpl; lia.
  - intros Hb Hs. apply (IH n Hb Hs).
Qed.

Lemma burst_within_after_sleep limit n a s t :
  burst_within limit n (a ++ EvSleep s :: t) → burst_within limit 0 t.
Proof.
  revert n. induction a as [|e a IH]; intros n; simpl; [done|].
  destruct e; simpl; try apply IH. intros [_ Hb]. by eapply IH.
Qed.

(** The quota is kept. From a paginator whose counter is not negative,
    a run sends at most [MAX_QUERY_PER_MINUTE] requests between two sleeps
    and after its last sleep, and before its first sleep at most as many as
    the counter leaves room for. *)
Theorem quota_respected w url payload overload self :
  0 ≤ query_count self →
  let t := trace (query_all w url payload overload self) in
  (∀ seg b, t = seg ++ b → sleeps seg = [] →
     Z.of_nat (length (fetches seg)) ≤
       Z.max 0 (MAX_QUERY_PER_MINUTE - query_count self)) ∧
  (∀ a s seg b, t = a ++ EvSleep s :: seg ++ b → sleeps seg = [] →
     Z.of_nat (length (fetches seg)) ≤ MAX_QUERY_PER_MINUTE).
Proof.
  intros Hc t.
  pose proof (burst_within_query_all w url payload overload self Hc) as Hb.
  fold t in Hb. split.
  - intros seg b Ht Hs. rewrite Ht in Hb.
    destruct (burst_within_no_sleep _ _ _ _ Hb Hs) as [->|Hle]; simpl; lia.
  - intros a s seg b Ht Hs. rewrite Ht in Hb.
    apply burst_within_after_sleep in Hb.
    destruct (burst_within_no_sleep _ _ _ _ Hb Hs) as [->|Hle]; simpl;
      unfold MAX_QUERY_PER_MINUTE in *; lia.
Qed.

(** *** What is sent, and for how long the call sleeps *)

Lemma params_sent_app t1 t2 :
  params_sent (t1 ++ t2) = params_sent t1 ++ params_sent t2.
Proof. apply omap_app. Qed.

Lemma params_sent_throttle overload self :
  params_sent (throttle overload self).2 = [].
Proof. unfold throttle. by destruct (_ || _). Qed.

Lemma params_of_query_all w : ∀ url payload overload self,
  ∃ later,
    params_sent (trace (query_all w url payload overload self)) =
      sent payload :: later ∧
    Forall (λ p, p = sent payload ∨ p = sent ∅) later.
Proof.
  induction w as [|[x now] w IH]; intros url payload overload self.
  - rewrite query_all_nil. simpl.
    rewrite params_sent_app, params_sent_throttle. by exists [].
  - rewrite query_all_cons. cbv zeta.
    assert (Hhead : ∀ t,
      params_sent
        ((((throttle overload self).2 ++
           [EvLogQuery url (sent payload) overload;
            EvGet url (sent payload)]) ++
          [EvLogStatus (status_code x)]) ++ t) =
      sent payload :: params_sent t).
    { intros t. by rewrite !params_sent_app, params_sent_throttle. }
    assert (Hhead0 :
      params_sent
        (((throttle overload self).2 ++
          [EvLogQuery url (sent payload) overload;
           EvGet url (sent payload)]) ++
         [EvLogStatus (status_code x)]) = [sent payload]).
    { by rewrite !params_sent_app, params_sent_throttle. }
    split_branches; simpl; rewrite ?Hhead0, ?Hhead; try by exists [].
    all: match goal with
         | |- context [query_all _ ?u ?p ?o ?s] =>
             destruct (IH u p o s) as (later & -> & Hl)
         end.
    all: eexists; split; [reflexivity|].
    + constructor; [by right|].
      eapply Forall_impl; [exact Hl|]. intros p [->| ->]; by right.
    + rewrite sent_sent in *. constructor; [by left|]. exact Hl.
Qed.


Lemma sleeps_app t1 t2 : sleeps (t1 ++ t2) = sleeps t1 ++ sleeps t2.
Proof. apply omap_app. Qed.

Lemma api_sleep_time_le self : _api_sleep_time self ≤ 60.
Proof.
  unfold _api_sleep_time. destruct (_ <? _); [|done].
  destruct (head (query_time_log self)), (last (query_time_log self));
    try done.
  cbv zeta. case Z.ltb_spec; lia.
Qed.

(** No sleep of a run is longer than 60 seconds. *)
Theorem sleeps_at_most_a_minute w : ∀ url payload overload self,
  Forall (λ s, s ≤ 60) (sleeps (trace (query_all w url payload overload self))).
Proof.
  assert (Hthr : ∀ overload self,
    Forall (λ s, s ≤ 60) (sleeps (throttle overload self).2)).
  { intros overload self.
    destruct (throttle_cases overload self) as [[_ ->]|[_ ->]]; simpl;
      [|done]. constructor; [apply api_sleep_time_le|done]. }
  induction w as [|[x now] w IH]; intros url payload overload self.
  - rewrite query_all_nil. simpl. rewrite sleeps_app, app_nil_r. apply Hthr.
  - rewrite query_all_cons. cbv zeta.
    split_branches; simpl; rewrite !sleeps_app; simpl;
      rewrite ?app_nil_r; repeat apply Forall_app_2; try apply Hthr;
      try done; apply IH.
Qed.

(** *** The results *)

End more.


Lemma quota_respected_witness :
  let t :=
    trace (@query_all demo_imports (demo_pages ++ [demo_final_page]) "u1" ∅
             false (mkPaginator 3 demo_log [])) in
  (∀ seg b, t = seg ++ b → sleeps seg = [] →
     Z.of_nat (length (fetches seg)) ≤ 1) ∧
  (∀ a s seg b, t = a ++ EvSleep s :: seg ++ b → sleeps seg = [] →
     Z.of_nat (length (fetches seg)) ≤ 4).
Proof.
  apply (@quota_respected demo_imports (demo_pages ++ [demo_final_page])
           "u1" ∅ false (mkPaginator 3 demo_log [])).
  simpl. lia.
Defined.

End PolygonMoreFacts.

(** ** More on the downloads of the quotes *)

Module DownloadMoreFacts.
Import Download EffFacts PyFacts DownloadFacts.

Section more.
Context `{Imports} `{!Pools}.
Implicit Types (h : list event).

Lemma session_kwargs_disjoint (kw : kwargs) :
  kw ##ₘ session_kwargs ↔
  kw !! "init_client_session" = None ∧ kw !! "session_base_url" = None.
Proof.
  unfold session_kwargs.
  rewrite map_disjoint_insert_r, map_disjoint_singleton_r. done.
Qed.

(** When the paginator generates at least one request,
    [api_pool_downloader] either fails on its keywords or runs exactly one
    pool. A keyword of the session given by the caller is a [TypeError],
    raised before any pool is made; otherwise the pool is configured by
    [pool_kwarg_config] on the caller's keywords and the two of the session,
    it is run on all the requests, and the run ends as the pool does. *)
Theorem api_pool_downloader_runs_one_pool paginator args_data pool_kwargs
    batch_num h :
  generate_request_args paginator args_data ≠ [] →
  let url_args := generate_request_args paginator args_data in
  let r := api_pool_downloader paginator args_data pool_kwargs batch_num h in
  let before :=
    [ EvLog generating_urls; EvGenerateRequestArgs paginator args_data;
      EvLog fetching_data; EvLog (tasks (length url_args)) ] in
  let pool :=
    EvPool (pool_kwarg_config (pool_kwargs ∪ session_kwargs)) paginator
      url_args in
  (is_Some (pool_kwargs !! "init_client_session") ∨
   is_Some (pool_kwargs !! "session_base_url") →
     r = (before, inl TypeError)) ∧
  (pool_kwargs !! "init_client_session" = None →
   pool_kwargs !! "session_base_url" = None →
     match pool_raises (h ++ before) pool with
     | Some e => r = (before ++ [pool], inl e)
     | None =>
         r =
           (before ++
              [pool; EvLog (finished_downloading (paginator_type paginator))],
            inr tt)
     end).
Proof.
  intros Hne url_args r before pool. subst r.
  unfold api_pool_downloader. fold url_args.
  destruct url_args as [|u us] eqn:Hu; [done|].
  unfold log, dict_merge, Eff.effect, Eff.emit, Eff.bind, Eff.ret, Eff.raise.
  simpl. split.
  - intros Hkeys.
    rewrite bool_decide_eq_false_2; [done|].
    rewrite session_kwargs_disjoint. intros [Ha Hb].
    rewrite Ha, Hb in Hkeys. destruct Hkeys as [[? ?]|[? ?]]; done.
  - intros Ha Hb.
    rewrite bool_decide_eq_true_2 by (by apply session_kwargs_disjoint).
    simpl. subst before pool. simpl.
    rewrite <- !app_assoc. simpl.
    by destruct (pool_raises _ _).
Qed.

(** Without requests [api_quote_downloader] stops after asking the
    paginator: no pool, no further log line, whatever the keywords. *)
Theorem api_quote_downloader_without_requests paginator args_data pool_kwargs
    h :
  (quote_generate_request_args paginator args_data).1 = [] →
  api_quote_downloader paginator args_data pool_kwargs h =
    ([ EvLog generating_urls;
       EvQuoteGenerateRequestArgs paginator args_data ], inr tt).
Proof.
  unfold api_quote_downloader.
  destruct (quote_generate_request_args paginator args_data) as [ua m].
  simpl. by intros ->.
Qed.

(** When there are requests, [api_quote_downloader] ends in a
    [TypeError] without having run a pool exactly when a keyword is given
    twice: one of the two session keywords by the caller, or
    [o_ticker_count_mapping] by the configured keywords. *)
Theorem api_quote_downloader_keyword_clash paginator args_data pool_kwargs h :
  (quote_generate_request_args paginator args_data).1 ≠ [] →
  let r := api_quote_downloader paginator args_data pool_kwargs h in
  (is_Some (pool_kwargs !! "init_client_session") ∨
   is_Some (pool_kwargs !! "session_base_url") ∨
   is_Some (pool_kwarg_config (pool_kwargs ∪ session_kwargs)
              !! "o_ticker_count_mapping") →
     r.2 = inl TypeError ∧ pool_runs r.1 = []) ∧
  (r.2 = inl TypeError ∧ pool_runs r.1 = [] →
     is_Some (pool_kwargs !! "init_client_session") ∨
     is_Some (pool_kwargs !! "session_base_url") ∨
     is_Some (pool_kwarg_config (pool_kwargs ∪ session_kwargs)
                !! "o_ticker_count_mapping")).
Proof.
  intros Hne r. subst r. unfold api_quote_downloader.
  destruct (quote_generate_request_args paginator args_data)
    as [[|u ua] m]; [done|].
  unfold log, dict_merge, Eff.effect, Eff.emit, Eff.bind, Eff.ret, Eff.raise.
  simpl.
  destruct (decide (pool_kwargs ##ₘ session_kwargs)) as [Hd|Hd].
  - rewrite (bool_decide_eq_true_2 _ Hd). simpl.
    apply session_kwargs_disjoint in Hd as [Ha Hb].
    destruct (decide (is_Some (pool_kwarg_config (pool_kwargs ∪ session_kwargs)
                                 !! "o_ticker_count_mapping"))) as [Hm|Hm].
    + rewrite (bool_decide_eq_true_2 _ Hm). simpl. split; auto.
    + rewrite (bool_decide_eq_false_2 _ Hm). simpl.
      rewrite Ha, Hb. split.
      * intros [[? ?]|[[? ?]|?]]; done.
      * destruct (pool_raises _ _); simpl; intros [_ ?]; done.
  - rewrite (bool_decide_eq_false_2 _ Hd). simpl. split; [done|].
    intros _. rewrite session_kwargs_disjoint in Hd.
    destruct (pool_kwargs !! "init_client_session");
      [left; eauto|].
    destruct (pool_kwargs !! "session_base_url"); [right; left; eauto|].
    by destruct Hd.
Qed.

Lemma batch_o_tickers_nil ticker o_tickers :
  (∀ x, x ∈ o_tickers → underlying_ticker x ≠ ticker) →
  batch_o_tickers ticker o_tickers = [].
Proof.
  unfold batch_o_tickers. induction o_tickers as [|x l IH]; [done|].
  intros Hnone. rewrite filter_cons_False by (apply Hnone; by left).
  apply IH. intros y Hy. apply Hnone. by right.
Qed.

(** When no option ticker belongs to [ticker],
    [download_options_quotes] only logs that it is done: the paginator is
    never asked and no pool is run. *)
Theorem no_quotes_without_option_tickers ticker o_tickers months_hist h :
  (∀ x, x ∈ o_tickers → underlying_ticker x ≠ ticker) →
  download_options_quotes ticker o_tickers months_hist h =
    ([EvLog (completely_done ticker)], inr tt).
Proof.
  intros Hnone. unfold download_options_quotes.
  rewrite (batch_o_tickers_nil _ _ Hnone).
  change (py_range 0 (length (@nil OptionTicker)) BATCH_SIZE_OTICKERS)
    with (@nil nat).
  reflexivity.
Qed.

(** [download_options_quotes] hands the paginator at most
    [ceil(n / 1000)] batches for the [n] option tickers of [ticker], and
    exactly that many when it returns. *)
Theorem quote_batches_count ticker o_tickers months_hist h :
  let r := download_options_quotes ticker o_tickers months_hist h in
  let n := length (batch_o_tickers ticker o_tickers) in
  (length (dispatched r.1) ≤ (n + 999) / 1000)%nat ∧
  (r.2 = inr tt → length (dispatched r.1) = ((n + 999) / 1000)%nat).
Proof.
  intros r n.
  destruct (download_options_quotes_run ticker o_tickers months_hist h)
    as (Hok & Hd & _ & _).
  destruct (quote_loop_dispatched ticker o_tickers months_hist h)
    as [Hpre Hall].
  fold r in Hok, Hd. rewrite <- Hd in Hpre, Hall.
  assert (Hlen : length (slices BATCH_SIZE_OTICKERS
                           (batch_o_tickers ticker o_tickers)) =
                 ((n + 999) / 1000)%nat).
  { unfold slices, py_range. rewrite !length_map, length_seq.
    fold n. unfold BATCH_SIZE_OTICKERS. f_equal. lia. }
  split.
  - rewrite <- Hlen. by apply prefix_length.
  - intros Hr. apply Hok in Hr. rewrite (Hall Hr). exact Hlen.
Qed.

Lemma id_by_o_ticker_snoc l x :
  id_by_o_ticker (l ++ [x]) = <[o_ticker x := id x]> (id_by_o_ticker l).
Proof. unfold id_by_o_ticker. by rewrite foldl_app. Qed.

(** The lookup that [download_options_quotes] builds maps an option
    ticker to the id of the last tuple that carries it: a later entry
    replaces an earlier one. *)
Theorem id_by_o_ticker_lookup o_tickers k :
  id_by_o_ticker o_tickers !! k =
    id <$> last (filter (λ x, o_ticker x = k) o_tickers).
Proof.
  induction o_tickers as [|x l IH] using rev_ind; [done|].
  rewrite id_by_o_ticker_snoc, filter_app.
  destruct (decide (o_ticker x = k)) as [<-|Hne].
  - rewrite lookup_insert_eq, filter_cons_True, filter_nil by done.
    by rewrite last_snoc.
  - rewrite lookup_insert_ne, filter_cons_False, filter_nil by done.
    by rewrite app_nil_r.
Qed.
End more.

Lemma api_pool_downloader_runs_one_pool_witness :
  @api_pool_downloader demo_imports demo_pools "StockMetaData" (Some ["SPY"])
    {[ "processes" := PyInt 1 ]} None [] =
    ([ EvLog generating_urls;
       @EvGenerateRequestArgs demo_imports "StockMetaData" (Some ["SPY"]);
       EvLog fetching_data; EvLog (tasks 1);
       @EvPool demo_imports
         ({[ "processes" := PyInt 1 ]} ∪ @session_kwargs demo_imports)
         "StockMetaData" ["SPY"];
       EvLog (finished_downloading "StockMetaData") ], inr tt).
Proof.
  destruct (@api_pool_downloader_runs_one_pool demo_imports demo_pools
              "StockMetaData" (Some ["SPY"]) {[ "processes" := PyInt 1 ]}
              None [] ltac:(discriminate)) as [_ Hrun].
  exact (Hrun eq_refl eq_refl).
Defined.

Lemma api_quote_downloader_without_requests_witness :
  @api_quote_downloader demo_imports demo_pools 24 [] ∅ [] =
    ([ EvLog generating_urls;
       @EvQuoteGenerateRequestArgs demo_imports 24 [] ], inr tt).
Proof.
  apply (@api_quote_downloader_without_requests demo_imports demo_pools 24
           [] ∅ []).
  reflexivity.
Defined.

Lemma api_quote_downloader_keyword_clash_witness :
  let r :=
    @api_quote_downloader demo_imports demo_pools 24
      [mkOptionTicker "O:SPY" 1 0 "SPY"]
      {[ "init_client_session" := PyBool false ]} [] in
  r.2 = inl TypeError ∧ pool_runs r.1 = [].
Proof.
  apply (@api_quote_downloader_keyword_clash demo_imports demo_pools 24
           [mkOptionTicker "O:SPY" 1 0 "SPY"]
           {[ "init_client_session" := PyBool false ]} []
           ltac:(discriminate)).
  left. eexists. reflexivity.
Defined.

Lemma no_quotes_without_option_tickers_witness :
  @download_options_quotes demo_imports demo_pools "IWM"
    [mkOptionTicker "O:QQQ" 2 0 "QQQ"] 24 [] =
    ([EvLog (completely_done "IWM")], inr tt).
Proof.
  apply (@no_quotes_without_option_tickers demo_imports demo_pools "IWM"
           [mkOptionTicker "O:QQQ" 2 0 "QQQ"] 24 []).
  intros x Hx. apply list_elem_of_singleton in Hx. rewrite Hx. discriminate.
Defined.

End DownloadMoreFacts.

(** ** The lookups of [src/curator/db_tools/utils.py] *)

Module DbUtilsFacts.
Import DbUtils EffFacts.

Section dicts.
Context {A V : Type} (key : A → string) (value : A → V).

Lemma dict_get_set (d : dict V) k v k' :
  dict_get (dict_set d k v) k' =
    if decide (k = k') then Some v else dict_get d k'.
Proof.
  induction d as [|[k0 v0] d IH]; simpl.
  - by destruct (decide (k = k')).
  - destruct (decide (k0 = k)) as [->|Hk0]; simpl.
    + by destruct (decide (k = k')).
    + destruct (decide (k0 = k')) as [->|?]; [|done].
      by destruct (decide (k = k')).
Qed.

Lemma keys_dict_set (d : dict V) k v :
  (dict_set d k v).*1 = if decide (k ∈ d.*1) then d.*1 else d.*1 ++ [k].
Proof.
  induction d as [|[k0 v0] d IH].
  - rewrite decide_False; [done|]. apply not_elem_of_nil.
  - cbn [dict_set]. destruct (decide (k0 = k)) as [->|Hk0].
    + rewrite !fmap_cons. cbn [fst].
      rewrite decide_True; [done|]. apply list_elem_of_here.
    + rewrite !fmap_cons, IH. cbn [fst].
      destruct (decide (k ∈ d.*1)) as [Hin|Hin].
      * rewrite decide_True; [done|]. by apply list_elem_of_further.
      * rewrite decide_False; [done|]. rewrite elem_of_cons.
        intros [?|?]; [congruence|done].
Qed.

Lemma dict_comprehension_snoc rows x :
  dict_comprehension key value (rows ++ [x]) =
    dict_set (dict_comprehension key value rows) (key x) (value x).
Proof. unfold dict_comprehension. by rewrite foldl_app. Qed.

Lemma dict_comprehension_get rows k :
  dict_get (dict_comprehension key value rows) k =
    value <$> last (filter (λ x, key x = k) rows).
Proof.
  induction rows as [|x rows IH] using rev_ind; [done|].
  rewrite dict_comprehension_snoc, dict_get_set, filter_app.
  cbn [filter list_filter].
  destruct (decide (key x = k)) as [Hk|Hk].
  - by rewrite last_snoc.
  - by rewrite app_nil_r.
Qed.

Lemma first_seen_snoc keys k :
  first_seen (keys ++ [k]) =
    if decide (k ∈ first_seen keys) then first_seen keys
    else first_seen keys ++ [k].
Proof.
  unfold first_seen. rewrite reverse_snoc. simpl.
  destruct (decide_rel elem_of k (reverse keys)) as [Hin|Hin].
  - rewrite decide_True; [done|].
    by rewrite elem_of_reverse, elem_of_remove_dups.
  - rewrite decide_False, reverse_cons; [done|].
    by rewrite elem_of_reverse, elem_of_remove_dups.
Qed.

Lemma dict_comprehension_keys rows :
  (dict_comprehension key value rows).*1 = first_seen (map key rows).
Proof.
  induction rows as [|x rows IH] using rev_ind; [done|].
  rewrite dict_comprehension_snoc, keys_dict_set, map_app. cbn [map].
  by rewrite first_seen_snoc, IH.
Qed.

Lemma NoDup_first_seen keys : NoDup (first_seen keys).
Proof.
  unfold first_seen. rewrite reverse_Permutation. apply NoDup_remove_dups.
Qed.

Lemma elem_of_first_seen keys k : k ∈ first_seen keys ↔ k ∈ keys.
Proof.
  unfold first_seen.
  by rewrite elem_of_reverse, elem_of_remove_dups, elem_of_reverse.
Qed.

Lemma first_seen_NoDup keys : NoDup keys → first_seen keys = keys.
Proof.
  induction keys as [|k keys IH] using rev_ind; [done|].
  intros Hnd. apply NoDup_app in Hnd as (Hnd & Hk & _).
  rewrite first_seen_snoc, IH by done.
  rewrite decide_False; [done|].
  intros Hin. apply (Hk k Hin). apply list_elem_of_here.
Qed.

Lemma dict_comprehension_NoDup rows :
  NoDup (map key rows) →
  dict_comprehension key value rows = map (λ x, (key x, value x)) rows.
Proof.
  induction rows as [|x rows IH] using rev_ind; [done|].
  rewrite map_app. intros Hnd. pose proof Hnd as Hnd'.
  apply NoDup_app in Hnd as (Hnd & Hk & _).
  rewrite dict_comprehension_snoc, IH, map_app by done. simpl.
  assert (Hx : key x ∉ map key rows).
  { intros Hin. apply (Hk _ Hin). apply list_elem_of_here. }
  clear -Hx. induction rows as [|y rows IH]; simpl; [done|].
  rewrite decide_False.
  - rewrite IH; [done|]. intros Hin. apply Hx. by apply list_elem_of_further.
  - intros Hy. apply Hx. simpl. rewrite Hy. apply list_elem_of_here.
Qed.

End dicts.

Lemma dict_set_Forall {V} (P : string * V → Prop) (d : dict V) k v :
  Forall P d → (∀ k', k' = k → P (k', v)) → Forall P (dict_set d k v).
Proof.
  intros Hd Hk. induction Hd as [|[k0 v0] d H0 Hd IH]; simpl.
  - by repeat constructor; apply Hk.
  - destruct (decide (k0 = k)); constructor; auto.
Qed.

Lemma dict_comprehension_Forall {A V} (key : A → string) (value : A → V)
    (P : string * V → Prop) rows :
  (∀ x, x ∈ rows → P (key x, value x)) →
  Forall P (dict_comprehension key value rows).
Proof.
  induction rows as [|x rows IH] using rev_ind; intros HP.
  - constructor.
  - rewrite dict_comprehension_snoc. apply dict_set_Forall.
    + apply IH. intros y Hy. apply HP. apply elem_of_app. by left.
    + intros k' ->. apply HP. apply elem_of_app. right.
      apply list_elem_of_here.
Qed.

Lemma o_ticker_of_row x : o_ticker (OptionTicker_of x) = x.1.1.1.
Proof. by destruct x as [[[? ?] ?] ?]. Qed.

Lemma dict_get_None {V} (d : dict V) k : k ∉ d.*1 → dict_get d k = None.
Proof.
  induction d as [|[k0 v0] d IH]; [done|]. rewrite fmap_cons, not_elem_of_cons.
  intros [Hk Hd]. simpl. rewrite decide_False by done. by apply IH.
Qed.

Lemma dict_get_snoc {V} (d : dict V) k v k' :
  k ∉ d.*1 →
  dict_get (d ++ [(k, v)]) k' =
    if decide (k = k') then Some v else dict_get d k'.
Proof.
  intros Hk. induction d as [|[k0 v0] d IH]; [done|].
  rewrite fmap_cons, not_elem_of_cons in Hk. destruct Hk as [Hk0 Hk].
  simpl. rewrite IH by done.
  destruct (decide (k0 = k')) as [->|?]; [|done].
  by rewrite decide_False.
Qed.

Lemma id_by_o_ticker_values (d : dict OptionTicker) k :
  NoDup d.*1 → Forall (λ kv, o_ticker kv.2 = kv.1) d →
  Download.id_by_o_ticker (Orchestrator.values d) !! k =
    id <$> dict_get d k.
Proof.
  induction d as [|[k0 v0] d IH] using rev_ind; intros Hnd Hd; [done|].
  rewrite fmap_app in Hnd. apply NoDup_app in Hnd as (Hnd & Hk0 & _).
  apply Forall_app in Hd as [Hd Hv]. apply Forall_cons in Hv as [Hv _].
  simpl in Hv.
  unfold Download.id_by_o_ticker, Orchestrator.values.
  rewrite map_app, foldl_app. simpl. rewrite Hv.
  rewrite dict_get_snoc.
  - destruct (decide (k0 = k)) as [->|Hk].
    + by rewrite lookup_insert_eq.
    + rewrite lookup_insert_ne by done. by apply IH.
  - intros Hin. apply (Hk0 _ Hin). apply list_elem_of_here.
Qed.

Section utils.
Context `{Queries}.

(** [pull_tickers_from_db] makes the one query and turns its rows into a
    lookup from ticker to id: the tickers are its keys, each once, in the
    order in which the rows first show them, and a ticker that several rows
    show gets the id of the last of them. Rows of distinct tickers give the
    lookup of the same length and order. An exception of the query is
    passed on. *)
Theorem pull_tickers_from_db_lookup tickers all_ h :
  let r := pull_tickers_from_db tickers all_ h in
  let answer := query_stock_tickers h tickers all_ in
  r.1 = [EvQueryStockTickers tickers all_ answer] ∧
  match answer with
  | inl e => r.2 = inl e
  | inr rows =>
      ∃ d,
        r.2 = inr d ∧
        d.*1 = first_seen (map snd rows) ∧ NoDup d.*1 ∧
        (∀ k, dict_get d k = fst <$> last (filter (λ x, x.2 = k) rows)) ∧
        (NoDup (map snd rows) → d = map (λ x, (x.2, x.1)) rows)
  end.
Proof.
  intros r answer. subst r answer.
  unfold pull_tickers_from_db, Eff.bind, Eff.perform, Eff.ret. simpl.
  destruct (query_stock_tickers h tickers all_) as [e|rows]; simpl; [done|].
  split; [done|]. eexists. split; [done|].
  rewrite dict_comprehension_keys.
  split; [done|]. split; [apply NoDup_first_seen|].
  split; [apply dict_comprehension_get|apply dict_comprehension_NoDup].
Qed.

(** [generate_o_ticker_lookup] makes the one query and turns its rows
    into a lookup from option ticker to [OptionTicker]: every entry is keyed
    by the [o_ticker] field of its tuple, the keys are distinct and in the
    order in which the rows first show them, and an option ticker that
    several rows show keeps the tuple of the last of them. The ids that
    [download_options_quotes] reads back from the values of the lookup are
    those of the lookup itself. *)
Theorem generate_o_ticker_lookup_keys tickers all_ unexpired h :
  let r := generate_o_ticker_lookup tickers all_ unexpired h in
  let answer := query_options_tickers h tickers all_ unexpired in
  r.1 = [EvQueryOptionsTickers tickers all_ unexpired answer] ∧
  match answer with
  | inl e => r.2 = inl e
  | inr rows =>
      ∃ d,
        r.2 = inr d ∧
        d.*1 = first_seen (map (λ x, x.1.1.1) rows) ∧ NoDup d.*1 ∧
        Forall (λ kv, o_ticker kv.2 = kv.1) d ∧
        (∀ k,
           dict_get d k =
             OptionTicker_of <$> last (filter (λ x, x.1.1.1 = k) rows)) ∧
        (NoDup (map (λ x, x.1.1.1) rows) →
         Orchestrator.values d = map OptionTicker_of rows) ∧
        (∀ k,
           Download.id_by_o_ticker (Orchestrator.values d) !! k =
             id <$> dict_get d k)
  end.
Proof.
  intros r answer. subst r answer.
  unfold generate_o_ticker_lookup, Eff.bind, Eff.perform, Eff.ret. simpl.
  destruct (query_options_tickers h tickers all_ unexpired) as [e|rows];
    simpl; [done|].
  split; [done|]. eexists. split; [done|].
  assert (Hkeys : Forall (λ kv, o_ticker kv.2 = kv.1)
            (dict_comprehension (λ x : option_row, x.1.1.1) OptionTicker_of
               rows)).
  { apply dict_comprehension_Forall. intros x _. apply o_ticker_of_row. }
  pose proof (NoDup_first_seen (map (λ x : option_row, x.1.1.1) rows)) as Hnd.
  rewrite <- dict_comprehension_keys with (value := OptionTicker_of) in Hnd.
  split; [apply dict_comprehension_keys|]. split; [done|].
  split; [done|]. split; [apply dict_comprehension_get|].
  split.
  - intros Hrows. rewrite dict_comprehension_NoDup by done.
    unfold Orchestrator.values. rewrite map_map. done.
  - intros k. by apply id_by_o_ticker_values.
Qed.

End utils.

(** On a database that lists a ticker twice, the lookup has it once,
    at its first place and with its last id. *)
Example pull_tickers_from_db_demo :
  (@pull_tickers_from_db demo_queries ["AA"; "AAWW"] false []).2 =
    inr [("AA", 95); ("AAWW", 125)].
Proof. reflexivity. Qed.

Example generate_o_ticker_lookup_demo :
  (@generate_o_ticker_lookup demo_queries ["A"; "B"] false true []).2 =
    inr [ ("O:A", mkOptionTicker "O:A" 3 30 "A");
          ("O:B", mkOptionTicker "O:B" 2 20 "B") ].
Proof. reflexivity. Qed.

End DbUtilsFacts.

(** ** The other downloads *)

Module DownloadsFacts.
Import Download Downloads EffFacts EffMoreFacts DownloadMoreFacts DbUtilsFacts.

Section facts.
Context `{Imports} `{!Pools} `{!Paginators} `{!Queries}.

Lemma downloads_app t1 t2 : downloads (t1 ++ t2) = downloads t1 ++ downloads t2.
Proof. apply omap_app. Qed.

Lemma downloads_fmap t : downloads (EvDownload <$> t) = t.
Proof. unfold downloads. induction t as [|e t IH]; simpl; by f_equal. Qed.

(** A run of [api_pool_downloader] whose keywords do not hold the two of
    the session. *)
Lemma api_pool_downloader_disjoint paginator args_data pool_kwargs h :
  pool_kwargs ##ₘ session_kwargs →
  let r := api_pool_downloader paginator args_data pool_kwargs None h in
  (length (pool_runs r.1) ≤ 1)%nat ∧
  Forall session_pool (pool_runs r.1) ∧
  Forall (λ e, match e with
               | EvGenerateRequestArgs p a => p = paginator ∧ a = args_data
               | EvPool _ p _ => p = paginator
               | _ => True
               end) r.1 ∧
  (∀ e, r.2 = inl e →
     ∃ pre pool,
       r.1 = pre ++ [pool] ∧ is_pool_run pool = true ∧
       pool_raises (h ++ pre) pool = Some e).
Proof.
  intros Hd r. subst r. unfold api_pool_downloader.
  destruct (generate_request_args paginator args_data) as [|u ua] eqn:Hu.
  { simpl. repeat split; try by repeat constructor. all: by intros e. }
  unfold Download.log, dict_merge, Eff.effect, Eff.emit, Eff.bind, Eff.ret,
    Eff.raise.
  simpl. rewrite (bool_decide_eq_true_2 _ Hd). simpl.
  assert (Hs : session_pool
            (EvPool (pool_kwarg_config (pool_kwargs ∪ session_kwargs))
               paginator (u :: ua))).
  { eexists _, _, _. split; [done|].
    split; [|split; [|done]].
    - apply lookup_union_Some_r; [done|]. unfold session_kwargs.
      by rewrite lookup_insert_eq.
    - apply lookup_union_Some_r; [done|]. unfold session_kwargs.
      rewrite lookup_insert_ne by done. by rewrite lookup_singleton_eq. }
  destruct (pool_raises _ _) as [e|] eqn:Hr; simpl.
  - rewrite app_nil_r, <- !app_assoc in Hr. simpl in Hr.
    repeat split; try by repeat constructor.
    intros e' [= <-].
    exists [ Download.EvLog generating_urls;
             EvGenerateRequestArgs paginator args_data;
             Download.EvLog fetching_data;
             Download.EvLog (tasks (S (length ua))) ],
      (EvPool (pool_kwarg_config (pool_kwargs ∪ session_kwargs)) paginator
         (u :: ua)).
    split; [done|]. split; [done|exact Hr].
  - repeat split; try by repeat constructor. all: by intros e.
Qed.

(** The same run, as a call from this module. *)
Lemma within_api_pool_downloader paginator args_data pool_kwargs h :
  pool_kwargs ##ₘ session_kwargs →
  let r := within (api_pool_downloader paginator args_data pool_kwargs None) h
  in
  (length (pool_runs (downloads r.1)) ≤ 1)%nat ∧
  Forall session_pool (pool_runs (downloads r.1)) ∧
  Forall (λ e, match e with
               | EvDownload (EvGenerateRequestArgs p a) =>
                   p = paginator ∧ a = args_data
               | EvDownload (EvPool _ p _) => p = paginator
               | EvDownload _ => True
               | _ => False
               end) r.1 ∧
  (∀ e, r.2 = inl e →
     ∃ pre pool,
       r.1 = pre ++ [EvDownload pool] ∧ is_pool_run pool = true ∧
       pool_raises (downloads (h ++ pre)) pool = Some e).
Proof.
  intros Hd r. subst r. unfold within.
  pose proof (api_pool_downloader_disjoint paginator args_data pool_kwargs
                (downloads h) Hd) as (Hone & Hs & Hshape & Hexn).
  destruct (api_pool_downloader _ _ _ _ _) as [t r0]. simpl in *.
  rewrite downloads_fmap. split; [done|]. split; [done|]. split.
  - apply Forall_fmap. eapply Forall_impl; [exact Hshape|].
    by intros [| | | |].
  - intros e He. destruct (Hexn e He) as (pre & pool & -> & Hp & Hr).
    exists (EvDownload <$> pre), pool. rewrite fmap_app.
    split; [done|]. split; [done|].
    by rewrite downloads_app, downloads_fmap.
Qed.

Ltac fixed_keywords :=
  apply session_kwargs_disjoint; split; reflexivity.

(** [download_stock_metadata], [download_stock_prices],
    [download_options_prices] and [download_options_snapshots] run at most
    one pool each, on at least one request and with a client session on the
    base URL of Polygon. The keywords they fix never clash with those of the
    session: the only exception such a download can end with is the one its
    pool raised, as the last event of the run. *)
Theorem downloads_run_one_pool (d : download) h :
  let r := run d h in
  (length (pool_runs (downloads r.1)) ≤ 1)%nat ∧
  Forall session_pool (pool_runs (downloads r.1)) ∧
  (∀ e, r.2 = inl e →
     ∃ pre pool,
       r.1 = pre ++ [EvDownload pool] ∧ is_pool_run pool = true ∧
       pool_raises (downloads (h ++ pre)) pool = Some e).
Proof.
  intros r. subst r.
  destruct d as [tickers all_|lookup start_date end_date|o_tickers m
                |o_tickers]; simpl.
  - unfold download_stock_metadata. rewrite bind_run.
    set (msg := if all_ then _ else _).
    assert (Hmsg : ∃ l, msg h = ([EvLog l], inr tt))
      by (subst msg; destruct all_; by eexists).
    destruct Hmsg as [l ->]. simpl.
    match goal with
    | |- context [within (api_pool_downloader ?p ?a ?kw None) ?h'] =>
        pose proof (within_api_pool_downloader p a kw h'
                      ltac:(fixed_keywords)) as (Hone & Hs & _ & Hexn)
    end.
    split; [done|]. split; [done|].
    intros e He. destruct (Hexn e He) as (pre & pool & Ht & Hp & Hr).
    exists (EvLog l :: pre), pool. rewrite Ht.
    split; [done|]. split; [done|].
    rewrite <- Hr. f_equal. by rewrite <- app_assoc.
  - unfold download_stock_prices.
    match goal with
    | |- context [within (api_pool_downloader ?p ?a ?kw None) ?h'] =>
        pose proof (within_api_pool_downloader p a kw h'
                      ltac:(fixed_keywords)) as (Hone & Hs & _ & Hexn)
    end.
    done.
  - unfold download_options_prices.
    match goal with
    | |- context [within (api_pool_downloader ?p ?a ?kw None) ?h'] =>
        pose proof (within_api_pool_downloader p a kw h'
                      ltac:(fixed_keywords)) as (Hone & Hs & _ & Hexn)
    end.
    done.
  - unfold download_options_snapshots.
    match goal with
    | |- context [within (api_pool_downloader ?p ?a ?kw None) ?h'] =>
        pose proof (within_api_pool_downloader p a kw h'
                      ltac:(fixed_keywords)) as (Hone & Hs & _ & Hexn)
    end.
    done.
Qed.

(** [download_options_contracts] raises [InvalidArgs] before anything
    else happens exactly when it is given neither tickers nor a lookup, an
    empty list or [dict] counting as none. It asks the database for the ids
    exactly when it is given tickers and no lookup, once and first. Every
    request generation is asked for the contracts of a non-empty list of
    tickers: the tickers given, or else the keys of the lookup given, in
    their order; the lookup handed to the paginator is the one given, or
    else the one built from the rows of the database. *)
Theorem download_options_contracts_arguments tickers ticker_id_lookup
    months_hist h :
  let r := download_options_contracts tickers ticker_id_lookup months_hist h
  in
  (falsy tickers = true ∧ falsy ticker_id_lookup = true ↔
     r = ([], inl InvalidArgs)) ∧
  (∀ pre tk stock answer post,
     r.1 = pre ++ EvLookupMultiTickerIds tk stock answer :: post →
     pre = [] ∧ tickers = Some tk ∧ stock = true ∧
     falsy tickers = false ∧ falsy ticker_id_lookup = true ∧
     answer = lookup_multi_ticker_ids h tk true) ∧
  (falsy tickers = false → falsy ticker_id_lookup = true →
     ∃ tk answer rest,
       tickers = Some tk ∧
       r.1 = EvLookupMultiTickerIds tk true answer :: rest) ∧
  (∀ paginator args_data,
     EvDownload (EvGenerateRequestArgs paginator args_data) ∈ r.1 →
     ∃ tk lookup,
       tk ≠ [] ∧
       paginator = OptionsContracts tk lookup months_hist ∧
       args_data = Some (ticker_arg <$> tk) ∧
       (tickers = Some tk ∨ falsy tickers = true ∧ tk = lookup.*1) ∧
       (ticker_id_lookup = Some lookup ∨
        falsy ticker_id_lookup = true ∧
        ∃ rows,
          lookup_multi_ticker_ids h tk true = inr rows ∧
          lookup = DbUtils.dict_comprehension fst snd rows)).
Proof.
  intros r. subst r. unfold download_options_contracts.
  assert (Hrun : ∀ tk lookup h',
    let t :=
      (within
         (api_pool_downloader (OptionsContracts tk lookup months_hist)
            (Some (ticker_arg <$> tk)) ∅ None) h').1 in
    t ≠ [] ∧ Forall is_download t ∧
    ∀ paginator args_data,
      EvDownload (EvGenerateRequestArgs paginator args_data) ∈ t →
      paginator = OptionsContracts tk lookup months_hist ∧
      args_data = Some (ticker_arg <$> tk)).
  { intros tk lookup h' t. subst t.
    pose proof (within_api_pool_downloader
                  (OptionsContracts tk lookup months_hist)
                  (Some (ticker_arg <$> tk)) ∅ h'
                  ltac:(apply map_disjoint_empty_l)) as (_ & _ & Hs & _).
    split; [|split].
    - unfold within, api_pool_downloader. rewrite bind_run. simpl.
      by destruct (Eff.bind _ _ _).
    - eapply Forall_impl; [exact Hs|]. by intros [[| | | |]| |].
    - intros p a Hin. rewrite Forall_forall in Hs. by apply Hs in Hin. }
  assert (Hnolookup : ∀ t pre tk stock answer post,
    Forall is_download t →
    t ≠ pre ++ EvLookupMultiTickerIds tk stock answer :: post).
  { intros t pre tk stock answer post Ht ->.
    apply Forall_app in Ht as [_ Ht]. by apply Forall_cons in Ht as [? _]. }
  destruct (falsy tickers) eqn:Htk; destruct (falsy ticker_id_lookup) eqn:Hlk;
    cbn [andb].
  - (* neither is given *)
    unfold Eff.bind, Eff.raise. simpl.
    split; [done|]. split; [by intros [|? ?] ? ? ? ? ?|].
    split; [done|]. by intros p a ?%elem_of_nil.
  - (* the lookup only *)
    destruct ticker_id_lookup as [[|kv d]|]; try done.
    rewrite bind_ret.
    change (default [] (Some (kv :: d))) with (kv :: d). cbn [fst snd].
    destruct (Hrun ((kv :: d).*1) (kv :: d) (h ++ [])) as (Hne & Hd & Hargs).
    destruct (within _ _) as [t r0]. simpl in Hne, Hd, Hargs.
    split; [|split; [|split]].
    + split; [by intros [_ ?]|]. by intros [= -> _].
    + intros pre tk stock answer post Heq. by apply Hnolookup in Heq.
    + done.
    + intros p a Hin. apply Hargs in Hin as [-> ->].
      exists ((kv :: d).*1), (kv :: d).
      split; [done|]. split; [done|]. split; [done|].
      split; [by right|by left].
  - (* the tickers only *)
    destruct tickers as [[|t ts]|]; try done.
    change (default [] (Some (t :: ts))) with (t :: ts).
    rewrite bind_run, !bind_perform.
    destruct (lookup_multi_ticker_ids h (t :: ts) true) as [e|rows] eqn:Hq;
      unfold Eff.ret; cbn [fst snd app].
    + split; [split; [by intros [? _]|done]|].
      split.
      { intros pre tk stock answer post Heq.
        by destruct pre as [|? [|? ?]]; simplify_eq/=. }
      split; [by eexists _, _, _|].
      intros p a Hin. apply list_elem_of_singleton in Hin. done.
    + match goal with
      | |- context [within (api_pool_downloader
                              (OptionsContracts ?tk ?lk _) _ _ _) ?h'] =>
          destruct (Hrun tk lk h') as (Hne & Hd & Hargs)
      end.
      destruct (within _ _) as [tr r0]. simpl in Hne, Hd, Hargs.
      cbn [fst snd app].
      split; [split; [by intros [? _]|done]|].
      split.
      { intros pre tk stock answer post Heq.
        destruct pre as [|? pre]; simplify_eq/=; [done|].
        by destruct (Hnolookup _ _ _ _ _ _ Hd eq_refl). }
      split; [by eexists _, _, _|].
      intros p a Hin. apply elem_of_cons in Hin as [?|Hin]; [done|].
      apply Hargs in Hin as [-> ->].
      exists (t :: ts), (DbUtils.dict_comprehension fst snd rows).
      split; [done|]. split; [done|]. split; [done|].
      split; [by left|]. right. split; [done|]. by exists rows.
  - (* both *)
    destruct tickers as [[|t ts]|]; try done.
    destruct ticker_id_lookup as [[|kv d]|]; try done.
    rewrite bind_ret.
    change (default [] (Some (kv :: d))) with (kv :: d).
    change (default [] (Some (t :: ts))) with (t :: ts). cbn [fst snd].
    destruct (Hrun (t :: ts) (kv :: d) (h ++ [])) as (Hne & Hd & Hargs).
    destruct (within _ _) as [tr r0]. simpl in Hne, Hd, Hargs.
    split; [|split; [|split]].
    + split; [by intros [? _]|]. by intros [= -> _].
    + intros pre tk stock answer post Heq. by apply Hnolookup in Heq.
    + done.
    + intros p a Hin. apply Hargs in Hin as [-> ->].
      exists (t :: ts), (kv :: d).
      split; [done|]. split; [done|]. split; [done|].
      split; [by left|by left].
Qed.

End facts.
End DownloadsFacts.

(** ** More on the orchestrator *)

Module OrchestratorMoreFacts.
Import Orchestrator EffFacts OrchestratorFacts OrchestratorObs.

Ltac run_calls :=
  unfold await, await_pull_tickers_from_db, await_generate_o_ticker_lookup,
    unless_truthy, Eff.effect, Eff.perform, Eff.emit, Eff.bind, Eff.ret,
    Eff.raise;
  simpl;
  repeat match goal with
  | |- context [bool_decide ?P] => destruct (bool_decide P); simpl
  | |- context [raises ?h ?c] => destruct (raises h c); simpl
  | |- context [pull_tickers_from_db ?h ?t ?a] =>
      destruct (pull_tickers_from_db h t a) as [?|[|? ?]]; simpl
  | |- context [generate_o_ticker_lookup ?h ?t ?a ?u] =>
      destruct (generate_o_ticker_lookup h t a u) as [?|[|? ?]]; simpl
  end.

(** *** Which stages [import_partial] runs *)

Section selection.
Context `{Collaborators}.
Context (tickers : list string) (start_date end_date : datetime)
  (months_hist : Z).

(** [import_partial] reads [partial] through the six membership tests
    only: two selections that hold the same stage numbers between 1 and 6
    give the same run, whatever their order, their repetitions and their
    other numbers; a selection that holds none of them gives the run that
    does nothing. *)
Theorem import_partial_selection partial :
  (∀ partial',
     (∀ k, 1 ≤ k ≤ 6 → k ∈ partial ↔ k ∈ partial') →
     import_partial partial tickers start_date end_date months_hist =
       import_partial partial' tickers start_date end_date months_hist) ∧
  ((∀ k, 1 ≤ k ≤ 6 → k ∉ partial) →
   ∀ h,
     import_partial partial tickers start_date end_date months_hist h =
       ([], inr tt)).
Proof.
  split.
  - intros partial' Hsame.
    assert (Hb : ∀ k, 1 ≤ k ≤ 6 →
              bool_decide (k ∈ partial) = bool_decide (k ∈ partial')).
    { intros k Hk. apply bool_decide_ext. by apply Hsame. }
    unfold import_partial. by rewrite !Hb by lia.
  - intros Hnone h.
    assert (Hb : ∀ k, 1 ≤ k ≤ 6 → bool_decide (k ∈ partial) = false).
    { intros k Hk. apply bool_decide_eq_false. by apply Hnone. }
    unfold import_partial. by rewrite !Hb by lia.
Qed.

End selection.

Lemma import_partial_selection_witness :
  @import_partial demo_database [6; 1; 6; 9] ["SPY"] 0 0 24 =
    @import_partial demo_database [1; 6] ["SPY"] 0 0 24 ∧
  @import_partial demo_database [0; 7] ["SPY"] 0 0 24 [] = ([], inr tt).
Proof.
  destruct (@import_partial_selection demo_database ["SPY"] 0 0 24
              [6; 1; 6; 9]) as [Hsame _].
  destruct (@import_partial_selection demo_database ["SPY"] 0 0 24 [0; 7])
    as [_ Hnone].
  split.
  - apply Hsame. intros k Hk.
    rewrite !elem_of_cons, !elem_of_nil. lia.
  - apply Hnone. intros k Hk.
    rewrite !elem_of_cons, !elem_of_nil. lia.
Defined.

(** *** Exceptions *)

Section exceptions.
Context `{Collaborators}.

Lemma all_returned_nil h : all_returned h [].
Proof. intros [|? ?] ? ? ? ?; done. Qed.

Lemma all_returned_singleton h ev :
  (∀ e, ¬ raised_by h ev e) → all_returned h [ev].
Proof.
  intros Hev pre ev' post e Heq.
  destruct pre as [|? [|? ?]]; simplify_eq/=. rewrite app_nil_r. apply Hev.
Qed.

Lemma all_returned_app h t1 t2 :
  all_returned h t1 → all_returned (h ++ t1) t2 → all_returned h (t1 ++ t2).
Proof.
  intros H1 H2 pre ev post e Heq.
  apply app_eq_inv in Heq as [(k & -> & Hk)|(k & -> & ->)].
  - destruct k as [|ev' k]; simplify_eq/=.
    + rewrite app_nil_r in H2.
      specialize (H2 [] ev post e eq_refl). by rewrite app_nil_r in H2.
    + by eapply H1.
  - rewrite app_assoc. by eapply H2.
Qed.

Lemma propagates_ret {A} (a : A) : propagates (Eff.ret a).
Proof. intros h. apply all_returned_nil. Qed.

Lemma propagates_log msg : propagates (log msg).
Proof.
  intros h. unfold uncaught. simpl. apply all_returned_singleton.
  intros e [].
Qed.

Lemma propagates_await c : propagates (await c).
Proof.
  intros h. unfold uncaught, await, Eff.effect. simpl.
  destruct (raises h c) as [e|] eqn:Hr.
  - exists [], (EvCall c). simpl. rewrite app_nil_r.
    split; [done|]. split; [done|]. apply all_returned_nil.
  - apply all_returned_singleton. simpl. intros e. by rewrite Hr.
Qed.

Lemma propagates_pull_tickers_from_db tickers all_ :
  propagates (await_pull_tickers_from_db tickers all_).
Proof.
  intros h. unfold uncaught, await_pull_tickers_from_db, Eff.perform. simpl.
  destruct (pull_tickers_from_db h tickers all_) as [e|d].
  - exists [], (EvPullTickersFromDb tickers all_ (inl e)).
    split; [done|]. split; [done|]. apply all_returned_nil.
  - apply all_returned_singleton. intros e. simpl. congruence.
Qed.

Lemma propagates_generate_o_ticker_lookup tickers all_ unexpired :
  propagates (await_generate_o_ticker_lookup tickers all_ unexpired).
Proof.
  intros h.
  unfold uncaught, await_generate_o_ticker_lookup, Eff.perform. simpl.
  destruct (generate_o_ticker_lookup h tickers all_ unexpired) as [e|d].
  - exists [], (EvGenerateOTickerLookup tickers all_ unexpired (inl e)).
    split; [done|]. split; [done|]. apply all_returned_nil.
  - apply all_returned_singleton. intros e. simpl. congruence.
Qed.

Lemma propagates_bind {A B} (m : M A) (k : A → M B) :
  propagates m → (∀ a, propagates (k a)) → propagates (Eff.bind m k).
Proof.
  intros Hm Hk h. specialize (Hm h). unfold uncaught in *.
  rewrite bind_run. destruct (m h) as [t1 [e|a]]; simpl in *; [done|].
  specialize (Hk a (h ++ t1)). unfold uncaught in Hk.
  destruct (k a (h ++ t1)) as [t2 [e|b]]; simpl in *.
  - destruct Hk as (pre & ev & -> & Hev & Hpre).
    exists (t1 ++ pre), ev. rewrite !app_assoc.
    split; [done|]. split; [done|]. by apply all_returned_app.
  - by apply all_returned_app.
Qed.

Lemma propagates_unless_truthy {A} (d : option (list A)) fetch :
  propagates fetch → propagates (unless_truthy d fetch).
Proof. destruct d as [[|? ?]|]; simpl; auto using propagates_ret. Qed.

Lemma propagates_for_each {A} (l : list A) body :
  (∀ x, propagates (body x)) → propagates (Eff.for_each l body).
Proof.
  intros Hbody. induction l as [|x l IH]; simpl.
  - apply propagates_ret.
  - apply propagates_bind; auto.
Qed.

Ltac propagate :=
  repeat first
    [ apply propagates_ret | apply propagates_log | apply propagates_await
    | apply propagates_pull_tickers_from_db
    | apply propagates_generate_o_ticker_lookup
    | apply propagates_unless_truthy
    | apply propagates_bind; [|intros ?]
    | match goal with
      | |- propagates (if ?b then _ else _) => destruct b
      end ].

(** Neither [import_all], nor [import_partial], nor
    [remove_tickers_from_universe] catches anything. A run returns exactly
    when every call it made returned; otherwise it ends with the exception
    of the last call it made, and that call is the only one that raised: no
    call is made after a failure. *)
Theorem orchestrator_catches_nothing partial tickers start_date end_date
    months_hist h :
  uncaught h (import_all tickers start_date end_date months_hist h) ∧
  uncaught h
    (import_partial partial tickers start_date end_date months_hist h) ∧
  uncaught h (remove_tickers_from_universe tickers h).
Proof.
  split; [|split].
  - revert h. change (propagates
      (import_all tickers start_date end_date months_hist)).
    unfold import_all. propagate.
  - revert h. change (propagates
      (import_partial partial tickers start_date end_date months_hist)).
    unfold import_partial. cbv zeta. propagate.
  - revert h. change (propagates (remove_tickers_from_universe tickers)).
    unfold remove_tickers_from_universe.
    apply propagates_for_each. intros x. propagate.
Qed.

End exceptions.

(** *** The lookups the calls are given *)

Lemma latest_snoc t e :
  (latest_tickers (t ++ [e]), latest_lookup (t ++ [e])) =
    advance (latest_tickers t, latest_lookup t) e.
Proof.
  unfold latest_tickers, latest_lookup. rewrite !omap_app. simpl.
  destruct e as [c|tk a [x|d]|tk a u [x|d]|m]; simpl;
    rewrite ?app_nil_r, ?last_snoc; done.
Qed.

Lemma fed_split t : ∀ pre0 pre c post,
  fed (latest_tickers pre0, latest_lookup pre0) t →
  t = pre ++ EvCall c :: post →
  given c (latest_tickers (pre0 ++ pre)) (latest_lookup (pre0 ++ pre)).
Proof.
  induction t as [|e t IH]; intros pre0 pre c post Hf Ht.
  - by destruct pre.
  - destruct Hf as [He Hf]. destruct pre as [|e' pre]; simplify_eq/=.
    + by rewrite app_nil_r.
    + rewrite <- latest_snoc in Hf.
      specialize (IH (pre0 ++ [e']) pre c post Hf eq_refl).
      by rewrite <- app_assoc in IH.
Qed.

Lemma fed_app s t1 t2 :
  fed s t1 → fed (foldl advance s t1) t2 → fed s (t1 ++ t2).
Proof.
  revert s. induction t1 as [|e t1 IH]; intros s; simpl; [done|].
  intros [He H1] H2. split; [done|]. by apply IH.
Qed.

Section runs.
Context `{Collaborators}.

Lemma fed_run_bind {A B} (m : M A) (k : A → M B) s h mid post :
  fed_run s (m h) mid →
  (∀ a s' h', mid a s' → fed_run s' (k a h') post) →
  fed_run s (Eff.bind m k h) post.
Proof.
  intros [Hm Hmid] Hk. unfold fed_run. rewrite bind_run.
  destruct (m h) as [t1 [e|a]]; simpl in *; [done|].
  destruct (Hk a _ (h ++ t1) Hmid) as [Hf Hpost].
  destruct (k a (h ++ t1)) as [t2 r]; simpl in *.
  split; [by apply fed_app|]. by rewrite foldl_app.
Qed.

Context (partial : list Z) (tickers : list string)
  (start_date end_date : datetime) (months_hist : Z).

Ltac run_fed :=
  unfold fed_run; run_calls; repeat split; simpl in *; eauto.

Lemma stage_1_fed s h :
  fed_run s (stage_1 partial tickers h) (λ _ s', s' = s).
Proof. unfold stage_1. run_fed. Qed.

Lemma stage_2_fed s h :
  fed_run s (stage_2 partial tickers start_date end_date h)
    (λ v s', agrees v s'.1).
Proof. unfold stage_2. run_fed. Qed.

Lemma stage_3_fed v s h :
  agrees v s.1 →
  fed_run s (stage_3 partial tickers months_hist v h) (λ _ _, True).
Proof.
  unfold stage_3. intros Hv. destruct s as [tl ol].
  destruct v as [[|x l]|]; run_fed.
Qed.

Lemma stage_4_fed s h :
  fed_run s (stage_4 partial tickers months_hist h) (λ v s', agrees v s'.2).
Proof. unfold stage_4. run_fed. Qed.

Lemma stage_5_fed v s h :
  agrees v s.2 →
  fed_run s (stage_5 partial tickers v h) (λ v' s', agrees v' s'.2).
Proof.
  unfold stage_5. intros Hv. destruct s as [tl ol].
  destruct v as [[|x l]|]; run_fed.
Qed.

Lemma stage_6_fed v s h :
  agrees v s.2 →
  fed_run s (stage_6 partial tickers months_hist v h) (λ _ _, True).
Proof.
  unfold stage_6. intros Hv. destruct s as [tl ol].
  destruct v as [[|x l]|]; run_fed.
Qed.

Lemma import_partial_fed h :
  fed (None, None)
    (import_partial partial tickers start_date end_date months_hist h).1.
Proof.
  rewrite import_partial_stages.
  refine (proj1 (_ : fed_run _ _ (λ _ _, True))).
  eapply fed_run_bind; [apply stage_1_fed|]. intros [] s1 h1 _.
  eapply fed_run_bind; [apply stage_2_fed|]. intros v2 s2 h2 H2.
  eapply fed_run_bind; [by apply stage_3_fed|]. intros [] s3 h3 _.
  eapply fed_run_bind; [apply stage_4_fed|]. intros v4 s4 h4 H4.
  eapply fed_run_bind; [by apply stage_5_fed|]. intros v5 s5 h5 H5.
  by apply stage_6_fed.
Qed.

Lemma import_all_fed h :
  fed (None, None)
    (import_all tickers start_date end_date months_hist h).1.
Proof. unfold import_all. run_calls; repeat split; eauto. Qed.

End runs.

(** Every download and upload is handed the lookup that was answered
    last in the same run, in [import_partial] and in [import_all]: the stock
    prices and the option contracts the latest ticker lookup, the option
    prices, snapshots and quotes the latest option-ticker lookup (its values,
    for a download). *)
Theorem calls_are_given_the_latest_lookup `{Collaborators} partial tickers
    start_date end_date months_hist h :
  let latest (r : list event * (exn + unit)) :=
    ∀ pre c post,
      r.1 = pre ++ EvCall c :: post →
      given c (latest_tickers pre) (latest_lookup pre) in
  latest (import_partial partial tickers start_date end_date months_hist h) ∧
  latest (import_all tickers start_date end_date months_hist h).
Proof.
  split; intros pre c post Ht.
  - eapply (fed_split _ [] pre c post); [|exact Ht].
    apply import_partial_fed.
  - eapply (fed_split _ [] pre c post); [|exact Ht].
    apply import_all_fed.
Qed.

Lemma calls_are_given_the_latest_lookup_witness :
  given (download_options_quotes [demo_option] 24)
    (latest_tickers
       [ EvGenerateOTickerLookup ["SPY"] false false
           (inr [("O:SPY", demo_option)]) ])
    (latest_lookup
       [ EvGenerateOTickerLookup ["SPY"] false false
           (inr [("O:SPY", demo_option)]) ]).
Proof.
  apply (proj1 (@calls_are_given_the_latest_lookup demo_database [6] ["SPY"]
                  0 0 24 [])
           _ _ [EvCall (upload_options_quotes [("O:SPY", demo_option)])]).
  reflexivity.
Defined.

(** *** [import_all] *)

Lemma staged_split t : ∀ pre0 pre c post b,
  staged (latest_unexpired pre0) t →
  t = pre ++ EvCall c :: post → snapshot_stage c = Some b →
  latest_unexpired (pre0 ++ pre) = Some b.
Proof.
  assert (Hsnoc : ∀ t e,
            latest_unexpired (t ++ [e]) =
              match e with
              | EvGenerateOTickerLookup _ _ u (inr _) => Some u
              | _ => latest_unexpired t
              end).
  { intros t' e. unfold latest_unexpired. rewrite omap_app. simpl.
    destruct e as [c|tk a [x|d]|tk a u [x|d]|m]; simpl;
      rewrite ?app_nil_r, ?last_snoc; done. }
  induction t as [|e t IH]; intros pre0 pre c post b Hs Ht Hb.
  - by destruct pre.
  - destruct pre as [|e' pre]; simplify_eq/=.
    + rewrite Hb in Hs. rewrite app_nil_r. by destruct Hs.
    + replace (pre0 ++ e' :: pre) with ((pre0 ++ [e']) ++ pre)
        by (by rewrite <- app_assoc).
      apply (IH _ _ c post); [|done|done]. rewrite Hsnoc.
      destruct e' as [c'|tk a [x|d]|tk a u [x|d]|m]; simpl in *;
        try done. by destruct Hs.
Qed.

(** [import_all] covers the whole database and ends with the quotes.
    Whatever [tickers] is, the metadata is asked for all tickers and every
    lookup is made over all of them; the snapshots are given a lookup of the
    unexpired option tickers, the option prices and the quotes a lookup of
    all of them, and every quote download is the last call of the run: the
    quotes are never uploaded. *)
Theorem import_all_covers_everything `{Collaborators} tickers start_date
    end_date months_hist h :
  let r := import_all tickers start_date end_date months_hist h in
  Forall for_all_tickers r.1 ∧
  Forall (λ e, is_quote_upload e = false) r.1 ∧
  (∀ pre c post b,
     r.1 = pre ++ EvCall c :: post → snapshot_stage c = Some b →
     latest_unexpired pre = Some b) ∧
  (∀ pre ots m post,
     r.1 = pre ++ EvCall (download_options_quotes ots m) :: post →
     post = [] ∧ m = months_hist).
Proof.
  intros r. subst r.
  assert (Hlast : ∀ pre ots m post t e,
            Forall (λ e, is_quote_download e = false) t →
            (e = EvCall (download_options_quotes ots m) → m = months_hist) →
            t ++ [e] = pre ++ EvCall (download_options_quotes ots m) :: post →
            post = [] ∧ m = months_hist).
  { intros pre ots m post t e Ht He Heq.
    destruct post as [|e' post _] using rev_ind.
    - apply app_inj_tail in Heq as [_ ->]. by split; [|apply He].
    - rewrite app_comm_cons, app_assoc in Heq.
      apply app_inj_tail in Heq as [-> _].
      apply Forall_app in Ht as [_ Ht].
      by apply Forall_cons in Ht as [? _]. }
  assert (Hnone : ∀ pre ots m post t,
            Forall (λ e, is_quote_download e = false) t →
            t = pre ++ EvCall (download_options_quotes ots m) :: post →
            post = [] ∧ m = months_hist).
  { intros pre ots m post t Ht ->. apply Forall_app in Ht as [_ Ht].
    by apply Forall_cons in Ht as [? _]. }
  unfold import_all. run_calls.
  all: split; [by repeat constructor|].
  all: split; [by repeat constructor|].
  all: split;
    [intros pre c post b Ht Hb;
     eapply (staged_split _ [] pre c post b); [|exact Ht|exact Hb];
     simpl; repeat split; eauto|].
  all: intros pre ots m post.
  all: try (apply Hnone; by repeat constructor).
  all: match goal with
       | |- ?e1 :: ?e2 :: ?e3 :: ?e4 :: ?e5 :: ?e6 :: ?e7 :: ?e8 :: ?e9 ::
            ?e10 :: ?e11 :: ?e12 :: ?e13 :: [?e14] = _ → _ =>
           apply (Hlast pre ots m post
                    [e1; e2; e3; e4; e5; e6; e7; e8; e9; e10; e11; e12; e13]
                    e14);
           [by repeat constructor|by intros [= _ ->]]
       end.
Qed.

Lemma import_all_covers_everything_witness :
  let r := @import_all demo_database ["SPY"] 0 0 24 [] in
  latest_unexpired (take 8 r.1) = Some true ∧
  drop 14 r.1 = [] ∧ 24 = 24.
Proof.
  intros r.
  destruct (@import_all_covers_everything demo_database ["SPY"] 0 0 24 [])
    as (_ & _ & Hstage & Hlast).
  split.
  - apply (Hstage (take 8 r.1) (download_options_snapshots [demo_option])
             (drop 9 r.1) true); reflexivity.
  - apply (Hlast (take 13 r.1) [demo_option] 24 (drop 14 r.1)). reflexivity.
Defined.

(** *** The snapshots after the option prices *)

Section unexpired.
Context `{Collaborators}.
Context (partial : list Z) (tickers : list string)
  (start_date end_date : datetime) (months_hist : Z).

Let all_ : bool := bool_decide (length tickers = 0%nat).

Local Abbreviation after_empty := (after_empty tickers all_).

Lemma after_empty_split t : ∀ seen pre tk a ans post,
  after_empty seen t →
  t = pre ++ EvGenerateOTickerLookup tk a true ans :: post →
  EvGenerateOTickerLookup tickers all_ false (inr []) ∈ reverse pre ++ seen.
Proof.
  induction t as [|e t IH]; intros seen pre tk a ans post Ha Ht.
  - by destruct pre.
  - destruct Ha as [He Ha]. destruct pre as [|e' pre]; simplify_eq/=.
    + done.
    + rewrite reverse_cons, <- app_assoc. simpl. by eapply IH.
Qed.

Lemma after_empty_app_neutral t1 : ∀ seen t2,
  Forall (neutral) t1 → (∀ seen', after_empty seen' t2) →
  after_empty seen (t1 ++ t2).
Proof.
  induction t1 as [|e t1 IH]; intros seen t2 Hn H2; simpl; [done|].
  apply Forall_cons in Hn as [[He _] Hn]. split; [|by apply IH].
  by destruct e as [c|tk a x|tk a [|] x|m].
Qed.

Lemma after_empty_neutral t seen : Forall neutral t → after_empty seen t.
Proof.
  intros Hn. rewrite <- (app_nil_r t). by apply after_empty_app_neutral.
Qed.

Lemma stages_456_after_empty h seen :
  4 ∈ partial →
  after_empty seen
    ((let! o_tickers := stage_4 partial tickers months_hist in
      let! o_tickers := stage_5 partial tickers o_tickers in
      stage_6 partial tickers months_hist o_tickers) h).1.
Proof.
  intros H4. unfold stage_4, stage_5, stage_6.
  rewrite (bool_decide_eq_true_2 _ H4). fold all_. run_calls.
  all: repeat split;
    repeat first [apply list_elem_of_here|apply list_elem_of_further].
Qed.

Lemma import_partial_after_empty h :
  4 ∈ partial →
  after_empty []
    (import_partial partial tickers start_date end_date months_hist h).1.
Proof.
  intros H4. rewrite import_partial_stages. rewrite bind_run.
  pose proof (stage_1_neutral partial tickers h) as H1.
  destruct ((stage_1 partial tickers h).2) as [e|[]]; simpl;
    [by apply after_empty_neutral|].
  apply after_empty_app_neutral; [done|]. intros seen1.
  rewrite bind_run.
  match goal with
  | |- context [stage_2 _ _ _ _ ?h2] =>
      pose proof (stage_2_neutral partial tickers start_date end_date h2)
        as H2
  end.
  destruct ((stage_2 _ _ _ _ _).2) as [e|tl]; simpl;
    [by apply after_empty_neutral|].
  apply after_empty_app_neutral; [done|]. intros seen2.
  rewrite bind_run.
  match goal with
  | |- context [stage_3 _ _ _ tl ?h3] =>
      pose proof (stage_3_neutral partial tickers months_hist tl h3) as H3
  end.
  destruct ((stage_3 _ _ _ tl _).2) as [e|[]]; simpl;
    [by apply after_empty_neutral|].
  apply after_empty_app_neutral; [done|]. intros seen3.
  by apply stages_456_after_empty.
Qed.

End unexpired.

(** When the option prices are selected, [import_partial] asks for the
    unexpired option tickers only after the lookup of all option tickers has
    been answered with the empty mapping: with a non-empty answer the
    snapshots stage takes the lookup of the prices stage, expired contracts
    included, and makes no lookup of its own. *)
Theorem snapshots_reuse_the_price_lookup `{Collaborators} partial tickers
    start_date end_date months_hist h :
  4 ∈ partial →
  let r := import_partial partial tickers start_date end_date months_hist h in
  ∀ pre tk a answer post,
    r.1 = pre ++ EvGenerateOTickerLookup tk a true answer :: post →
    EvGenerateOTickerLookup tickers (bool_decide (length tickers = 0%nat))
      false (inr []) ∈ pre.
Proof.
  intros H4 r pre tk a answer post Hr.
  pose proof (import_partial_after_empty partial tickers start_date end_date
                months_hist h H4) as Ha.
  eapply after_empty_split in Ha; [|exact Hr].
  rewrite app_nil_r in Ha. exact (proj1 (elem_of_reverse _ _) Ha).
Qed.

Lemma snapshots_reuse_the_price_lookup_witness :
  EvGenerateOTickerLookup [] true false (inr []) ∈
    [ EvGenerateOTickerLookup [] true false (inr []);
      EvCall (download_options_prices [] 24);
      EvCall (upload_options_prices []) ].
Proof.
  apply (@snapshots_reuse_the_price_lookup empty_database [4; 5] [] 0 0 24 []
           ltac:(apply list_elem_of_here) _ [] true (inr [])
           [ EvCall (download_options_snapshots []);
             EvCall (upload_options_snapshots []) ]).
  reflexivity.
Defined.

End OrchestratorMoreFacts.

(** ** The orchestrator of [src/option_bot/orchestrator.py] *)

Module LegacyFacts.
Import Legacy EffFacts EffMoreFacts DbUtilsFacts.

Section facts.
Context `{Imports} `{!Collaborators}.

(** *** The pools *)


(** *** The calls of [import_tickers_and_contracts_process] *)

(** [import_tickers_and_contracts_process] never gets to run its two
    fetches: [fetch_options_contracts] has no parameter [ticker], so the call
    of line 231 is a [TypeError], raised before [asyncio.gather] is entered
    and before any collaborator is called. *)
Theorem import_tickers_and_contracts_process_fails gathered h :
  import_tickers_and_contracts_process gathered h = ([], inl TypeError).
Proof. reflexivity. Qed.

(** *** The prices *)

Lemma await_run c h :
  await c h =
    ([EvCall c],
     match raises h c with Some e => inl e | None => inr tt end).
Proof. reflexivity. Qed.

Lemma for_each_await (f : batch → call) l : ∀ h,
  let r := Eff.for_each l (λ b, await (f b)) h in
  ∃ n,
    r.1 = (EvCall ∘ f) <$> take n l ∧
    (r.2 = inr tt → n = length l) ∧
    (∀ e, r.2 = inl e →
       ∃ b, l !! (n - 1)%nat = Some b ∧ (0 < n)%nat ∧
         raises (h ++ ((EvCall ∘ f) <$> take (n - 1) l)) (f b) = Some e).
Proof.
  induction l as [|b l IH]; intros h r; subst r.
  - exists 0%nat. split; [done|]. split; [intros _; reflexivity|].
    by intros e.
  - simpl. rewrite bind_run, !await_run. cbn [fst snd].
    destruct (raises h (f b)) as [e|] eqn:Hr; cbn [fst snd].
    + exists 1%nat. split; [done|]. split; [done|].
      intros e' [= <-]. exists b. simpl. rewrite app_nil_r.
      split; [done|]. split; [lia|done].
    + destruct (IH (h ++ [EvCall (f b)])) as (n & Ht & Hok & Hexn).
      exists (S n). cbn [app]. rewrite Ht. split; [done|].
      split; [intros Hr'; by rewrite (Hok Hr')|].
      intros e He. destruct (Hexn e He) as (b' & Hb' & Hn & Hr').
      exists b'. destruct n as [|n]; [lia|]. simpl in *.
      rewrite Nat.sub_0_r in *. split; [done|]. split; [lia|].
      rewrite <- Hr'. f_equal. by rewrite <- app_assoc.
Qed.

Lemma updates_fmap_stock (l : list batch) :
  updates ((EvCall ∘ update_stock_prices) <$> l) = l.
Proof. induction l as [|b l IH]; simpl; by f_equal. Qed.

Lemma updates_fmap_options (l : list batch) :
  updates ((EvCall ∘ update_options_prices) <$> l) = l.
Proof. induction l as [|b l IH]; simpl; by f_equal. Qed.

(** The loop over a generator: the batches uploaded are the first ones
    it yields, all of them when the loop returns, which it only does when
    the generator runs out. *)
Lemma for_generated_run (f : batch → call) generator h :
  let r := for_generated generator (λ b, await (f b)) h in
  ∃ n,
    r.1 = (EvCall ∘ f) <$> take n generator.1 ∧
    (r.2 = inr tt → n = length generator.1 ∧ generator.2 = None).
Proof.
  intros r. subst r. unfold for_generated. rewrite bind_run.
  destruct (for_each_await f generator.1 h) as (n & Ht & Hok & _).
  exists n. destruct (Eff.for_each _ _ _) as [t [e|[]]]; simpl in *.
  - done.
  - destruct generator.2; simpl; rewrite app_nil_r; auto.
    split; [done|]. done.
Qed.

(** [fetch_options_prices] lets no [Exception] out. An exception of the
    planned classes ends the run silently, as if it had succeeded; any other
    [Exception] is logged, once and as the last event; only what is not an
    [Exception] is passed on. The batches uploaded are the first ones of the
    generator: nothing is uploaded after a failure. *)
Theorem fetch_options_prices_lets_no_exception_out o_ticker o_ticker_id
    expiration_date month_hist h :
  let r :=
    fetch_options_prices o_ticker o_ticker_id expiration_date month_hist h in
  let body :=
    fetch_and_update_options_prices o_ticker o_ticker_id expiration_date
      month_hist h in
  (∀ e, r.2 = inl e →
     planned e = false ∧ is_Exception e = false ∧ body = r) ∧
  (body.2 = inr tt → r = body) ∧
  (∀ e, body.2 = inl e → planned e = true → r = (body.1, inr tt)) ∧
  (∀ e, body.2 = inl e → planned e = false → is_Exception e = true →
     r = (body.1 ++ [EvLog (error e)], inr tt)) ∧
  (∀ pre e post,
     r.1 = pre ++ EvLog (error e) :: post →
     post = [] ∧ pre = body.1 ∧ body.2 = inl e ∧
     planned e = false ∧ is_Exception e = true ∧ r.2 = inr tt) ∧
  updates r.1 `prefix_of`
    (clean_data_generator
       (h ++
        [EvCall
           (options_prices_fetch o_ticker o_ticker_id expiration_date
              month_hist)])).1.
Proof.
  intros r body.
  set (fetch := EvCall (options_prices_fetch o_ticker o_ticker_id
                          expiration_date month_hist)).
  assert (Hbody :
    (body.1 = [fetch] ∧ ∃ e, body.2 = inl e) ∨
    ∃ n,
      body.1 =
        fetch ::
        ((EvCall ∘ update_options_prices) <$>
           take n (clean_data_generator (h ++ [fetch])).1)).
  { subst body. unfold fetch_and_update_options_prices.
    rewrite bind_run, !await_run. cbn [fst snd].
    fold fetch. destruct (raises h _) as [e|]; [left; eauto|].
    right.
    destruct (for_generated_run update_options_prices
                (clean_data_generator (h ++ [fetch])) (h ++ [fetch]))
      as (n & Ht & _).
    exists n. cbn [app]. by rewrite Ht. }
  assert (Hnolog : ∀ pre e post, body.1 ≠ pre ++ EvLog (error e) :: post).
  { intros pre e post Heq.
    assert (Hin : EvLog (error e) ∈ body.1).
    { rewrite Heq. apply elem_of_app. right. apply list_elem_of_here. }
    destruct Hbody as [[Hb _]|[n Hb]]; rewrite Hb in Hin.
    - apply list_elem_of_singleton in Hin. done.
    - apply elem_of_cons in Hin as [?|Hin]; [done|].
      apply list_elem_of_fmap in Hin as (b & ? & _). done. }
  assert (Hupd : updates body.1 `prefix_of`
                   (clean_data_generator (h ++ [fetch])).1).
  { destruct Hbody as [[Hb _]|[n Hb]]; rewrite Hb.
    - apply prefix_nil.
    - simpl. rewrite updates_fmap_options. apply prefix_take. }
  subst r. unfold fetch_options_prices, try_. fold body.
  destruct body as [t [e|[]]] eqn:Hb; simpl in *.
  - destruct (planned e) eqn:Hp; [|destruct (is_Exception e) eqn:He].
    + simpl. rewrite app_nil_r. split; [done|]. split; [done|].
      split; [by intros ? [= <-] _|]. split; [intros ? [= <-]; congruence|].
      split; [|done]. intros pre e' post Heq. by apply Hnolog in Heq.
    + simpl. split; [done|]. split; [done|].
      split; [intros ? [= <-]; congruence|]. split; [by intros ? [= <-] _ _|].
      split.
      * intros pre e' post Heq.
        destruct post as [|x post _] using rev_ind.
        -- apply app_inj_tail in Heq as [-> [= <-]]. done.
        -- rewrite app_comm_cons, app_assoc in Heq.
           apply app_inj_tail in Heq as [Heq _]. by apply Hnolog in Heq.
      * unfold updates in *. rewrite omap_app. simpl. by rewrite app_nil_r.
    + simpl. rewrite app_nil_r.
      split; [by intros ? [= <-]|]. split; [done|].
      split; [intros ? [= <-]; congruence|].
      split; [intros ? [= <-]; congruence|].
      split; [|done]. intros pre e' post Heq. by apply Hnolog in Heq.
  - split; [done|]. split; [done|]. split; [done|]. split; [done|].
    split; [|done]. intros pre e' post Heq. by apply Hnolog in Heq.
Qed.

Lemma updates_not_imported (l : list batch) :
  Forall (λ e, ¬ is_imported e) ((EvCall ∘ update_stock_prices) <$> l).
Proof. apply Forall_fmap, Forall_forall. by intros b _ ?. Qed.

(** [fetch_stock_prices] from the line that logs the ticker on, the id
    being known. *)
Lemma fetch_stock_prices_from ticker start_date end_date ticker_id h :
  let r :=
    (log (pulling_prices ticker) ;;;
     await (stock_prices_fetch ticker ticker_id start_date end_date) ;;;
     (λ h, for_generated (clean_data_generator h)
             (λ batch, await (update_stock_prices batch)) h) ;;;
     await (ticker_imported ticker_id) ;;;
     log (successfully_imported ticker)) h in
  let fetch :=
    EvCall (stock_prices_fetch ticker ticker_id start_date end_date) in
  let generator :=
    clean_data_generator (h ++ [EvLog (pulling_prices ticker); fetch]) in
  (∀ answer, EvLookupTickerId ticker true answer ∉ r.1) ∧
  (∀ pre id post,
     r.1 = pre ++ EvCall (ticker_imported id) :: post →
     id = ticker_id ∧
     pre =
       EvLog (pulling_prices ticker) :: fetch ::
       ((EvCall ∘ update_stock_prices) <$> generator.1) ∧
     generator.2 = None) ∧
  (r.2 = inr tt →
     EvCall (ticker_imported ticker_id) ∈ r.1 ∧
     last r.1 = Some (EvLog (successfully_imported ticker))).
Proof.
  intros r fetch generator. subst r.
  rewrite bind_run. cbn [log Eff.emit fst snd].
  rewrite bind_run, await_run. cbn [fst snd]. fold fetch.
  assert (Hshort : ∀ t : list event,
    Forall (λ e, ¬ is_imported e) t →
    (∀ answer, EvLookupTickerId ticker true answer ∉ t) →
    (∀ answer, EvLookupTickerId ticker true answer ∉ t) ∧
    (∀ pre id post,
       t = pre ++ EvCall (ticker_imported id) :: post →
       id = ticker_id ∧
       pre =
         EvLog (pulling_prices ticker) :: fetch ::
         ((EvCall ∘ update_stock_prices) <$> generator.1) ∧
       generator.2 = None)).
  { intros t Ht Hl. split; [done|]. intros pre id post ->.
    apply Forall_app in Ht as [_ Ht]. apply Forall_cons in Ht as [Hi _].
    by destruct Hi. }
  assert (Hnolookup : ∀ (l : list batch) answer,
    EvLookupTickerId ticker true answer ∉
      (EvCall ∘ update_stock_prices) <$> l).
  { intros l answer Hin. apply list_elem_of_fmap in Hin as (b & ? & _). done. }
  destruct (raises (h ++ [EvLog (pulling_prices ticker)])
              (stock_prices_fetch ticker ticker_id start_date end_date))
    as [e|] eqn:Hfetch; cbn [fst snd app].
  { destruct (Hshort [EvLog (pulling_prices ticker); fetch]) as [Hl Hs].
    - repeat constructor; by intros ?.
    - intros answer Hin.
      repeat (apply elem_of_cons in Hin as [?|Hin]; [done|]).
      by apply elem_of_nil in Hin.
    - split; [exact Hl|]. split; [exact Hs|done]. }
  rewrite bind_run.
  replace ((h ++ [EvLog (pulling_prices ticker)]) ++ [fetch])
    with (h ++ [EvLog (pulling_prices ticker); fetch])
    by (by rewrite <- app_assoc).
  fold generator.
  destruct (for_generated_run update_stock_prices generator
              (h ++ [EvLog (pulling_prices ticker); fetch]))
    as (n & Htg & Hok).
  destruct (for_generated generator _ _) as [tg [e|[]]]; cbn [fst snd] in *.
  { subst tg.
    destruct (Hshort (EvLog (pulling_prices ticker) :: fetch ::
                      ((EvCall ∘ update_stock_prices) <$>
                         take n generator.1))) as [Hl Hs].
    - repeat (constructor; [by intros ?|]). apply updates_not_imported.
    - intros answer Hin.
      repeat (apply elem_of_cons in Hin as [?|Hin]; [done|]).
      by apply Hnolookup in Hin.
    - split; [exact Hl|]. split; [exact Hs|done]. }
  destruct (Hok eq_refl) as [-> Hnone]. rewrite firstn_all in Htg. subst tg.
  rewrite bind_run, await_run. cbn [fst snd log Eff.emit].
  set (ups := (EvCall ∘ update_stock_prices) <$> generator.1).
  assert (Hsplit : ∀ tail pre id post,
    Forall (λ e, ¬ is_imported e) tail →
    EvLog (pulling_prices ticker) :: fetch ::
      (ups ++ EvCall (ticker_imported ticker_id) :: tail) =
      pre ++ EvCall (ticker_imported id) :: post →
    id = ticker_id ∧ pre = EvLog (pulling_prices ticker) :: fetch :: ups ∧
    generator.2 = None).
  { intros tail pre id post Htail Heq.
    change (EvLog (pulling_prices ticker) :: fetch ::
              (ups ++ EvCall (ticker_imported ticker_id) :: tail))
      with ((EvLog (pulling_prices ticker) :: fetch :: ups) ++
            EvCall (ticker_imported ticker_id) :: tail) in Heq.
    apply (OrchestratorFacts.split_at_only is_imported) in Heq
      as (-> & Heq & _); try done.
    - by simplify_eq.
    - repeat (constructor; [by intros ?|]). apply updates_not_imported. }
  assert (Hnl : ∀ tail answer,
    EvLookupTickerId ticker true answer ∉ tail →
    EvLookupTickerId ticker true answer ∉
      EvLog (pulling_prices ticker) :: fetch ::
        (ups ++ EvCall (ticker_imported ticker_id) :: tail)).
  { intros tail answer Htail Hin.
    repeat (apply elem_of_cons in Hin as [?|Hin]; [done|]).
    apply elem_of_app in Hin as [Hin|Hin]; [by apply Hnolookup in Hin|].
    apply elem_of_cons in Hin as [?|Hin]; done. }
  destruct (raises _ (ticker_imported ticker_id)) as [e|]; cbn [fst snd app].
  - split; [intros answer; apply Hnl, not_elem_of_nil|].
    split; [|done]. intros pre id post. by apply Hsplit.
  - split.
    { intros answer. apply Hnl. intros Hin.
      apply list_elem_of_singleton in Hin. done. }
    split.
    { intros pre id post. apply Hsplit. repeat constructor. by intros ?. }
    intros _. split.
    + do 2 apply list_elem_of_further. apply elem_of_app. right.
      apply list_elem_of_here.
    + rewrite !app_comm_cons.
      change (?a ++ ?x :: [?y]) with (a ++ [x; y]).
      rewrite (app_assoc _ [_] [_]) || idtac.
      by rewrite last_app.
Qed.

(** [fetch_stock_prices] asks the database for the id exactly when it is
    given none, 0 counting as none. It marks the ticker as imported only
    after the prices have been fetched for that id and every batch of the
    generator has been uploaded, in order, the generator having run out; a
    run that returns has marked it. *)
Theorem fetch_stock_prices_marks_imported_last ticker start_date end_date
    ticker_id h :
  let r := fetch_stock_prices ticker start_date end_date ticker_id h in
  ((∃ answer, EvLookupTickerId ticker true answer ∈ r.1) ↔
     no_id ticker_id = true) ∧
  (∀ pre id post,
     r.1 = pre ++ EvCall (ticker_imported id) :: post →
     let before :=
       (if no_id ticker_id then [EvLookupTickerId ticker true (inr id)]
        else []) ++
       [EvLog (pulling_prices ticker)] in
     let fetch := EvCall (stock_prices_fetch ticker id start_date end_date) in
     let generator := clean_data_generator (h ++ before ++ [fetch]) in
     pre =
       before ++ fetch :: ((EvCall ∘ update_stock_prices) <$> generator.1) ∧
     generator.2 = None ∧
     (no_id ticker_id = false → id = ticker_id)) ∧
  (r.2 = inr tt →
     (∃ id, EvCall (ticker_imported id) ∈ r.1) ∧
     last r.1 = Some (EvLog (successfully_imported ticker))).
Proof.
  intros r. subst r. unfold fetch_stock_prices.
  destruct (no_id ticker_id) eqn:Hid.
  - rewrite bind_perform.
    destruct (lookup_ticker_id h ticker true) as [e|id0]; cbn [fst snd].
    + split; [split; [done|]; intros _; eexists; apply list_elem_of_here|].
      split; [|done]. intros pre id post Heq.
      by destruct pre as [|? [|? ?]].
    + destruct (fetch_stock_prices_from ticker start_date end_date id0
                  (h ++ [EvLookupTickerId ticker true (inr id0)]))
        as (_ & Hsplit & Hok).
      split; [split; [done|]; intros _; eexists; apply list_elem_of_here|].
      split.
      * intros pre id post Heq. destruct pre as [|e pre]; [done|].
        injection Heq as <- Heq.
        destruct (Hsplit _ _ _ Heq) as (-> & -> & Hnone).
        cbv zeta. rewrite <- app_assoc in Hnone.
        split; [by rewrite <- app_assoc|]. split; [exact Hnone|done].
      * intros Hr. destruct (Hok Hr) as [Hin Hlast]. split.
        -- eexists. apply list_elem_of_further. exact Hin.
        -- destruct (_ ;;; _) as [[|e t] res] eqn:Hrun; [done|].
           cbn [fst] in *. by rewrite last_cons, Hlast.
  - rewrite bind_ret, app_nil_r.
    destruct (fetch_stock_prices_from ticker start_date end_date ticker_id h)
      as (Hnl & Hsplit & Hok).
    split; [split; [|done]; by intros [answer ?%Hnl]|].
    split.
    + intros pre id post Heq.
      destruct (Hsplit _ _ _ Heq) as (-> & -> & Hnone).
      cbv zeta. split; [reflexivity|]. split; [exact Hnone|done].
    + intros Hr. destruct (Hok Hr) as [Hin Hlast]. split; [|done].
      by eexists.
Qed.

(** *** [main] *)

Lemma first_items_singletons (rows : list DbUtils.stock_row) :
  first_items (map (λ x, [(x.2, x.1)]) rows) =
    inr (map (λ x, (x.2, x.1)) rows).
Proof. induction rows as [|x rows IH]; simpl; by rewrite ?IH. Qed.

Lemma dict_comprehension_map {A B V} (f : A → B) (key : B → string)
    (value : B → V) (l : list A) :
  DbUtils.dict_comprehension key value (map f l) =
    DbUtils.dict_comprehension (key ∘ f) (value ∘ f) l.
Proof.
  induction l as [|x l IH] using rev_ind; [done|].
  rewrite map_app. cbn [map]. by rewrite !dict_comprehension_snoc, IH.
Qed.

Lemma dict_comprehension_cons {A V} (key : A → string) (value : A → V) x
    l :
  DbUtils.dict_comprehension key value (x :: l) ≠ [].
Proof.
  intros Hnil.
  assert (Hin : key x ∈ (DbUtils.dict_comprehension key value (x :: l)).*1).
  { rewrite dict_comprehension_keys, elem_of_first_seen.
    apply list_elem_of_here. }
  rewrite Hnil in Hin. by apply elem_of_nil in Hin.
Qed.

(** [fetch_options_contracts] as [main] calls it. *)
Lemma fetch_options_contracts_of_lookup lookup months_hist h :
  let r := fetch_options_contracts None (Some lookup) months_hist h in
  let options := OptionsContracts lookup.*1 lookup months_hist in
  Forall (λ e, ¬ is_stock_query e) r.1 ∧
  match lookup with
  | [] => r = ([], inl InvalidArgs)
  | _ :: _ =>
      ∃ rest,
        r.1 =
          EvLog generating_urls :: EvGenerateRequestArgs options ::
          EvLog fetching_data ::
          EvCall
            (pool_starmap pool_default_kwargs options
               (generate_request_args options)) :: rest
  end.
Proof.
  intros r options. subst r options. unfold fetch_options_contracts.
  destruct lookup as [|kv lookup]; [by split|].
  cbn [falsy andb]. rewrite bind_ret.
  unfold api_pool_downloader, pool_kwarg_config, log, await, Eff.effect,
    Eff.emit, Eff.bind.
  rewrite (left_id_L ∅ (∪)). simpl.
  destruct (raises _ _); simpl.
  - split; [repeat constructor; by intros ?|]. by eexists.
  - split; [repeat constructor; by intros ?|]. by eexists.
Qed.

(** The run of [main], by what the pool of the metadata and the query
    answer. *)
Lemma main_run h :
  let meta := StockMetaData ["all_"] true in
  let kw : kwargs :=
    {[ "processes" := VInt 1;
       "childconcurrency" := VInt 1;
       "queuecount" := VInt 1 ]} in
  let pool :=
    pool_starmap (pool_kwarg_config kw) meta (generate_request_args meta) in
  let t0 :=
    [ EvLog fetching_all_metadata; EvLog pulling_all_metadata;
      EvLog generating_urls; EvGenerateRequestArgs meta;
      EvLog fetching_data ] in
  match raises (h ++ t0) pool with
  | Some e => main h = (t0 ++ [EvCall pool], inl e)
  | None =>
      let t1 :=
        t0 ++ [EvCall pool; EvLog (finished_downloading (paginator_type meta))]
      in
      match query_all_stock_tickers (h ++ t1) with
      | inl e => main h = (t1 ++ [EvQueryAllStockTickers (inl e)], inl e)
      | inr rows =>
          let t2 := t1 ++ [EvQueryAllStockTickers (inr rows)] in
          let rest :=
            fetch_options_contracts None
              (Some (DbUtils.dict_comprehension snd fst rows)) 24
              (h ++ t2 ++ []) in
          main h = (t2 ++ rest.1, rest.2)
      end
  end.
Proof.
  intros meta kw pool t0.
  unfold main, import_all_ticker_metadata, fetch_stock_metadata,
    api_pool_downloader.
  fold meta kw. cbv zeta. fold pool.
  rewrite bind_run.
  match goal with
  | |- context [(?m h).2] =>
      assert (Hm : m h =
        match raises (h ++ t0) pool with
        | Some e => (t0 ++ [EvCall pool], inl e)
        | None =>
            match
              query_all_stock_tickers
                (h ++ t0 ++
                 [EvCall pool;
                  EvLog (finished_downloading (paginator_type meta))])
            with
            | inl e =>
                ((t0 ++
                  [EvCall pool;
                   EvLog (finished_downloading (paginator_type meta))]) ++
                 [EvQueryAllStockTickers (inl e)], inl e)
            | inr rows =>
                ((t0 ++
                  [EvCall pool;
                   EvLog (finished_downloading (paginator_type meta))]) ++
                 [EvQueryAllStockTickers (inr rows)],
                 inr (map (λ x : DbUtils.stock_row, [(x.2, x.1)]) rows))
            end
        end)
  end.
  { unfold log, await, Eff.effect, Eff.emit, Eff.perform, Eff.bind, Eff.ret.
    simpl. rewrite <- !app_assoc. simpl.
    destruct (raises _ _); [done|]. simpl.
    rewrite <- !app_assoc. simpl.
    by destruct (query_all_stock_tickers _). }
  rewrite Hm. clear Hm.
  destruct (raises (h ++ t0) pool) as [e|]; [done|].
  destruct (query_all_stock_tickers _) as [e|rows]; [done|].
  cbn [fst snd]. rewrite first_items_singletons, bind_ret.
  rewrite dict_comprehension_map.
  change (DbUtils.dict_comprehension (fst ∘ _) (snd ∘ _) rows)
    with (DbUtils.dict_comprehension snd fst rows).
  by rewrite <- !app_assoc.
Qed.

(** [main] fetches the option contracts of every ticker of the database.
    The lookups of one entry that [import_all_ticker_metadata] returns are
    merged into one without an [IndexError]; the contracts are asked for
    the tickers in the order in which the rows first show them, 24 months
    back, in a pool configured by the defaults alone. On an empty table
    nothing is fetched: [main] ends with [InvalidArgs]. *)
Theorem main_fetches_contracts_of_all_tickers h pre rows post :
  (main h).1 = pre ++ EvQueryAllStockTickers (inr rows) :: post →
  let lookup := DbUtils.dict_comprehension snd fst rows in
  let options := OptionsContracts lookup.*1 lookup 24 in
  match rows with
  | [] => post = [] ∧ (main h).2 = inl InvalidArgs
  | _ :: _ =>
      lookup.*1 = DbUtils.first_seen (map snd rows) ∧
      ∃ rest,
        post =
          EvLog generating_urls :: EvGenerateRequestArgs options ::
          EvLog fetching_data ::
          EvCall
            (pool_starmap pool_default_kwargs options
               (generate_request_args options)) :: rest
  end.
Proof.
  intros Heq lookup options.
  pose proof (main_run h) as Hrun. cbv zeta in Hrun.
  assert (Hnone : ∀ (t pre' : list event) answer post',
    Forall (λ e, ¬ is_stock_query e) t →
    t ≠ pre' ++ EvQueryAllStockTickers answer :: post').
  { intros t pre' answer post' Ht ->. apply Forall_app in Ht as [_ Ht].
    apply Forall_cons in Ht as [Hq _]. by apply Hq. }
  destruct (raises _ _) as [e|].
  { rewrite Hrun in Heq. apply Hnone in Heq; [done|].
    repeat constructor; by intros ?. }
  destruct (query_all_stock_tickers _) as [e|rows0].
  { rewrite Hrun in Heq. cbn [fst] in Heq.
    destruct post as [|x post _] using rev_ind.
    - by apply app_inj_tail in Heq as [_ ?].
    - rewrite app_comm_cons, app_assoc in Heq.
      apply app_inj_tail in Heq as [Heq _]. apply Hnone in Heq; [done|].
      repeat constructor; by intros ?. }
  rewrite Hrun in *. cbn [fst snd] in *.
  match type of Heq with
  | context [fetch_options_contracts None (Some ?lk) 24 ?h'] =>
      pose proof (fetch_options_contracts_of_lookup lk 24 h') as [Hq Hrest];
      remember (fetch_options_contracts None (Some lk) 24 h') as rest
  end.
  simpl in Heq.
  match type of Heq with
  | ?e1 :: ?e2 :: ?e3 :: ?e4 :: ?e5 :: ?e6 :: ?e7 :: ?q :: ?b = _ =>
      apply (OrchestratorFacts.split_at_only is_stock_query
               [e1; e2; e3; e4; e5; e6; e7] b pre post q)
        in Heq as (-> & Hrows & ->); try done;
        [|repeat constructor; by intros ?]
  end.
  injection Hrows as <-. subst lookup options.
  destruct rows as [|x rows].
  - by rewrite Hrest.
  - split; [apply dict_comprehension_keys|].
    pose proof (dict_comprehension_cons snd fst x rows) as Hne.
    destruct (DbUtils.dict_comprehension snd fst (x :: rows)); [done|].
    exact Hrest.
Qed.

End facts.

Lemma fetch_options_prices_lets_no_exception_out_witness :
  @fetch_options_prices demo_imports demo_failing "O:SPY" 1 0 24 [] =
    ([ EvCall (@options_prices_fetch demo_imports "O:SPY" 1 0 24);
       EvCall (@update_options_prices demo_imports 1) ], inr tt).
Proof.
  destruct (@fetch_options_prices_lets_no_exception_out demo_imports
              demo_failing "O:SPY" 1 0 24 []) as (_ & _ & Hsilent & _).
  apply (Hsilent (Planned "ProjTimeoutError")); reflexivity.
Defined.

Lemma fetch_stock_prices_marks_imported_last_witness :
  let r := @fetch_stock_prices demo_imports demo_collaborators "SPY" 0 0 None []
  in
  take 5 r.1 =
    [ @EvLookupTickerId demo_imports "SPY" true (inr (Some 7));
      EvLog (pulling_prices "SPY");
      EvCall (@stock_prices_fetch demo_imports "SPY" (Some 7) 0 0);
      EvCall (@update_stock_prices demo_imports 1);
      EvCall (@update_stock_prices demo_imports 2) ] ∧
  last r.1 = Some (EvLog (successfully_imported "SPY")).
Proof.
  intros r.
  destruct (@fetch_stock_prices_marks_imported_last demo_imports
              demo_collaborators "SPY" 0 0 None []) as (_ & Hsplit & Hok).
  split.
  - apply (Hsplit (take 5 r.1) (Some 7) (drop 6 r.1)). reflexivity.
  - apply Hok. reflexivity.
Defined.

Lemma main_fetches_contracts_of_all_tickers_witness :
  let r := @main demo_imports demo_collaborators [] in
  let lookup :=
    DbUtils.dict_comprehension snd fst
      [(94, "AA"); (125, "AAWW"); (95, "AA")] in
  lookup = [("AA", 95); ("AAWW", 125)] ∧
  lookup.*1 = ["AA"; "AAWW"] ∧
  ∃ rest,
    drop 8 r.1 =
      EvLog generating_urls ::
      @EvGenerateRequestArgs demo_imports "OptionsContracts" ::
      EvLog fetching_data ::
      EvCall
        (@pool_starmap demo_imports (@pool_default_kwargs demo_imports)
           "OptionsContracts" []) :: rest.
Proof.
  intros r lookup. split; [reflexivity|].
  apply (@main_fetches_contracts_of_all_tickers demo_imports
           demo_collaborators [] (take 7 r.1)
           [(94, "AA"); (125, "AAWW"); (95, "AA")] (drop 8 r.1)).
  reflexivity.
Defined.

End LegacyFacts.
